(** * Region allocator of the Halide runtime

    A shallow embedding of [src/runtime/internal/region_allocator.h]: the
    class [RegionAllocator] sub-allocates one memory block into regions that
    are kept in a doubly-linked list of [BlockRegion] nodes.  The nodes live
    in an arena and are referred to by address, so the embedding keeps a
    store of nodes indexed by address and follows [next_ptr] / [prev_ptr]
    links through that store, exactly as the C++ code follows pointers. *)

From Stdlib Require Import ZArith Lia.
From stdpp Require Import base option list gmap.

#[local] Open Scope Z_scope.

(** ** Machine integers

    [size_t] is a 64-bit unsigned integer and [usage_count] a [uint32_t];
    both are modelled in [Z] with the wrap-around spelled out. *)

Definition wrap64 (z : Z) : Z := z mod 2 ^ 64.
Definition wrap32 (z : Z) : Z := z mod 2 ^ 32.

(** ** Types of [memory_resources.h] *)

(** Modelled from the spec: the enumerations of [memory_resources.h] are not
    part of the sources at hand.  Each property axis is a small enumeration
    with a [Default] sentinel; the other enumerators are kept by tag. *)
Inductive MemoryVisibility := DefaultVisibility | Visibility (tag : nat).
Inductive MemoryCaching := DefaultCaching | Caching (tag : nat).
Inductive MemoryUsage := DefaultUsage | Usage (tag : nat).

(** Modelled from the spec: allocation status of a block region. *)
Inductive AllocationStatus := Available | InUse | Dedicated | Purgeable.

#[global] Instance MemoryVisibility_eq_dec : EqDecision MemoryVisibility.
Proof. solve_decision. Defined.
#[global] Instance MemoryCaching_eq_dec : EqDecision MemoryCaching.
Proof. solve_decision. Defined.
#[global] Instance MemoryUsage_eq_dec : EqDecision MemoryUsage.
Proof. solve_decision. Defined.
#[global] Instance AllocationStatus_eq_dec : EqDecision AllocationStatus.
Proof. solve_decision. Defined.

Record MemoryProperties := {
  visibility : MemoryVisibility;
  caching : MemoryCaching;
  usage : MemoryUsage;
  alignment : Z
}.

Record MemoryRequest := {
  rq_size : Z;
  rq_alignment : Z;
  rq_properties : MemoryProperties;
  rq_dedicated : bool
}.

(** A null [handle] is [0]. *)
Record MemoryRegion := {
  mr_handle : Z;
  mr_offset : Z;
  mr_size : Z;
  mr_properties : MemoryProperties;
  mr_dedicated : bool;
  mr_is_owner : bool
}.

Record MemoryBlock := {
  mb_handle : Z;
  mb_size : Z;
  mb_properties : MemoryProperties;
  mb_dedicated : bool
}.

(** Addresses of arena entries; a null pointer is [None]. *)
Abbreviation addr := nat (only parsing).

Record BlockRegion := {
  memory : MemoryRegion;
  status : AllocationStatus;
  usage_count : Z;
  block_ptr : Z;
  prev_ptr : option addr;
  next_ptr : option addr
}.

Record BlockResource := {
  blk_memory : MemoryBlock;
  blk_reserved : Z;
  blk_regions : option addr
}.

(** Modelled from the spec: [conform_alignment], [aligned_offset] and
    [aligned_size] are defined in [memory_resources.h], which is not part of
    the sources at hand.  The spec gives [conform_alignment] as the maximum of
    the two alignments rounded up to a power of two, [aligned_offset o a] as
    [o] rounded up to a multiple of [a], and [aligned_size o s a] as
    [round_up (o + s) a - o]. *)
Definition round_up (o a : Z) : Z :=
  if a =? 0 then o else ((o + a - 1) / a) * a.

Definition conform_alignment (requested required : Z) : Z :=
  wrap64 (2 ^ Z.log2_up (Z.max requested required)).

Definition aligned_offset (o a : Z) : Z := wrap64 (round_up o a).

Definition aligned_size (o s a : Z) : Z := wrap64 (round_up (o + s) a - o).

(** ** Allocation callbacks and their observable history *)

(** A region callback receives a pointer to the [MemoryRegion] and writes its
    [handle]; it returns an error code ([0] is success).  The model of a
    callback maps the region it is given to the error code and the handle it
    leaves in the region.

    The struct holds the two callbacks as function pointers, and a method
    aborts when the pointer it is about to call is null (l. 297, 356, 489 and
    539).  The embedding is of an allocator whose callback table is complete:
    a callback is a function here, and these four checks have no
    counterpart. *)
Record MemoryRegionAllocatorFns := {
  allocate : MemoryRegion -> Z * Z;
  deallocate : MemoryRegion -> Z * Z
}.

(** Every call that leaves the allocator is recorded: the region callbacks
    with the node whose [memory] they were given and its contents at the call,
    and the return of a node to the arena. *)
Inductive Event :=
| EvAllocate (a : addr) (m : MemoryRegion) (code : Z)
| EvDeallocate (a : addr) (m : MemoryRegion) (code : Z)
| EvArenaReclaim (a : addr).

(** ** The allocator object

    [block] is the [BlockResource] the member pointer [block] refers to and
    [block_addr] its address.  Modelled from the spec: [memory_arena.h] is
    not part of the sources at hand; the arena hands out zeroed entries that
    are not live ([reserve]) and takes entries back ([reclaim]).  It is kept
    as the store [nodes] of live entries and the next unused address.  The
    arena always has an entry to hand out: [create_block_region] does not
    return null (l. 412-415), and the check of l. 386 has no counterpart. *)
Record RegionAllocator := {
  block_addr : Z;
  block : BlockResource;
  nodes : gmap addr BlockRegion;
  arena_next : addr;
  allocators : MemoryRegionAllocatorFns;
  history : list Event
}.

(** *** Field updates *)

Definition set_handle (h : Z) (m : MemoryRegion) : MemoryRegion :=
  {| mr_handle := h; mr_offset := mr_offset m; mr_size := mr_size m;
     mr_properties := mr_properties m; mr_dedicated := mr_dedicated m;
     mr_is_owner := mr_is_owner m |}.

Definition set_offset (o : Z) (m : MemoryRegion) : MemoryRegion :=
  {| mr_handle := mr_handle m; mr_offset := o; mr_size := mr_size m;
     mr_properties := mr_properties m; mr_dedicated := mr_dedicated m;
     mr_is_owner := mr_is_owner m |}.

Definition set_size (sz : Z) (m : MemoryRegion) : MemoryRegion :=
  {| mr_handle := mr_handle m; mr_offset := mr_offset m; mr_size := sz;
     mr_properties := mr_properties m; mr_dedicated := mr_dedicated m;
     mr_is_owner := mr_is_owner m |}.

Definition set_is_owner (b : bool) (m : MemoryRegion) : MemoryRegion :=
  {| mr_handle := mr_handle m; mr_offset := mr_offset m; mr_size := mr_size m;
     mr_properties := mr_properties m; mr_dedicated := mr_dedicated m;
     mr_is_owner := b |}.

Definition set_memory (m : MemoryRegion) (n : BlockRegion) : BlockRegion :=
  {| memory := m; status := status n; usage_count := usage_count n;
     block_ptr := block_ptr n; prev_ptr := prev_ptr n; next_ptr := next_ptr n |}.

Definition set_status (st : AllocationStatus) (n : BlockRegion) : BlockRegion :=
  {| memory := memory n; status := st; usage_count := usage_count n;
     block_ptr := block_ptr n; prev_ptr := prev_ptr n; next_ptr := next_ptr n |}.

Definition set_usage_count (c : Z) (n : BlockRegion) : BlockRegion :=
  {| memory := memory n; status := status n; usage_count := c;
     block_ptr := block_ptr n; prev_ptr := prev_ptr n; next_ptr := next_ptr n |}.

Definition set_prev_ptr (p : option addr) (n : BlockRegion) : BlockRegion :=
  {| memory := memory n; status := status n; usage_count := usage_count n;
     block_ptr := block_ptr n; prev_ptr := p; next_ptr := next_ptr n |}.

Definition set_next_ptr (p : option addr) (n : BlockRegion) : BlockRegion :=
  {| memory := memory n; status := status n; usage_count := usage_count n;
     block_ptr := block_ptr n; prev_ptr := prev_ptr n; next_ptr := p |}.

Definition set_reserved (r : Z) (b : BlockResource) : BlockResource :=
  {| blk_memory := blk_memory b; blk_reserved := r; blk_regions := blk_regions b |}.

Definition set_regions (p : option addr) (b : BlockResource) : BlockResource :=
  {| blk_memory := blk_memory b; blk_reserved := blk_reserved b; blk_regions := p |}.

Definition with_block (b : BlockResource) (s : RegionAllocator) : RegionAllocator :=
  {| block_addr := block_addr s; block := b; nodes := nodes s;
     arena_next := arena_next s; allocators := allocators s;
     history := history s |}.

Definition with_nodes (h : gmap addr BlockRegion) (s : RegionAllocator) : RegionAllocator :=
  {| block_addr := block_addr s; block := block s; nodes := h;
     arena_next := arena_next s; allocators := allocators s;
     history := history s |}.

Definition with_arena_next (a : addr) (s : RegionAllocator) : RegionAllocator :=
  {| block_addr := block_addr s; block := block s; nodes := nodes s;
     arena_next := a; allocators := allocators s;
     history := history s |}.

Definition with_history (l : list Event) (s : RegionAllocator) : RegionAllocator :=
  {| block_addr := block_addr s; block := block s; nodes := nodes s;
     arena_next := arena_next s; allocators := allocators s;
     history := l |}.

(** ** A state monad with abort

    A method of the class reads and writes the allocator object; [None]
    stands for a run that does not return: [halide_abort_if_false] failed, a
    pointer that is not a live arena entry was dereferenced, or a list walk
    did not reach the end of the list. *)
Definition M (A : Type) : Type := RegionAllocator -> option (A * RegionAllocator).

Definition ret {A} (a : A) : M A := fun s => Some (a, s).

Definition bind {A B} (m : M A) (f : A -> M B) : M B :=
  fun s => match m s with
           | Some (a, s') => f a s'
           | None => None
           end.

Definition abort {A} : M A := fun _ => None.

Declare Scope alloc_scope.
Delimit Scope alloc_scope with alloc.
Notation "x <- m ;; k" := (bind m (fun x => k))
  (at level 90, m at level 80, right associativity) : alloc_scope.
Notation "m ;;; k" := (bind m (fun _ => k))
  (at level 90, right associativity) : alloc_scope.
#[local] Open Scope alloc_scope.

Definition halide_abort_if_false (b : bool) : M unit :=
  if b then ret tt else abort.

Definition get_block : M BlockResource := fun s => Some (block s, s).

Definition put_block (b : BlockResource) : M unit :=
  fun s => Some (tt, with_block b s).

Definition get_allocators : M MemoryRegionAllocatorFns :=
  fun s => Some (allocators s, s).

Definition get_block_addr : M Z := fun s => Some (block_addr s, s).

(** [*p] for a node pointer [p]. *)
Definition load (a : addr) : M BlockRegion :=
  fun s => match nodes s !! a with
           | Some n => Some (n, s)
           | None => None
           end.

(** [*p = n] for a node pointer [p] that has been read from. *)
Definition store (a : addr) (n : BlockRegion) : M unit :=
  fun s => Some (tt, with_nodes (<[a := n]> (nodes s)) s).

Definition emit (e : Event) : M unit :=
  fun s => Some (tt, with_history (history s ++ [e]) s).

(** [arena->reserve(user_context, true)]: a zeroed entry. *)
Definition zero_properties : MemoryProperties :=
  {| visibility := DefaultVisibility; caching := DefaultCaching;
     usage := DefaultUsage; alignment := 0 |}.

Definition zero_region : BlockRegion :=
  {| memory := {| mr_handle := 0; mr_offset := 0; mr_size := 0;
                  mr_properties := zero_properties; mr_dedicated := false;
                  mr_is_owner := false |};
     status := Available; usage_count := 0; block_ptr := 0;
     prev_ptr := None; next_ptr := None |}.

Definition arena_reserve : M addr :=
  fun s => let a := arena_next s in
           Some (a, with_arena_next (S a) (with_nodes (<[a := zero_region]> (nodes s)) s)).

(** [arena->reclaim(user_context, p)]. *)
Definition arena_reclaim (a : addr) : M unit :=
  fun s => Some (tt, with_history (history s ++ [EvArenaReclaim a])
                       (with_nodes (delete a (nodes s)) s)).

(** [p->field] and [p->field = v], one C++ statement at a time. *)
Definition rd {A} (a : addr) (field : BlockRegion -> A) : M A :=
  n <- load a ;; ret (field n).

Definition update (a : addr) (f : BlockRegion -> BlockRegion) : M unit :=
  n <- load a ;; store a (f n).

(** [allocators.region.allocate(user_context, &(p->memory))]. *)
Definition call_allocate (a : addr) : M unit :=
  m <- rd a memory ;;
  fns <- get_allocators ;;
  emit (EvAllocate a m (fst (allocate fns m))) ;;;
  update a (fun n => set_memory (set_handle (snd (allocate fns m)) (memory n)) n).

(** [allocators.region.deallocate(user_context, &(p->memory))]. *)
Definition call_deallocate (a : addr) : M unit :=
  m <- rd a memory ;;
  fns <- get_allocators ;;
  emit (EvDeallocate a m (fst (deallocate fns m))) ;;;
  update a (fun n => set_memory (set_handle (snd (deallocate fns m)) (memory n)) n).

(** ** Methods of [RegionAllocator] *)

Definition is_compatible_block_region (n : BlockRegion) (p : MemoryProperties) : bool :=
  if negb (bool_decide (caching p = DefaultCaching))
     && negb (bool_decide (caching p = caching (mr_properties (memory n))))
  then false
  else if negb (bool_decide (visibility p = DefaultVisibility))
          && negb (bool_decide (visibility p = visibility (mr_properties (memory n))))
  then false
  else if negb (bool_decide (usage p = DefaultUsage))
          && negb (bool_decide (usage p = usage (mr_properties (memory n))))
  then false
  else true.

Definition is_available (p : option addr) : M bool :=
  match p with
  | None => ret false
  | Some a =>
      n <- load a ;;
      if 0 <? usage_count n then ret false
      else if negb (bool_decide (status n = Available)) then ret false
      else ret true
  end.

Definition can_coalesce (a : addr) : M bool :=
  av <- is_available (Some a) ;;
  if negb av then ret false
  else
    prev <- rd a prev_ptr ;;
    avp <- is_available prev ;;
    if avp then ret true
    else
      next <- rd a next_ptr ;;
      avn <- is_available next ;;
      if avn then ret true else ret false.

Definition can_split (a : addr) (size : Z) : M bool :=
  n <- load a ;;
  ret ((size <? mr_size (memory n)) && (usage_count n =? 0)).

Definition create_block_region (properties : MemoryProperties) (offset size : Z)
    (dedicated : bool) : M addr :=
  a <- arena_reserve ;;
  ba <- get_block_addr ;;
  update a (fun n =>
    {| memory := {| mr_handle := 0; mr_offset := offset; mr_size := size;
                    mr_properties := properties; mr_dedicated := dedicated;
                    mr_is_owner := mr_is_owner (memory n) |};
       status := Available; usage_count := 0; block_ptr := ba;
       prev_ptr := prev_ptr n; next_ptr := next_ptr n |}) ;;;
  ret a.

Definition release_block_region (a : addr) : M unit :=
  n <- load a ;;
  if 0 <? usage_count n then ret tt
  else
    (if negb (bool_decide (status n = Available)) then
       b <- get_block ;;
       put_block (set_reserved (wrap64 (blk_reserved b - mr_size (memory n))) b)
     else ret tt) ;;;
    update a (set_status Available).

Definition free_block_region (a : addr) : M unit :=
  n <- load a ;;
  (if (usage_count n =? 0) && negb (mr_handle (memory n) =? 0) then
     call_deallocate a ;;;
     update a (fun n => set_memory (set_size 0 (memory n)) n) ;;;
     update a (fun n => set_memory (set_offset 0 (memory n)) n) ;;;
     update a (fun n => set_memory (set_handle 0 (memory n)) n)
   else ret tt) ;;;
  update a (set_usage_count 0) ;;;
  update a (set_status Available).

Definition destroy_block_region (a : addr) : M unit :=
  update a (set_usage_count 0) ;;;
  free_block_region a ;;;
  arena_reclaim a.

Definition alloc_block_region (a : addr) : M unit :=
  st <- rd a status ;;
  halide_abort_if_false (bool_decide (st = Available)) ;;;
  h <- rd a (fun n => mr_handle (memory n)) ;;
  (if h =? 0 then
     call_allocate a ;;;
     update a (fun n => set_memory (set_is_owner true (memory n)) n)
   else ret tt) ;;;
  update a (fun n =>
    set_status (if mr_dedicated (memory n) then Dedicated else InUse) n) ;;;
  sz <- rd a (fun n => mr_size (memory n)) ;;
  b <- get_block ;;
  put_block (set_reserved (wrap64 (blk_reserved b + sz)) b).

Definition coalesce_block_regions (a : addr) : M addr :=
  n <- load a ;;
  (if (usage_count n =? 0) && negb (mr_handle (memory n) =? 0) then
     call_deallocate a ;;;
     update a (fun n => set_memory (set_handle 0 (memory n)) n)
   else ret tt) ;;;
  prev <- rd a prev_ptr ;;
  avp <- is_available prev ;;
  a1 <- (if avp then
           match prev with
           | None => abort
           | Some p =>
               next <- rd a next_ptr ;;
               update p (set_next_ptr next) ;;;
               next <- rd a next_ptr ;;
               match next with
               | Some x => update x (set_prev_ptr (Some p))
               | None => ret tt
               end ;;;
               sz <- rd a (fun n => mr_size (memory n)) ;;
               update p (fun n =>
                 set_memory (set_size (wrap64 (mr_size (memory n) + sz)) (memory n)) n) ;;;
               destroy_block_region a ;;;
               ret p
           end
         else ret a) ;;
  next <- rd a1 next_ptr ;;
  avn <- is_available next ;;
  (if avn then
     match next with
     | None => abort
     | Some x =>
         next2 <- rd x next_ptr ;;
         match next2 with
         | Some y => update y (set_prev_ptr (Some a1))
         | None => ret tt
         end ;;;
         next2 <- rd x next_ptr ;;
         update a1 (set_next_ptr next2) ;;;
         sz <- rd x (fun n => mr_size (memory n)) ;;
         update a1 (fun n =>
           set_memory (set_size (wrap64 (mr_size (memory n) + sz)) (memory n)) n) ;;;
         destroy_block_region x
     end
   else ret tt) ;;;
  ret a1.

Definition split_block_region (a : addr) (size requested : Z) : M addr :=
  n <- load a ;;
  (if (usage_count n =? 0) && negb (mr_handle (memory n) =? 0) then
     call_deallocate a ;;;
     update a (fun n => set_memory (set_handle 0 (memory n)) n)
   else ret tt) ;;;
  b <- get_block ;;
  let conformed := conform_alignment requested (alignment (mb_properties (blk_memory b))) in
  n <- load a ;;
  let adjusted_size := aligned_size (mr_offset (memory n)) size conformed in
  let adjusted_offset := aligned_offset (wrap64 (mr_offset (memory n) + size)) conformed in
  let empty_size := wrap64 (mr_size (memory n) - adjusted_size) in
  let next_region := next_ptr n in
  e <- create_block_region (mr_properties (memory n)) adjusted_offset empty_size
         (mr_dedicated (memory n)) ;;
  update e (set_next_ptr next_region) ;;;
  match next_region with
  | Some x => update x (set_prev_ptr (Some e))
  | None => ret tt
  end ;;;
  update a (set_next_ptr (Some e)) ;;;
  update a (fun n => set_memory (set_size size (memory n)) n) ;;;
  ret e.

(** The [for] loops walk the list along [next_ptr].  The walk is given as
    many steps as there are live arena entries when it starts: a walk that
    needs more has come back to a node it already visited. *)
Fixpoint find_block_region_loop (fuel : nat) (request : MemoryRequest)
    (p : option addr) : M (option addr) :=
  match p with
  | None => ret None
  | Some a =>
      match fuel with
      | O => abort
      | S fuel =>
          av <- is_available (Some a) ;;
          n <- load a ;;
          if negb av then find_block_region_loop fuel request (next_ptr n)
          else if negb (is_compatible_block_region n (rq_properties request))
          then find_block_region_loop fuel request (next_ptr n)
          else if mr_size (memory n) <? rq_size request
          then find_block_region_loop fuel request (next_ptr n)
          else
            b <- get_block ;;
            let actual_alignment :=
              conform_alignment (rq_alignment request)
                                (alignment (mb_properties (blk_memory b))) in
            let actual_size :=
              aligned_size (mr_offset (memory n)) (rq_size request) actual_alignment in
            if mr_size (memory n) <? actual_size
            then find_block_region_loop fuel request (next_ptr n)
            else if wrap64 (actual_size + blk_reserved b) <=? mb_size (blk_memory b)
            then ret (Some a)
            else find_block_region_loop fuel request (next_ptr n)
      end
  end.

Definition walk_fuel : M nat := fun s => Some (size (nodes s), s).

Definition find_block_region (request : MemoryRequest) : M (option addr) :=
  b <- get_block ;;
  fuel <- walk_fuel ;;
  find_block_region_loop fuel request (blk_regions b).

(** [RegionAllocator::reserve]; the result is the node of the returned
    region, [None] for [nullptr]. *)
Definition reserve (request : MemoryRequest) : M (option addr) :=
  halide_abort_if_false (0 <? rq_size request) ;;;
  b <- get_block ;;
  let remaining := wrap64 (mb_size (blk_memory b) - blk_reserved b) in
  if remaining <? rq_size request then ret None
  else
    r <- find_block_region request ;;
    match r with
    | None => ret None
    | Some a =>
        cs <- can_split a (rq_size request) ;;
        (if cs then
           split_block_region a (rq_size request) (rq_alignment request) ;;; ret tt
         else ret tt) ;;;
        alloc_block_region a ;;;
        update a (set_usage_count 1) ;;;
        ret (Some a)
    end.

(** The public methods that take a region are given the address of its node;
    a null pointer aborts in the C++ code. *)
Definition check_block_ptr (a : addr) : M unit :=
  bp <- rd a block_ptr ;;
  ba <- get_block_addr ;;
  halide_abort_if_false (bp =? ba).

Definition decrement_usage (a : addr) : M unit :=
  c <- rd a usage_count ;;
  if 0 <? c then update a (fun n => set_usage_count (wrap32 (usage_count n - 1)) n)
  else ret tt.

Definition release (a : addr) : M unit :=
  check_block_ptr a ;;;
  decrement_usage a ;;;
  release_block_region a.

Definition reclaim (a : addr) : M unit :=
  check_block_ptr a ;;;
  decrement_usage a ;;;
  release_block_region a ;;;
  free_block_region a ;;;
  cc <- can_coalesce a ;;
  if cc then coalesce_block_regions a ;;; ret tt else ret tt.

Definition retain (a : addr) : M unit :=
  check_block_ptr a ;;;
  update a (fun n => set_usage_count (wrap32 (usage_count n + 1)) n).

(** [RegionAllocator::release(void *user_context)], the release of all
    regions. *)
Fixpoint release_all_loop (fuel : nat) (p : option addr) : M unit :=
  match p with
  | None => ret tt
  | Some a =>
      match fuel with
      | O => abort
      | S fuel =>
          release_block_region a ;;;
          next <- rd a next_ptr ;;
          release_all_loop fuel next
      end
  end.

Definition release_all : M unit :=
  b <- get_block ;;
  fuel <- walk_fuel ;;
  release_all_loop fuel (blk_regions b).

Fixpoint collect_loop (fuel : nat) (p : option addr) (result : bool) : M bool :=
  match p with
  | None => ret result
  | Some a =>
      match fuel with
      | O => abort
      | S fuel =>
          cc <- can_coalesce a ;;
          if cc then
            a' <- coalesce_block_regions a ;;
            next <- rd a' next_ptr ;;
            collect_loop fuel next true
          else
            next <- rd a next_ptr ;;
            collect_loop fuel next result
      end
  end.

Definition collect : M bool :=
  b <- get_block ;;
  fuel <- walk_fuel ;;
  collect_loop fuel (blk_regions b) false.

(** [RegionAllocator::create] followed by [initialize] on a block resource
    that has no region list yet. *)
Definition initialize : M unit :=
  b <- get_block ;;
  a <- create_block_region (mb_properties (blk_memory b)) 0 (mb_size (blk_memory b))
         (mb_dedicated (blk_memory b)) ;;
  b <- get_block ;;
  put_block (set_regions (Some a) b).

Definition create (baddr : Z) (b : BlockResource) (ma : MemoryRegionAllocatorFns)
    : option RegionAllocator :=
  match initialize {| block_addr := baddr; block := b; nodes := ∅; arena_next := 0%nat;
                      allocators := ma; history := [] |} with
  | Some (_, s) => Some s
  | None => None
  end.

(** ** Calls of the public interface and reachable states *)

Inductive Call :=
| CallReserve (request : MemoryRequest)
| CallRelease (a : addr)
| CallReclaim (a : addr)
| CallRetain (a : addr)
| CallCollect
| CallReleaseAll.

Definition call (c : Call) : M unit :=
  match c with
  | CallReserve request => reserve request ;;; ret tt
  | CallRelease a => release a
  | CallReclaim a => reclaim a
  | CallRetain a => retain a
  | CallCollect => collect ;;; ret tt
  | CallReleaseAll => release_all
  end.

(** The states an allocator goes through: the state after [create], and any
    state a returning call of the public interface leads to. *)
Inductive reachable : RegionAllocator -> Prop :=
| reachable_create baddr b ma s :
    create baddr b ma = Some s -> reachable s
| reachable_call s c s' :
    reachable s -> call c s = Some (tt, s') -> reachable s'.

(** Running a sequence of calls. *)
Fixpoint calls (cs : list Call) (s : RegionAllocator) : option RegionAllocator :=
  match cs with
  | [] => Some s
  | c :: cs' =>
      match call c s with
      | Some (_, s') => calls cs' s'
      | None => None
      end
  end.

(** ** Observations on a state *)

(** The test of [is_available] on a node. *)
Definition available (n : BlockRegion) : bool :=
  negb (0 <? usage_count n) && bool_decide (status n = Available).

Definition in_use (n : BlockRegion) : bool :=
  bool_decide (status n = InUse) || bool_decide (status n = Dedicated).

Definition node_available (h : gmap addr BlockRegion) (p : option addr) : bool :=
  match p with
  | Some a => match h !! a with
              | Some n => available n
              | None => false
              end
  | None => false
  end.

(** The region list of the block: the nodes met from [block->regions] along
    [next_ptr], in list order. *)
Fixpoint walk (fuel : nat) (h : gmap addr BlockRegion) (p : option addr)
    : list (addr * BlockRegion) :=
  match fuel, p with
  | S fuel, Some a =>
      match h !! a with
      | Some n => (a, n) :: walk fuel h (next_ptr n)
      | None => []
      end
  | _, _ => []
  end.

Definition region_list (s : RegionAllocator) : list (addr * BlockRegion) :=
  walk (size (nodes s)) (nodes s) (blk_regions (block s)).

(** The regions tile [o, total): each starts where the one before it ends. *)
Fixpoint tiles_from (o : Z) (l : list (addr * BlockRegion)) (total : Z) : bool :=
  match l with
  | [] => o =? total
  | (_, n) :: l' =>
      (mr_offset (memory n) =? o) && (0 <=? mr_size (memory n))
      && tiles_from (o + mr_size (memory n)) l' total
  end.

Definition covers_block (s : RegionAllocator) : bool :=
  tiles_from 0 (region_list s) (mb_size (blk_memory (block s))).

(** Sum of the sizes of the regions that are [InUse] or [Dedicated]. *)
Fixpoint in_use_total (l : list (addr * BlockRegion)) : Z :=
  match l with
  | [] => 0
  | (_, n) :: l' => (if in_use n then mr_size (memory n) else 0) + in_use_total l'
  end.

(** No two neighbours of the list both satisfy [P]. *)
Fixpoint no_adjacent (P : BlockRegion -> bool) (l : list (addr * BlockRegion)) : Prop :=
  match l with
  | (_, n) :: (((_, n') :: _) as l') => (P n && P n' = false) /\ no_adjacent P l'
  | _ => True
  end.

Definition status_available (n : BlockRegion) : bool :=
  bool_decide (status n = Available).

(** Compatibility of a region's properties with requested ones: each requested
    axis is [Default] or equals the region's value. *)
Definition compatible (held requested : MemoryProperties) : Prop :=
  (caching requested = DefaultCaching \/ caching requested = caching held)
  /\ (visibility requested = DefaultVisibility \/ visibility requested = visibility held)
  /\ (usage requested = DefaultUsage \/ usage requested = usage held).

(** The test [find_block_region] applies to a node of the list. *)
Definition fits (s : RegionAllocator) (request : MemoryRequest) (n : BlockRegion) : bool :=
  let actual_alignment :=
    conform_alignment (rq_alignment request)
                      (alignment (mb_properties (blk_memory (block s)))) in
  let actual_size :=
    aligned_size (mr_offset (memory n)) (rq_size request) actual_alignment in
  available n
  && is_compatible_block_region n (rq_properties request)
  && (rq_size request <=? mr_size (memory n))
  && (actual_size <=? mr_size (memory n))
  && (wrap64 (actual_size + blk_reserved (block s)) <=? mb_size (blk_memory (block s))).

(** The same test with the status alone in place of [is_available]. *)
Definition fits_by_status (s : RegionAllocator) (request : MemoryRequest)
    (n : BlockRegion) : bool :=
  let actual_alignment :=
    conform_alignment (rq_alignment request)
                      (alignment (mb_properties (blk_memory (block s)))) in
  let actual_size :=
    aligned_size (mr_offset (memory n)) (rq_size request) actual_alignment in
  status_available n
  && is_compatible_block_region n (rq_properties request)
  && (rq_size request <=? mr_size (memory n))
  && (actual_size <=? mr_size (memory n))
  && (wrap64 (actual_size + blk_reserved (block s)) <=? mb_size (blk_memory (block s))).

(** ** Shape of the region list

    [wfseg h pred p l q]: following [next_ptr] from [p] through the store [h]
    visits exactly the nodes [l] and ends at [q]; [pred] is the node before
    [p].  The [prev_ptr] of a node is null or its predecessor:
    [split_block_region] leaves the [prev_ptr] of the node it creates null. *)
Fixpoint wfseg (h : gmap addr BlockRegion) (pred p : option addr) (l : list addr)
    (q : option addr) : Prop :=
  match l with
  | [] => p = q
  | a :: l' =>
      p = Some a /\
      exists n, h !! a = Some n
                /\ (prev_ptr n = None \/ prev_ptr n = pred)
                /\ wfseg h (Some a) (next_ptr n) l' q
  end.

(** [well_formed s l]: the region list of the block is [l], it holds every
    live arena entry once, the arena has not handed out an address beyond
    [arena_next], and every node points back to the block. *)
Record well_formed (s : RegionAllocator) (l : list addr) : Prop := {
  wf_chain : wfseg (nodes s) None (blk_regions (block s)) l None;
  wf_nodup : NoDup l;
  wf_dom : forall a, a ∈ l <-> is_Some (nodes s !! a);
  wf_fresh : forall a, a ∈ l -> (a < arena_next s)%nat;
  wf_owner : forall a n, nodes s !! a = Some n -> block_ptr n = block_addr s
}.

(** ** Fixtures

    The region callbacks of [test/runtime/block_allocator.cpp]:
    [allocate_region] sets the handle to [(void * )1], [deallocate_region]
    sets it to null, both return [halide_error_code_success]. *)
Definition test_allocators : MemoryRegionAllocatorFns :=
  {| allocate := fun _ => (0, 1); deallocate := fun _ => (0, 0) |}.

(** A region-allocate callback that fails: it returns an error code and
    leaves the handle as it was. *)
Definition failing_allocators : MemoryRegionAllocatorFns :=
  {| allocate := fun m => (-1, mr_handle m); deallocate := fun _ => (0, 0) |}.

Definition default_properties (al : Z) : MemoryProperties :=
  {| visibility := DefaultVisibility; caching := DefaultCaching;
     usage := DefaultUsage; alignment := al |}.

(** A block of 1024 bytes whose required alignment is [al]. *)
Definition test_block (al : Z) : BlockResource :=
  {| blk_memory := {| mb_handle := 1; mb_size := 1024;
                      mb_properties := default_properties al;
                      mb_dedicated := false |};
     blk_reserved := 0; blk_regions := None |}.

Definition test_request (sz al : Z) : MemoryRequest :=
  {| rq_size := sz; rq_alignment := al; rq_properties := default_properties 0;
     rq_dedicated := false |}.

(** A request for a caching that the test block, whose properties are all
    default, does not have. *)
Definition cached_request (sz al : Z) : MemoryRequest :=
  {| rq_size := sz; rq_alignment := al;
     rq_properties := {| visibility := DefaultVisibility; caching := Caching 1%nat;
                         usage := DefaultUsage; alignment := 0 |};
     rq_dedicated := false |}.

(** The allocator of the test after the given calls. *)
Definition after (ma : MemoryRegionAllocatorFns) (al : Z) (cs : list Call)
    : option RegionAllocator :=
  match create 0 (test_block al) ma with
  | Some s => calls cs s
  | None => None
  end.

Definition node_of (s : option RegionAllocator) (a : addr) : option BlockRegion :=
  match s with
  | Some s => nodes s !! a
  | None => None
  end.

(** ** Effect of the private methods on a node *)

(** [free_block_region] calls the deallocate callback when the node is unused
    and holds a handle. *)
Definition needs_free (n : BlockRegion) : bool :=
  (usage_count n =? 0) && negb (mr_handle (memory n) =? 0).

Definition dealloc_events (ma : MemoryRegionAllocatorFns) (a : addr) (n : BlockRegion)
    : list Event :=
  if needs_free n
  then [EvDeallocate a (memory n) (fst (deallocate ma (memory n)))]
  else [].

(** The node after [free_block_region]. *)
Definition freed (n : BlockRegion) : BlockRegion :=
  set_status Available
    (set_usage_count 0
       (if needs_free n
        then set_memory (set_handle 0 (set_offset 0 (set_size 0 (memory n)))) n
        else n)).

(** The node after the handle has been given back in [coalesce_block_regions]
    and [split_block_region]. *)
Definition unhandled (n : BlockRegion) : BlockRegion :=
  if needs_free n then set_memory (set_handle 0 (memory n)) n else n.

Definition live (h : gmap addr BlockRegion) (p : option addr) : Prop :=
  forall a, p = Some a -> is_Some (h !! a).

(** The node after the decrement of [release] and [reclaim]. *)
Definition decremented (n : BlockRegion) : BlockRegion :=
  if 0 <? usage_count n then set_usage_count (wrap32 (usage_count n - 1)) n else n.

(** The node and the reserved bytes after [release_block_region]. *)
Definition released (n : BlockRegion) : BlockRegion :=
  if 0 <? usage_count n then n else set_status Available n.

Definition release_reserved (r : Z) (n : BlockRegion) : Z :=
  if 0 <? usage_count n then r
  else if bool_decide (status n = Available) then r
  else wrap64 (r - mr_size (memory n)).

(** The node and the events of [alloc_block_region]. *)
Definition allocated (ma : MemoryRegionAllocatorFns) (n : BlockRegion) : BlockRegion :=
  let n1 :=
    if mr_handle (memory n) =? 0
    then set_memory (set_is_owner true
                       (set_handle (snd (allocate ma (memory n))) (memory n))) n
    else n in
  set_status (if mr_dedicated (memory n1) then Dedicated else InUse) n1.

Definition alloc_events (ma : MemoryRegionAllocatorFns) (a : addr) (n : BlockRegion)
    : list Event :=
  if mr_handle (memory n) =? 0
  then [EvAllocate a (memory n) (fst (allocate ma (memory n)))]
  else [].

(** The state after [release_block_region a] on a node [n]. *)
Definition after_release_block_region (a : addr) (n : BlockRegion)
    (s : RegionAllocator) : RegionAllocator :=
  with_nodes (<[a := released n]> (nodes s))
    (with_block (set_reserved (release_reserved (blk_reserved (block s)) n) (block s)) s).

(** The state after [free_block_region a] on a node [n]. *)
Definition after_free_block_region (a : addr) (n : BlockRegion)
    (s : RegionAllocator) : RegionAllocator :=
  with_history (history s ++ dealloc_events (allocators s) a n)
    (with_nodes (<[a := freed n]> (nodes s)) s).

(** The last step of [reclaim]. *)
Definition coalesce_if_possible (a : addr) : M unit :=
  cc <- can_coalesce a ;;
  if cc then coalesce_block_regions a ;;; ret tt else ret tt.

(** *** The two merges of [coalesce_block_regions]

    The body of [coalesce_block_regions] gives back the handle, merges the
    node into its predecessor when that one is available ([merge_prev]), and
    then merges the successor into the node that remains ([merge_next]). *)
Definition give_back_handle (a : addr) : M unit :=
  n <- load a ;;
  if (usage_count n =? 0) && negb (mr_handle (memory n) =? 0) then
    call_deallocate a ;;;
    update a (fun n => set_memory (set_handle 0 (memory n)) n)
  else ret tt.

Definition merge_prev (a : addr) : M addr :=
  prev <- rd a prev_ptr ;;
  avp <- is_available prev ;;
  if avp then
    match prev with
    | None => abort
    | Some p =>
        next <- rd a next_ptr ;;
        update p (set_next_ptr next) ;;;
        next <- rd a next_ptr ;;
        match next with
        | Some x => update x (set_prev_ptr (Some p))
        | None => ret tt
        end ;;;
        sz <- rd a (fun n => mr_size (memory n)) ;;
        update p (fun n =>
          set_memory (set_size (wrap64 (mr_size (memory n) + sz)) (memory n)) n) ;;;
        destroy_block_region a ;;;
        ret p
    end
  else ret a.

Definition merge_next (a1 : addr) : M addr :=
  next <- rd a1 next_ptr ;;
  avn <- is_available next ;;
  (if avn then
     match next with
     | None => abort
     | Some x =>
         next2 <- rd x next_ptr ;;
         match next2 with
         | Some y => update y (set_prev_ptr (Some a1))
         | None => ret tt
         end ;;;
         next2 <- rd x next_ptr ;;
         update a1 (set_next_ptr next2) ;;;
         sz <- rd x (fun n => mr_size (memory n)) ;;
         update a1 (fun n =>
           set_memory (set_size (wrap64 (mr_size (memory n) + sz)) (memory n)) n) ;;;
         destroy_block_region x
     end
   else ret tt) ;;;
  ret a1.

(** The store after node [p] has taken over its successor [x]: the node after
    [x] points back to [p], [p] has the size of both and the successor of [x],
    and [x] is gone. *)
Definition relink (h : gmap addr BlockRegion) (y : option addr) (p : addr)
    : gmap addr BlockRegion :=
  match y with
  | Some y => match h !! y with
              | Some ny => <[y := set_prev_ptr (Some p) ny]> h
              | None => h
              end
  | None => h
  end.

Definition grown (np nx : BlockRegion) : BlockRegion :=
  set_memory (set_size (wrap64 (mr_size (memory np) + mr_size (memory nx))) (memory np))
    (set_next_ptr (next_ptr nx) np).

Definition absorb (h : gmap addr BlockRegion) (p x : addr) (np nx : BlockRegion)
    : gmap addr BlockRegion :=
  delete x (<[p := grown np nx]> (relink h (next_ptr nx) p)).

Definition destroy_events (ma : MemoryRegionAllocatorFns) (x : addr) (nx : BlockRegion)
    : list Event :=
  dealloc_events ma x (set_usage_count 0 nx) ++ [EvArenaReclaim x].

(** The node before the end of a segment [l] that starts after [pred]. *)
Definition last_or (pred : option addr) (l : list addr) : option addr :=
  match last l with
  | Some d => Some d
  | None => pred
  end.

(** What a merge leaves alone in a node: its status, usage count, owner and
    offset; its handle is the same or has been given back. *)
Definition kept (nb nb' : BlockRegion) : Prop :=
  status nb' = status nb
  /\ usage_count nb' = usage_count nb
  /\ block_ptr nb' = block_ptr nb
  /\ mr_offset (memory nb') = mr_offset (memory nb)
  /\ (mr_handle (memory nb') = mr_handle (memory nb) \/ mr_handle (memory nb') = 0).

(** The nodes that are still there were there before, and are [kept]. *)
Definition keeps (h h' : gmap addr BlockRegion) : Prop :=
  forall b nb', h' !! b = Some nb' ->
    exists nb, h !! b = Some nb /\ kept nb nb'.

(** No two neighbours of the list of addresses [l] both pass [is_available]. *)
Definition no_adjacent_nodes (h : gmap addr BlockRegion) (l : list addr) : Prop :=
  forall l1 x y l2, l = l1 ++ x :: y :: l2 ->
    node_available h (Some x) && node_available h (Some y) = false.

(** The invariant of the loop of [collect]: the nodes [done] have been
    visited, [rest] starts at the current node.  Among the visited nodes no
    two neighbours are available, and an available current node that follows
    an available visited node points back to it. *)
Definition collect_inv (s : RegionAllocator) (done rest : list addr) : Prop :=
  well_formed s (done ++ rest)
  /\ no_adjacent_nodes (nodes s) done
  /\ forall d c nc, last done = Some d -> head rest = Some c ->
       nodes s !! c = Some nc ->
       node_available (nodes s) (Some d) = true -> available nc = true ->
       prev_ptr nc = Some d.

(** *** The nodes of [split_block_region] *)

(** The empty region created behind a region [n] that is cut down to [size]. *)
Definition empty_region (s : RegionAllocator) (n : BlockRegion) (size requested : Z)
    : BlockRegion :=
  let conformed :=
    conform_alignment requested (alignment (mb_properties (blk_memory (block s)))) in
  {| memory :=
       {| mr_handle := 0;
          mr_offset := aligned_offset (wrap64 (mr_offset (memory n) + size)) conformed;
          mr_size := wrap64 (mr_size (memory n)
                             - aligned_size (mr_offset (memory n)) size conformed);
          mr_properties := mr_properties (memory n);
          mr_dedicated := mr_dedicated (memory n);
          mr_is_owner := false |};
     status := Available; usage_count := 0; block_ptr := block_addr s;
     prev_ptr := None; next_ptr := next_ptr n |}.

(** The region [n] cut down to [size], followed by the node [e]. *)
Definition shrunk (n : BlockRegion) (size : Z) (e : addr) : BlockRegion :=
  set_memory (set_size size (memory (unhandled n))) (set_next_ptr (Some e) (unhandled n)).

(** The state after [split_block_region a size requested] on a node [n]. *)
Definition after_split (a : addr) (n : BlockRegion) (size requested : Z)
    (s : RegionAllocator) : RegionAllocator :=
  let e := arena_next s in
  with_arena_next (S e)
    (with_history (history s ++ dealloc_events (allocators s) a n)
       (with_nodes
          (<[a := shrunk n size e]>
             (relink (<[e := empty_region s n size requested]> (nodes s)) (next_ptr n) e))
          s)).

(** *** The state after [reserve] *)

(** The test of [can_split] in [reserve]. *)
Definition splits (n : BlockRegion) (request : MemoryRequest) : bool :=
  (rq_size request <? mr_size (memory n)) && (usage_count n =? 0).

(** The selected node when [alloc_block_region] is called on it. *)
Definition placed (s : RegionAllocator) (n : BlockRegion) (request : MemoryRequest)
    : BlockRegion :=
  if splits n request then shrunk n (rq_size request) (arena_next s) else n.

(** The state after [reserve] has selected the node [n] at [a]. *)
Definition after_reserve (a : addr) (n : BlockRegion) (request : MemoryRequest)
    (s : RegionAllocator) : RegionAllocator :=
  let s1 :=
    if splits n request
    then after_split a n (rq_size request) (rq_alignment request) s
    else s in
  let n1 := placed s n request in
  with_nodes (<[a := set_usage_count 1 (allocated (allocators s) n1)]> (nodes s1))
    (with_block
       (set_reserved (wrap64 (blk_reserved (block s) + mr_size (memory n1))) (block s))
       (with_history (history s1 ++ alloc_events (allocators s) a n1) s1)).

(** *** The release of all regions *)

(** [block->reserved] after [release_block_region] has been called on the
    nodes [l] in turn. *)
Fixpoint reserved_after_release (h : gmap addr BlockRegion) (r : Z) (l : list addr) : Z :=
  match l with
  | [] => r
  | a :: l' =>
      match h !! a with
      | Some n => reserved_after_release h (release_reserved r n) l'
      | None => r
      end
  end.

(** The same over the region list. *)
Fixpoint reserved_after_release_all (r : Z) (l : list (addr * BlockRegion)) : Z :=
  match l with
  | [] => r
  | (_, n) :: l' => reserved_after_release_all (release_reserved r n) l'
  end.

(** The region [initialize] creates: the whole block, available. *)
Definition initial_region (baddr : Z) (b : BlockResource) : BlockRegion :=
  {| memory := {| mr_handle := 0; mr_offset := 0; mr_size := mb_size (blk_memory b);
                  mr_properties := mb_properties (blk_memory b);
                  mr_dedicated := mb_dedicated (blk_memory b);
                  mr_is_owner := false |};
     status := Available; usage_count := 0; block_ptr := baddr;
     prev_ptr := None; next_ptr := None |}.

(** [reclaim] up to and including its call of [free_block_region]. *)
Definition reclaim_until_free (a : addr) : M unit :=
  check_block_ptr a ;;;
  decrement_usage a ;;;
  release_block_region a ;;;
  free_block_region a.

(** ** Retain and release of one region *)

(** A sequence of [retain] ([true]) and [release] ([false]) calls on the
    region at [a]. *)
Definition retain_release_calls (a : addr) (ops : list bool) : list Call :=
  map (fun op : bool => if op then CallRetain a else CallRelease a) ops.

(** The net usage count after the calls, starting from [c]. *)
Fixpoint count_after (c : Z) (ops : list bool) : Z :=
  match ops with
  | [] => c
  | op :: ops' => count_after (if op then c + 1 else c - 1) ops'
  end.

(** The region is still held when each call is made (the count is positive
    then), and the count stays within [uint32_t]. *)
Fixpoint held_throughout (c : Z) (ops : list bool) : Prop :=
  match ops with
  | [] => True
  | op :: ops' =>
      0 < c /\ (if op then c + 1 else c - 1) < 2 ^ 32
      /\ held_throughout (if op then c + 1 else c - 1) ops'
  end.

(** ** The postconditions of [reserve] as the specification states them *)
Definition reserve_postconditions (s : RegionAllocator) (request : MemoryRequest)
    (n' : BlockRegion) : Prop :=
  mr_offset (memory n')
    mod conform_alignment (rq_alignment request)
          (alignment (mb_properties (blk_memory (block s)))) = 0
  /\ rq_size request <= mr_size (memory n')
  /\ compatible (mr_properties (memory n')) (rq_properties request).

(** The alignment [find_block_region] and [split_block_region] conform a
    request to on the block [b]. *)
Definition conformed (b : BlockResource) (request : MemoryRequest) : Z :=
  conform_alignment (rq_alignment request) (alignment (mb_properties (blk_memory b))).

(** A call that is no [reserve], or a [reserve] whose conformed alignment is
    a multiple of [c]; a conformed alignment of [0] is [2 ^ 64] after the
    wrap-around. *)
Definition reserves_conform_to (c : Z) (b : BlockResource) (cl : Call) : Prop :=
  match cl with
  | CallReserve q => conformed b q <> 0 /\ (c | conformed b q)
  | _ => True
  end.

(** A call that is no [reserve], or a [reserve] whose alignment is at most
    the largest power of two of [size_t]. *)
Definition alignment_in_range (cl : Call) : Prop :=
  match cl with
  | CallReserve q => rq_alignment q <= 2 ^ 63
  | _ => True
  end.

(** The offset of every node is a multiple of [c]. *)
Definition aligned_regions (c : Z) (s : RegionAllocator) : Prop :=
  forall a n, nodes s !! a = Some n -> (c | mr_offset (memory n)).

(** The allocator [create] returns for the test block. *)
Definition test_allocator (ma : MemoryRegionAllocatorFns) (al : Z) : RegionAllocator :=
  {| block_addr := 0; block := set_regions (Some 0%nat) (test_block al);
     nodes := <[0%nat := initial_region 0 (test_block al)]> ∅;
     arena_next := 1%nat; allocators := ma; history := [] |}.

(** ** The remaining methods of [RegionAllocator] *)

(** [RegionAllocator::destroy(void *user_context)].  The loop destroys the
    nodes from [block->regions] on; it reads [next_ptr] before the node goes
    back to the arena.  [block->allocator] and the member [arena] are not part
    of the state.  Modelled from the spec: [MemoryArena::destroy] releases
    every entry of the arena, so no entry is live afterwards. *)
Fixpoint destroy_loop (fuel : nat) (p : option addr) : M unit :=
  match p with
  | None => ret tt
  | Some a =>
      match fuel with
      | O => abort
      | S fuel =>
          next <- rd a next_ptr ;;
          match next with
          | None =>
              destroy_block_region a ;;;
              destroy_loop fuel None
          | Some x =>
              destroy_block_region a ;;;
              destroy_loop fuel (Some x)
          end
      end
  end.

Definition arena_destroy : M unit :=
  fun s => Some (tt, with_nodes ∅ s).

Definition destroy : M unit :=
  b <- get_block ;;
  fuel <- walk_fuel ;;
  destroy_loop fuel (blk_regions b) ;;;
  b <- get_block ;;
  put_block (set_reserved 0 b) ;;;
  b <- get_block ;;
  put_block (set_regions None b) ;;;
  arena_destroy.

(** ** Further observations *)

(** The links of a list of nodes: the [next_ptr] of a node is the node after
    it, null at the end, and its [prev_ptr] is null or the node before it. *)
Fixpoint linked (pred : option addr) (l : list (addr * BlockRegion)) : Prop :=
  match l with
  | [] => True
  | (a, n) :: l' =>
      (prev_ptr n = None \/ prev_ptr n = pred)
      /\ next_ptr n = head (l'.*1)
      /\ linked (Some a) l'
  end.

(** The region a call is made on. *)
Definition target (c : Call) : option addr :=
  match c with
  | CallRelease a | CallReclaim a | CallRetain a => Some a
  | CallReserve _ | CallCollect | CallReleaseAll => None
  end.

(** What the callbacks have been asked to do so far. *)
Fixpoint count_allocate (evs : list Event) : Z :=
  match evs with
  | [] => 0
  | EvAllocate _ _ _ :: evs' => 1 + count_allocate evs'
  | _ :: evs' => count_allocate evs'
  end.

Fixpoint count_deallocate (evs : list Event) : Z :=
  match evs with
  | [] => 0
  | EvDeallocate _ _ _ :: evs' => 1 + count_deallocate evs'
  | _ :: evs' => count_deallocate evs'
  end.

(** The allocate callback is only given a region without a handle, the
    deallocate callback only a region with one. *)
Definition proper_event (e : Event) : Prop :=
  match e with
  | EvAllocate _ m _ => mr_handle m = 0
  | EvDeallocate _ m _ => mr_handle m <> 0
  | EvArenaReclaim _ => True
  end.

(** A sum over the live nodes. *)
Definition total (w : BlockRegion -> Z) (h : gmap addr BlockRegion) : Z :=
  map_fold (fun _ n acc => w n + acc) 0 h.

(** The bytes a node accounts for in [block->reserved]: its size unless it
    is [Available]. *)
Definition reserved_bytes (n : BlockRegion) : Z :=
  if bool_decide (status n = Available) then 0 else mr_size (memory n).

(** [1] for a node that holds a handle. *)
Definition holds_handle (n : BlockRegion) : Z :=
  if mr_handle (memory n) =? 0 then 0 else 1.

(** A block as a block allocator hands it to [create]: nothing reserved yet,
    and a size that is a [size_t]. *)
Definition fresh_block (b : BlockResource) : Prop :=
  blk_reserved b = 0 /\ 0 <= mb_size (blk_memory b) < 2 ^ 64.

(** The ranges of the counters of a state. *)
Record in_range (s : RegionAllocator) : Prop := {
  rg_size : 0 <= mb_size (blk_memory (block s)) < 2 ^ 64;
  rg_reserved :
    total reserved_bytes (nodes s) <= blk_reserved (block s)
    /\ blk_reserved (block s) <= mb_size (blk_memory (block s));
  rg_nodes : forall a n, nodes s !! a = Some n ->
    0 <= mr_size (memory n) /\ 0 <= usage_count n < 2 ^ 32
}.

(** What a merge, or the return of a handle before it, leaves of a node that
    is still there: everything but the links, the size and the handle; the
    size and the handle only change in an available node, the size stays a
    [size_t] and the handle is the same or null. *)
Definition settled (nb nb' : BlockRegion) : Prop :=
  status nb' = status nb
  /\ usage_count nb' = usage_count nb
  /\ block_ptr nb' = block_ptr nb
  /\ mr_offset (memory nb') = mr_offset (memory nb)
  /\ mr_properties (memory nb') = mr_properties (memory nb)
  /\ mr_dedicated (memory nb') = mr_dedicated (memory nb)
  /\ (available nb = false -> memory nb' = memory nb)
  /\ (0 <= mr_size (memory nb) -> 0 <= mr_size (memory nb'))
  /\ (mr_handle (memory nb') = mr_handle (memory nb) \/ mr_handle (memory nb') = 0).

(** The effect of merges on a state: the block is as it was, the nodes that
    are left are [settled], no node that is not available has gone, and the
    events are those of handles given back and nodes returned: one
    deallocate for each handle that is no longer held. *)
Record merged (s s' : RegionAllocator) : Prop := {
  mg_block : block s' = block s;
  mg_allocators : allocators s' = allocators s;
  mg_block_addr : block_addr s' = block_addr s;
  mg_nodes : forall b nb', nodes s' !! b = Some nb' ->
    exists nb, nodes s !! b = Some nb /\ settled nb nb';
  mg_held : forall b nb, nodes s !! b = Some nb -> available nb = false ->
    is_Some (nodes s' !! b);
  mg_history : exists evs,
    history s' = history s ++ evs
    /\ Forall proper_event evs
    /\ count_allocate evs = 0
    /\ count_deallocate evs
       = total holds_handle (nodes s) - total holds_handle (nodes s')
}.

(** ** The effect of a call *)

(** The states after [release], [retain] and the first part of [reclaim] on
    a node [n] at [a]. *)
Definition after_release (a : addr) (n : BlockRegion) (s : RegionAllocator)
    : RegionAllocator :=
  with_nodes (<[a := released (decremented n)]> (nodes s))
    (with_block
       (set_reserved (release_reserved (blk_reserved (block s)) (decremented n)) (block s))
       s).

Definition after_retain (a : addr) (n : BlockRegion) (s : RegionAllocator)
    : RegionAllocator :=
  with_nodes (<[a := set_usage_count (wrap32 (usage_count n + 1)) n]> (nodes s)) s.

Definition after_reclaim_until_free (a : addr) (n : BlockRegion) (s : RegionAllocator)
    : RegionAllocator :=
  with_history (history s ++ dealloc_events (allocators s) a (released (decremented n)))
    (with_nodes (<[a := freed (released (decremented n))]> (nodes s))
       (with_block
          (set_reserved (release_reserved (blk_reserved (block s)) (decremented n))
             (block s))
          s)).

(** What a returning call of the public interface does to a state. *)
Inductive effect (s : RegionAllocator) : Call -> RegionAllocator -> Prop :=
| effect_reserve_null request :
    0 < rq_size request ->
    effect s (CallReserve request) s
| effect_reserve request a n :
    0 < rq_size request ->
    (wrap64 (mb_size (blk_memory (block s)) - blk_reserved (block s))
     <? rq_size request) = false ->
    nodes s !! a = Some n ->
    fits s request n = true ->
    effect s (CallReserve request) (after_reserve a n request s)
| effect_release a n :
    nodes s !! a = Some n ->
    effect s (CallRelease a) (after_release a n s)
| effect_retain a n :
    nodes s !! a = Some n ->
    effect s (CallRetain a) (after_retain a n s)
| effect_reclaim a n s' :
    nodes s !! a = Some n ->
    merged (after_reclaim_until_free a n s) s' ->
    effect s (CallReclaim a) s'
| effect_collect s' :
    merged s s' ->
    effect s CallCollect s'
| effect_release_all s' :
    (forall b, nodes s' !! b = released <$> nodes s !! b) ->
    blk_reserved (block s')
    = reserved_after_release_all (blk_reserved (block s)) (region_list s) ->
    history s' = history s ->
    allocators s' = allocators s ->
    block_addr s' = block_addr s ->
    blk_memory (block s') = blk_memory (block s) ->
    blk_regions (block s') = blk_regions (block s) ->
    effect s CallReleaseAll s'.

(** A sum along the region list. *)
Definition list_total (w : BlockRegion -> Z) (l : list (addr * BlockRegion)) : Z :=
  foldr (fun an acc => w an.2 + acc) 0 l.

(** The allocate callbacks that have not been matched by a deallocate, beyond
    the handles the nodes hold. *)
Definition slack (s : RegionAllocator) : Z :=
  count_allocate (history s) - count_deallocate (history s)
  - total holds_handle (nodes s).

(** A region-allocate callback that always attaches a handle. *)
Definition attaches (ma : MemoryRegionAllocatorFns) : Prop :=
  forall m, snd (allocate ma m) <> 0.

(** Every node has the memory properties and the dedicated flag of the
    block, and a status [reserve] or a release gives. *)
Definition uniform (s : RegionAllocator) : Prop :=
  forall a n, nodes s !! a = Some n ->
    mr_properties (memory n) = mb_properties (blk_memory (block s))
    /\ mr_dedicated (memory n) = mb_dedicated (blk_memory (block s))
    /\ (status n = Available
        \/ status n = if mb_dedicated (blk_memory (block s)) then Dedicated else InUse).

(** The states of an allocator that was created on the block [b]. *)
Definition reached (b : BlockResource) (s : RegionAllocator) : Prop :=
  exists baddr ma s0 cs, create baddr b ma = Some s0 /\ calls cs s0 = Some s.

(** The events of [destroy_block_region] on a node: the deallocate callback
    if the node holds a handle, whatever its usage count, and the return of
    the node to the arena. *)
Definition teardown_events (ma : MemoryRegionAllocatorFns) (an : addr * BlockRegion)
    : list Event :=
  (if mr_handle (memory an.2) =? 0 then []
   else [EvDeallocate an.1 (memory an.2) (fst (deallocate ma (memory an.2)))])
  ++ [EvArenaReclaim an.1].

(** What every call keeps: the head of the list is the node [initialize]
    created, the nodes are [uniform], and the callbacks are accounted for. *)
Record sound (s : RegionAllocator) : Prop := {
  sd_head : blk_regions (block s) = Some 0%nat;
  sd_uniform : uniform s;
  sd_proper : Forall proper_event (history s);
  sd_slack : 0 <= slack s;
  sd_attached : attaches (allocators s) -> slack s = 0
}.

(** ** The placement of the regions *)

(** The regions lie in [[o, total)] in list order and do not overlap: each
    starts at or behind the end of the one before it, and the last one ends
    within [total]. *)
Fixpoint ordered (o : Z) (l : list (addr * BlockRegion)) (total : Z) : Prop :=
  match l with
  | [] => o <= total
  | (_, n) :: l' =>
      o <= mr_offset (memory n) /\ 0 <= mr_size (memory n)
      /\ ordered (mr_offset (memory n) + mr_size (memory n)) l' total
  end.

(** The same along a list of addresses of the store. *)
Fixpoint ordered_seg (h : gmap addr BlockRegion) (o : Z) (l : list addr) (total : Z)
    : Prop :=
  match l with
  | [] => o <= total
  | a :: l' =>
      exists n, h !! a = Some n
                /\ o <= mr_offset (memory n) /\ 0 <= mr_size (memory n)
                /\ ordered_seg h (mr_offset (memory n) + mr_size (memory n)) l' total
  end.

Definition is_reclaim (c : Call) : bool :=
  match c with
  | CallReclaim _ => true
  | _ => false
  end.

(** * Properties *)

(** ** Running the monad *)

Lemma bind_eq {A B} (m : M A) (f : A -> M B) s a s' :
  m s = Some (a, s') -> bind m f s = f a s'.
Proof. intros H. unfold bind. by rewrite H. Qed.

Lemma bind_inv {A B} (m : M A) (f : A -> M B) s b s'' :
  bind m f s = Some (b, s'') ->
  exists a s', m s = Some (a, s') /\ f a s' = Some (b, s'').
Proof.
  unfold bind. destruct (m s) as [[a s']|] eqn:E; [|done].
  intros H. by exists a, s'.
Qed.

Lemma bind_assoc {A B C} (m : M A) (f : A -> M B) (g : B -> M C) s :
  bind (bind m f) g s = bind m (fun a => bind (f a) g) s.
Proof. unfold bind. destruct (m s) as [[a s']|]; done. Qed.

Lemma load_eq s a n : nodes s !! a = Some n -> load a s = Some (n, s).
Proof. intros H. unfold load. by rewrite H. Qed.

Lemma load_inv s a n s' :
  load a s = Some (n, s') -> nodes s !! a = Some n /\ s' = s.
Proof.
  unfold load. destruct (nodes s !! a) eqn:E; [|done].
  intros [= -> ->]. done.
Qed.

Lemma rd_eq {A} s a n (field : BlockRegion -> A) :
  nodes s !! a = Some n -> rd a field s = Some (field n, s).
Proof. intros H. unfold rd. by rewrite (bind_eq _ _ _ _ _ (load_eq _ _ _ H)). Qed.

Lemma update_eq s a f n :
  nodes s !! a = Some n ->
  update a f s = Some (tt, with_nodes (<[a := f n]> (nodes s)) s).
Proof. intros H. unfold update. by rewrite (bind_eq _ _ _ _ _ (load_eq _ _ _ H)). Qed.

Lemma is_available_eq s p n :
  (forall a, p = Some a -> nodes s !! a = Some n) ->
  is_available p s = Some (node_available (nodes s) p, s).
Proof.
  intros H. destruct p as [a|]; [|done].
  cbn. rewrite (bind_eq _ _ _ _ _ (load_eq _ _ _ (H a eq_refl))).
  rewrite (H a eq_refl). unfold available.
  destruct (0 <? usage_count n); [done|].
  destruct (bool_decide (status n = Available)); done.
Qed.

Ltac solve_lookup :=
  cbn;
  repeat first
    [ rewrite lookup_insert_eq
    | rewrite lookup_insert_ne by (done || congruence || lia)
    | rewrite lookup_delete_ne by (done || congruence || lia) ];
  first [ eassumption | reflexivity ].

(** One statement of a method body: rewrite the head of a [bind] with the
    equation of a primitive. *)
Ltac mstep :=
  first
    [ rewrite bind_assoc
    | erewrite (bind_eq (load _)) by (apply load_eq; solve_lookup)
    | erewrite (bind_eq (rd _ _)) by (apply rd_eq; solve_lookup)
    | erewrite (bind_eq (update _ _)) by (apply update_eq; solve_lookup)
    | erewrite (bind_eq get_block) by reflexivity
    | erewrite (bind_eq get_allocators) by reflexivity
    | erewrite (bind_eq get_block_addr) by reflexivity
    | erewrite (bind_eq walk_fuel) by reflexivity
    | erewrite (bind_eq (put_block _)) by reflexivity
    | erewrite (bind_eq (emit _)) by reflexivity
    | erewrite (bind_eq (store _ _)) by reflexivity
    | erewrite (bind_eq (ret _)) by reflexivity
    | erewrite (bind_eq (arena_reclaim _)) by reflexivity
    | erewrite (bind_eq arena_reserve) by reflexivity
    | erewrite update_eq by solve_lookup
    | erewrite rd_eq by solve_lookup
    | erewrite load_eq by solve_lookup ];
  unfold with_nodes, with_block, with_history, with_arena_next;
  cbn [nodes block history allocators arena_next block_addr].

Lemma is_available_live s p :
  live (nodes s) p ->
  is_available p s = Some (node_available (nodes s) p, s).
Proof.
  intros H. destruct p as [a|]; [|done].
  destruct (H a eq_refl) as [n Hn].
  by apply is_available_eq with (n := n); intros ? [= <-].
Qed.

Lemma call_deallocate_eq s a n :
  nodes s !! a = Some n ->
  call_deallocate a s =
    Some (tt, with_history
                (history s ++ [EvDeallocate a (memory n) (fst (deallocate (allocators s) (memory n)))])
                (with_nodes (<[a := set_memory (set_handle (snd (deallocate (allocators s) (memory n))) (memory n)) n]> (nodes s)) s)).
Proof.
  intros H. unfold call_deallocate. repeat mstep. reflexivity.
Qed.

Lemma free_block_region_eq s a n :
  nodes s !! a = Some n ->
  free_block_region a s =
    Some (tt, with_history (history s ++ dealloc_events (allocators s) a n)
                (with_nodes (<[a := freed n]> (nodes s)) s)).
Proof.
  intros H. unfold free_block_region, dealloc_events, freed.
  mstep. destruct (needs_free n) eqn:E; unfold needs_free in E; rewrite E.
  - erewrite (bind_eq (bind _ _)); cycle 1.
    { erewrite (bind_eq (call_deallocate _)) by (by apply call_deallocate_eq).
      repeat mstep. reflexivity. }
    repeat mstep. cbn. rewrite !insert_insert_eq. reflexivity.
  - repeat mstep. rewrite !insert_insert_eq, app_nil_r. cbn.
    destruct s; reflexivity.
Qed.

Lemma with_nodes_id s : with_nodes (nodes s) s = s.
Proof. by destruct s. Qed.

Lemma with_block_id s : with_block (block s) s = s.
Proof. by destruct s. Qed.

Lemma set_reserved_id b : set_reserved (blk_reserved b) b = b.
Proof. by destruct b. Qed.

Lemma release_block_region_eq s a n :
  nodes s !! a = Some n ->
  release_block_region a s = Some (tt, after_release_block_region a n s).
Proof.
  intros H. unfold release_block_region, after_release_block_region, released,
    release_reserved.
  mstep. destruct (0 <? usage_count n).
  - rewrite set_reserved_id, insert_id by done. by destruct s.
  - destruct (bool_decide (status n = Available)); cbn [negb]; repeat mstep.
    + rewrite set_reserved_id. done.
    + done.
Qed.

Lemma decrement_usage_eq s a n :
  nodes s !! a = Some n ->
  decrement_usage a s = Some (tt, with_nodes (<[a := decremented n]> (nodes s)) s).
Proof.
  intros H. unfold decrement_usage, decremented. mstep.
  destruct (0 <? usage_count n).
  - by mstep.
  - rewrite insert_id by done. by destruct s.
Qed.

Lemma check_block_ptr_eq s a n :
  nodes s !! a = Some n -> block_ptr n = block_addr s ->
  check_block_ptr a s = Some (tt, s).
Proof.
  intros H E. unfold check_block_ptr. repeat mstep. rewrite E, Z.eqb_refl. done.
Qed.

Lemma check_block_ptr_inv s a u s' :
  check_block_ptr a s = Some (u, s') ->
  s' = s /\ exists n, nodes s !! a = Some n /\ block_ptr n = block_addr s.
Proof.
  unfold check_block_ptr. intros H.
  apply bind_inv in H as (bp & s1 & H1 & H).
  unfold rd in H1. apply bind_inv in H1 as (n & s2 & H1 & H2).
  apply load_inv in H1 as [Hn ->]. injection H2 as <- <-.
  cbn in H. unfold bind in H. cbn in H.
  destruct (block_ptr n =? block_addr s) eqn:E; [|done].
  injection H as <-. split; [done|]. exists n. split; [done|]. lia.
Qed.

Lemma retain_eq s a n :
  nodes s !! a = Some n -> block_ptr n = block_addr s ->
  retain a s =
    Some (tt, with_nodes (<[a := set_usage_count (wrap32 (usage_count n + 1)) n]> (nodes s)) s).
Proof.
  intros H E. unfold retain.
  rewrite (bind_eq _ _ _ _ _ (check_block_ptr_eq _ _ _ H E)). by mstep.
Qed.

Lemma release_eq s a n :
  nodes s !! a = Some n -> block_ptr n = block_addr s ->
  release a s =
    Some (tt, with_nodes (<[a := released (decremented n)]> (nodes s))
                (with_block (set_reserved (release_reserved (blk_reserved (block s)) (decremented n))
                               (block s)) s)).
Proof.
  intros H E. unfold release.
  rewrite (bind_eq _ _ _ _ _ (check_block_ptr_eq _ _ _ H E)).
  rewrite (bind_eq _ _ _ _ _ (decrement_usage_eq _ _ _ H)).
  erewrite release_block_region_eq by solve_lookup.
  unfold after_release_block_region. cbn. by rewrite insert_insert_eq.
Qed.

(** [reclaim] up to its coalescing step. *)
Lemma reclaim_eq s a n :
  nodes s !! a = Some n -> block_ptr n = block_addr s ->
  reclaim a s =
    coalesce_if_possible a
      (with_history (history s ++ dealloc_events (allocators s) a (released (decremented n)))
         (with_nodes (<[a := freed (released (decremented n))]> (nodes s))
            (with_block (set_reserved (release_reserved (blk_reserved (block s)) (decremented n))
                           (block s)) s))).
Proof.
  intros H E. unfold reclaim.
  rewrite (bind_eq _ _ _ _ _ (check_block_ptr_eq _ _ _ H E)).
  rewrite (bind_eq _ _ _ _ _ (decrement_usage_eq _ _ _ H)).
  erewrite (bind_eq (release_block_region _)) by (apply release_block_region_eq; solve_lookup).
  erewrite (bind_eq (free_block_region _)) by (apply free_block_region_eq; solve_lookup).
  unfold after_release_block_region. cbn. by rewrite !insert_insert_eq.
Qed.

Lemma alloc_block_region_eq s a n :
  nodes s !! a = Some n -> status n = Available ->
  alloc_block_region a s =
    Some (tt, with_block (set_reserved (wrap64 (blk_reserved (block s) + mr_size (memory n)))
                            (block s))
                (with_history (history s ++ alloc_events (allocators s) a n)
                   (with_nodes (<[a := allocated (allocators s) n]> (nodes s)) s))).
Proof.
  intros H E. unfold alloc_block_region, allocated, alloc_events.
  mstep. rewrite E. rewrite bool_decide_eq_true_2 by done. cbn [halide_abort_if_false].
  repeat mstep. destruct (mr_handle (memory n) =? 0).
  - unfold call_allocate. repeat mstep. cbn. rewrite !insert_insert_eq. done.
  - repeat mstep. cbn. rewrite ?insert_insert_eq, app_nil_r. by destruct s.
Qed.

Lemma destroy_block_region_eq s a n :
  nodes s !! a = Some n ->
  destroy_block_region a s =
    Some (tt, with_history (history s ++ destroy_events (allocators s) a n)
                (with_nodes (delete a (nodes s)) s)).
Proof.
  intros H. unfold destroy_block_region, destroy_events. mstep.
  erewrite (bind_eq (free_block_region _)) by (apply free_block_region_eq; solve_lookup).
  unfold arena_reclaim. cbn. rewrite !delete_insert_eq, <- app_assoc. reflexivity.
Qed.

Lemma coalesce_block_regions_parts a s :
  coalesce_block_regions a s
  = (give_back_handle a ;;; a1 <- merge_prev a ;; merge_next a1) s.
Proof.
  unfold coalesce_block_regions, give_back_handle, merge_prev, merge_next.
  unfold bind. destruct (load a s) as [[n s1]|]; [|done].
  destruct (_ && _); cbn; repeat (match goal with |- context [match ?x with _ => _ end] => destruct x; try done end).
Qed.

Lemma give_back_handle_eq s a n :
  nodes s !! a = Some n ->
  give_back_handle a s =
    Some (tt, with_history (history s ++ dealloc_events (allocators s) a n)
                (with_nodes (<[a := unhandled n]> (nodes s)) s)).
Proof.
  intros H. unfold give_back_handle, dealloc_events, unhandled, needs_free.
  mstep. destruct (_ && _).
  - erewrite (bind_eq (call_deallocate _)) by (by apply call_deallocate_eq).
    mstep. cbn. rewrite insert_insert_eq. reflexivity.
  - cbn. rewrite app_nil_r, insert_id by done. by destruct s.
Qed.

Lemma live_insert h p a n :
  live h p -> live (<[a := n]> h) p.
Proof.
  intros H b ->. destruct (decide (a = b)) as [->|Hne].
  - rewrite lookup_insert_eq. by eexists.
  - rewrite lookup_insert_ne by done. by apply H.
Qed.

Lemma merge_next_skip s a1 n1 :
  nodes s !! a1 = Some n1 ->
  live (nodes s) (next_ptr n1) ->
  node_available (nodes s) (next_ptr n1) = false ->
  merge_next a1 s = Some (a1, s).
Proof.
  intros H1 Hl Hav. unfold merge_next. repeat mstep.
  rewrite (bind_eq _ _ _ _ _ (is_available_live _ _ Hl)), Hav. reflexivity.
Qed.

Lemma merge_next_eq s a1 n1 x nx :
  nodes s !! a1 = Some n1 ->
  next_ptr n1 = Some x ->
  nodes s !! x = Some nx ->
  available nx = true ->
  x <> a1 ->
  live (nodes s) (next_ptr nx) ->
  next_ptr nx <> Some a1 ->
  next_ptr nx <> Some x ->
  merge_next a1 s =
    Some (a1, with_history (history s ++ destroy_events (allocators s) x nx)
                (with_nodes (absorb (nodes s) a1 x n1 nx) s)).
Proof.
  intros H1 Hx Hnx Hav Hne Hl Hy1 Hy2. unfold merge_next. repeat mstep.
  assert (Hlx : live (nodes s) (next_ptr n1)).
  { intros b Hb. rewrite Hx in Hb. injection Hb as <-. by eexists. }
  rewrite (bind_eq _ _ _ _ _ (is_available_live _ _ Hlx)).
  rewrite Hx. cbn [node_available]. rewrite Hnx, Hav.
  unfold absorb, relink. destruct (next_ptr nx) as [y|] eqn:Ey.
  - destruct (Hl y eq_refl) as [ny Hny]. rewrite Hny.
    assert (y <> a1) by congruence. assert (y <> x) by congruence.
    repeat mstep. rewrite Ey. repeat mstep.
    erewrite (bind_eq (destroy_block_region _)) by (apply destroy_block_region_eq; solve_lookup).
    cbn. rewrite insert_insert_eq. reflexivity.
  - repeat mstep. rewrite Ey. repeat mstep.
    erewrite (bind_eq (destroy_block_region _)) by (apply destroy_block_region_eq; solve_lookup).
    cbn. rewrite insert_insert_eq. reflexivity.
Qed.

Lemma merge_prev_skip s a n :
  nodes s !! a = Some n ->
  live (nodes s) (prev_ptr n) ->
  node_available (nodes s) (prev_ptr n) = false ->
  merge_prev a s = Some (a, s).
Proof.
  intros H1 Hl Hav. unfold merge_prev. mstep.
  rewrite (bind_eq _ _ _ _ _ (is_available_live _ _ Hl)), Hav. reflexivity.
Qed.

Lemma merge_prev_eq s a n p np :
  nodes s !! a = Some n ->
  prev_ptr n = Some p ->
  nodes s !! p = Some np ->
  available np = true ->
  p <> a ->
  live (nodes s) (next_ptr n) ->
  next_ptr n <> Some p ->
  next_ptr n <> Some a ->
  merge_prev a s =
    Some (p, with_history (history s ++ destroy_events (allocators s) a n)
               (with_nodes (absorb (nodes s) p a np n) s)).
Proof.
  intros Ha Hp Hnp Hav Hne Hl Hx1 Hx2. unfold merge_prev. mstep.
  assert (Hlp : live (nodes s) (prev_ptr n)).
  { intros b Hb. rewrite Hp in Hb. injection Hb as <-. by eexists. }
  rewrite (bind_eq _ _ _ _ _ (is_available_live _ _ Hlp)).
  rewrite Hp. cbn [node_available]. rewrite Hnp, Hav.
  unfold absorb, relink, grown. destruct (next_ptr n) as [x|] eqn:Ex.
  - destruct (Hl x eq_refl) as [nx Hnx]. rewrite Hnx.
    assert (x <> p) by congruence. assert (x <> a) by congruence.
    repeat mstep. rewrite Ex. repeat mstep.
    erewrite (bind_eq (destroy_block_region _)) by (apply destroy_block_region_eq; solve_lookup).
    rewrite (insert_insert_ne _ x p) by done. rewrite !insert_insert_eq.
    reflexivity.
  - repeat mstep. rewrite Ex. repeat mstep.
    erewrite (bind_eq (destroy_block_region _)) by (apply destroy_block_region_eq; solve_lookup).
    cbn. rewrite insert_insert_eq. reflexivity.
Qed.

(** ** Segments of the region list *)

Lemma last_or_snoc pred l d : last_or pred (l ++ [d]) = Some d.
Proof. unfold last_or. by rewrite last_snoc. Qed.

Lemma last_or_cons pred a l : last_or pred (a :: l) = last_or (Some a) l.
Proof.
  unfold last_or. rewrite last_cons. by destruct (last l).
Qed.

Lemma wfseg_mono h h' pred p l q :
  (forall a n, a ∈ l -> h !! a = Some n ->
     exists n', h' !! a = Some n' /\ prev_ptr n' = prev_ptr n /\ next_ptr n' = next_ptr n) ->
  wfseg h pred p l q -> wfseg h' pred p l q.
Proof.
  revert pred p. induction l as [|a l IH]; intros pred p Hf; [done|].
  intros (-> & n & Hn & Hp & Hrest). split; [done|].
  destruct (Hf a n) as (n' & Hn' & Ep & En); [by left|done|].
  exists n'. rewrite Ep, En. repeat split; [done..|].
  apply IH; [|done]. intros b nb Hb. apply Hf. by right.
Qed.

Lemma wfseg_frame h h' pred p l q :
  (forall a, a ∈ l -> h' !! a = h !! a) ->
  wfseg h pred p l q -> wfseg h' pred p l q.
Proof.
  intros Hf. apply wfseg_mono. intros a n Ha Hn. exists n.
  by rewrite Hf.
Qed.

Lemma wfseg_split h pred p l1 a l2 q :
  wfseg h pred p (l1 ++ a :: l2) q ->
  exists n, h !! a = Some n
            /\ wfseg h pred p l1 (Some a)
            /\ (prev_ptr n = None \/ prev_ptr n = last_or pred l1)
            /\ wfseg h (Some a) (next_ptr n) l2 q.
Proof.
  revert pred p. induction l1 as [|b l1 IH]; intros pred p; cbn.
  - intros (-> & n & Hn & Hp & Hrest). by exists n.
  - intros (-> & nb & Hnb & Hp & Hrest).
    destruct (IH _ _ Hrest) as (n & Hn & Hseg & Hpn & Hr).
    exists n. rewrite last_or_cons. repeat split; [done| |done|done].
    exists nb. done.
Qed.

Lemma wfseg_join h pred p l1 a n l2 q :
  h !! a = Some n ->
  wfseg h pred p l1 (Some a) ->
  (prev_ptr n = None \/ prev_ptr n = last_or pred l1) ->
  wfseg h (Some a) (next_ptr n) l2 q ->
  wfseg h pred p (l1 ++ a :: l2) q.
Proof.
  revert pred p. induction l1 as [|b l1 IH]; intros pred p Hn; cbn.
  - intros -> Hp Hr. split; [done|]. by exists n.
  - intros (-> & nb & Hnb & Hp & Hrest) Hpn Hr. split; [done|].
    exists nb. repeat split; [done..|]. apply IH; [done..| |done].
    by rewrite last_or_cons in Hpn.
Qed.

Lemma wfseg_lookup h pred p l q a :
  wfseg h pred p l q -> a ∈ l -> is_Some (h !! a).
Proof.
  intros H Ha. apply list_elem_of_split in Ha as (l1 & l2 & ->).
  apply wfseg_split in H as (n & Hn & _). by exists n.
Qed.

Lemma wfseg_head h pred p l q :
  wfseg h pred p l q -> p = match l with [] => q | a :: _ => Some a end.
Proof. destruct l; cbn; [done|]. by intros [-> _]. Qed.

(** A segment is the list of nodes [walk] meets. *)
Lemma walk_wfseg h pred p l fuel :
  wfseg h pred p l None -> (length l <= fuel)%nat ->
  (walk fuel h p).*1 = l /\ Forall (fun an => h !! an.1 = Some an.2) (walk fuel h p).
Proof.
  revert pred p fuel. induction l as [|a l IH]; intros pred p fuel.
  - cbn. intros -> _. destruct fuel; done.
  - intros (-> & n & Hn & _ & Hrest) Hlen. cbn in Hlen.
    destruct fuel as [|fuel]; [lia|]. cbn. rewrite Hn. cbn.
    destruct (IH _ _ fuel Hrest) as [E F]; [lia|].
    rewrite E. split; [done|]. by constructor.
Qed.

Lemma NoDup_length_le_size (h : gmap nat BlockRegion) (l : list nat) :
  NoDup l -> (forall a, a ∈ l -> is_Some (h !! a)) -> (length l <= size h)%nat.
Proof.
  intros Hnd Hin. rewrite <- size_dom.
  rewrite <- (size_list_to_set (C := gset nat) l) by done.
  apply subseteq_size. intros a Ha. apply elem_of_list_to_set in Ha.
  apply elem_of_dom. by apply Hin.
Qed.

(** ** The store after a merge *)

Lemma lookup_absorb_x h p x np nx : absorb h p x np nx !! x = None.
Proof. unfold absorb. apply lookup_delete_eq. Qed.

Lemma lookup_absorb_p h p x np nx :
  p <> x -> absorb h p x np nx !! p = Some (grown np nx).
Proof.
  intros Hne. unfold absorb. rewrite lookup_delete_ne by done.
  apply lookup_insert_eq.
Qed.

Lemma lookup_absorb_other h p x np nx b :
  b <> p -> b <> x -> next_ptr nx <> Some b ->
  absorb h p x np nx !! b = h !! b.
Proof.
  intros H1 H2 H3. unfold absorb, relink.
  rewrite lookup_delete_ne, lookup_insert_ne by done.
  destruct (next_ptr nx) as [y|]; [|done].
  destruct (h !! y); [|done]. rewrite lookup_insert_ne; [done|congruence].
Qed.

Lemma lookup_absorb_next h p x np nx y ny :
  next_ptr nx = Some y -> y <> p -> y <> x -> h !! y = Some ny ->
  absorb h p x np nx !! y = Some (set_prev_ptr (Some p) ny).
Proof.
  intros E H1 H2 Hy. unfold absorb, relink. rewrite E, Hy.
  rewrite lookup_delete_ne, lookup_insert_ne by done.
  apply lookup_insert_eq.
Qed.

Lemma kept_refl n : kept n n.
Proof. repeat split; try done. by left. Qed.

Lemma kept_trans n1 n2 n3 : kept n1 n2 -> kept n2 n3 -> kept n1 n3.
Proof.
  intros (S1 & U1 & B1 & O1 & H1) (S2 & U2 & B2 & O2 & H2).
  repeat split; [congruence..|].
  destruct H2 as [H2|H2]; [|by right]. rewrite H2. done.
Qed.

Lemma kept_available n n' : kept n n' -> available n' = available n.
Proof. intros (S & U & _). unfold available. by rewrite S, U. Qed.

Lemma keeps_refl h : keeps h h.
Proof. intros b nb Hb. exists nb. split; [done|apply kept_refl]. Qed.

Lemma keeps_trans h1 h2 h3 : keeps h1 h2 -> keeps h2 h3 -> keeps h1 h3.
Proof.
  intros H12 H23 b nb3 Hb.
  destruct (H23 b nb3 Hb) as (nb2 & Hb2 & E2).
  destruct (H12 b nb2 Hb2) as (nb1 & Hb1 & E1).
  exists nb1. split; [done|by eapply kept_trans].
Qed.

Lemma keeps_insert h a n n' :
  h !! a = Some n -> kept n n' -> keeps h (<[a := n']> h).
Proof.
  intros Ha E b nb Hb. destruct (decide (a = b)) as [->|Hne].
  - rewrite lookup_insert_eq in Hb. injection Hb as <-. by exists n.
  - rewrite lookup_insert_ne in Hb by done. exists nb. split; [done|apply kept_refl].
Qed.

Lemma keeps_absorb h p x np nx :
  h !! p = Some np -> keeps h (absorb h p x np nx).
Proof.
  intros Hp b nb Hb. unfold absorb, relink in Hb.
  destruct (decide (b = x)) as [->|Hbx]; [by rewrite lookup_delete_eq in Hb|].
  rewrite lookup_delete_ne in Hb by done.
  destruct (decide (b = p)) as [->|Hbp].
  { rewrite lookup_insert_eq in Hb. injection Hb as <-. exists np.
    split; [done|]. repeat split; try done. by left. }
  rewrite lookup_insert_ne in Hb by done.
  destruct (next_ptr nx) as [y|]; [|exists nb; split; [done|apply kept_refl]].
  destruct (h !! y) as [ny|] eqn:Ey; [|exists nb; split; [done|apply kept_refl]].
  destruct (decide (b = y)) as [->|Hby].
  - rewrite lookup_insert_eq in Hb. injection Hb as <-. exists ny.
    split; [done|]. repeat split; try done. by left.
  - rewrite lookup_insert_ne in Hb by done. exists nb. split; [done|apply kept_refl].
Qed.

Lemma node_available_keeps h h' b :
  keeps h h' -> is_Some (h' !! b) ->
  node_available h' (Some b) = node_available h (Some b).
Proof.
  intros Hk [nb' Hb]. destruct (Hk b nb' Hb) as (nb & Hnb & E).
  cbn. rewrite Hb, Hnb. by apply kept_available.
Qed.

Lemma keeps_owner h h' (ba : Z) :
  keeps h h' ->
  (forall a n, h !! a = Some n -> block_ptr n = ba) ->
  forall a n, h' !! a = Some n -> block_ptr n = ba.
Proof.
  intros Hk Ho a n Hn. destruct (Hk a n Hn) as (n0 & Hn0 & _ & _ & E & _).
  rewrite E. by eapply Ho.
Qed.

Lemma wfseg_absorb h pred hd l1 p x l2 np nx :
  wfseg h pred hd (l1 ++ p :: x :: l2) None ->
  NoDup (l1 ++ p :: x :: l2) ->
  h !! p = Some np -> h !! x = Some nx ->
  wfseg (absorb h p x np nx) pred hd (l1 ++ p :: l2) None.
Proof.
  intros Hseg Hnd Hp Hx.
  apply wfseg_split in Hseg as (np' & Hp' & H1 & Hprev & Hrest).
  assert (np' = np) as -> by congruence.
  cbn in Hrest. destruct Hrest as (Enext & nx' & Hx' & Hprevx & Hrest).
  assert (nx' = nx) as -> by congruence.
  apply NoDup_app in Hnd as (Hnd1 & Hdisj & Hnd2).
  apply NoDup_cons in Hnd2 as (Hp2 & Hnd2).
  apply NoDup_cons in Hnd2 as (Hx2 & Hnd2).
  assert (Hpx : p <> x) by (intros ->; apply Hp2; by left).
  pose proof (wfseg_head _ _ _ _ _ Hrest) as Ehead.
  apply wfseg_join with (n := grown np nx).
  - by apply lookup_absorb_p.
  - eapply wfseg_frame; [|exact H1]. intros a Ha.
    apply lookup_absorb_other.
    + intros ->. apply (Hdisj p Ha). by left.
    + intros ->. apply (Hdisj x Ha). right. by left.
    + rewrite Ehead. destruct l2 as [|y l2]; [done|].
      intros [= ->]. apply (Hdisj a Ha). right. right. by left.
  - done.
  - cbn. destruct l2 as [|y l2]; [done|].
    cbn in Hrest. destruct Hrest as (Ey & ny & Hy & Hprevy & Hrest).
    apply NoDup_cons in Hnd2 as (Hy2 & Hnd2).
    assert (y <> p) by (intros ->; apply Hp2; right; by left).
    assert (y <> x) by (intros ->; apply Hx2; by left).
    split; [done|]. exists (set_prev_ptr (Some p) ny).
    split; [by apply lookup_absorb_next|]. split; [by right|].
    cbn. eapply wfseg_frame; [|exact Hrest]. intros a Ha.
    apply lookup_absorb_other.
    + intros ->. apply Hp2. right. by right.
    + intros ->. apply Hx2. by right.
    + rewrite Ey. intros [= ->]. done.
Qed.

Lemma well_formed_absorb s s' l1 p x l2 np nx :
  well_formed s (l1 ++ p :: x :: l2) ->
  nodes s !! p = Some np -> nodes s !! x = Some nx ->
  nodes s' = absorb (nodes s) p x np nx ->
  blk_regions (block s') = blk_regions (block s) ->
  arena_next s' = arena_next s ->
  block_addr s' = block_addr s ->
  well_formed s' (l1 ++ p :: l2).
Proof.
  intros [Hc Hnd Hdom Hfr Hown] Hp Hx En Er Ea Eb.
  pose proof Hnd as Hnd0.
  apply NoDup_app in Hnd as (Hnd1 & Hdisj & Hnd2).
  apply NoDup_cons in Hnd2 as (Hp2 & Hnd2).
  apply NoDup_cons in Hnd2 as (Hx2 & Hnd2).
  assert (Hpx : p <> x) by (intros ->; apply Hp2; by left).
  assert (Hsub : forall a, a ∈ l1 ++ p :: l2 -> a ∈ l1 ++ p :: x :: l2).
  { intros a. rewrite !elem_of_app, !elem_of_cons. tauto. }
  assert (Hc' : wfseg (absorb (nodes s) p x np nx) None (blk_regions (block s))
                  (l1 ++ p :: l2) None) by (by apply wfseg_absorb).
  assert (Hxn : x ∉ l1 ++ p :: l2).
  { rewrite elem_of_app, elem_of_cons. intros [H|[H|H]]; [|done..].
    apply (Hdisj x H). right. by left. }
  split.
  - by rewrite En, Er.
  - apply NoDup_app. split; [done|]. split.
    + intros a Ha Ha'. apply (Hdisj a Ha).
      apply elem_of_cons in Ha' as [->|Ha']; [by left|]. right. by right.
    + apply NoDup_cons. split; [|done]. intros H. apply Hp2. by right.
  - intros a. rewrite En. split.
    + intros Ha. eapply wfseg_lookup; [exact Hc'|exact Ha].
    + intros [na Hna]. destruct (decide (a = x)) as [->|Hax].
      { by rewrite lookup_absorb_x in Hna. }
      assert (a ∈ l1 ++ p :: x :: l2) as Ha.
      { apply Hdom. unfold absorb, relink in Hna.
        rewrite lookup_delete_ne in Hna by done.
        destruct (decide (a = p)) as [->|Hap]; [by eexists|].
        rewrite lookup_insert_ne in Hna by done.
        destruct (next_ptr nx) as [y|]; [|by eexists].
        destruct (nodes s !! y) eqn:Ey; [|by eexists].
        destruct (decide (a = y)) as [->|Hay]; [by eexists|].
        rewrite lookup_insert_ne in Hna by done. by eexists. }
      revert Ha. rewrite !elem_of_app, !elem_of_cons. tauto.
  - intros a Ha. rewrite Ea. apply Hfr. by apply Hsub.
  - rewrite En, Eb. eapply keeps_owner; [|exact Hown]. by apply keeps_absorb.
Qed.

Lemma well_formed_update s s' l a n n' :
  well_formed s l ->
  nodes s !! a = Some n ->
  nodes s' = <[a := n']> (nodes s) ->
  prev_ptr n' = prev_ptr n -> next_ptr n' = next_ptr n ->
  blk_regions (block s') = blk_regions (block s) ->
  (arena_next s <= arena_next s')%nat ->
  block_ptr n' = block_ptr n ->
  block_addr s' = block_addr s ->
  well_formed s' l.
Proof.
  intros [Hc Hnd Hdom Hfr Hown] Ha En Ep Ex Er Ea Ebp Eb. split.
  - rewrite En, Er. eapply wfseg_mono; [|exact Hc].
    intros b nb Hb Hnb. destruct (decide (a = b)) as [->|Hne].
    + rewrite lookup_insert_eq. exists n'.
      assert (nb = n) as -> by congruence. done.
    + rewrite lookup_insert_ne by done. by exists nb.
  - done.
  - intros b. rewrite En, Hdom. destruct (decide (a = b)) as [->|Hne].
    + rewrite lookup_insert_eq, Ha. split; by eexists.
    + by rewrite lookup_insert_ne.
  - intros b Hb. specialize (Hfr b Hb). lia.
  - intros b nb. rewrite En, Eb. destruct (decide (a = b)) as [->|Hne].
    + rewrite lookup_insert_eq. intros [= <-]. rewrite Ebp. by eapply Hown.
    + rewrite lookup_insert_ne by done. apply Hown.
Qed.

(** ** Well-formed lists *)

Lemma well_formed_at s l1 a l2 :
  well_formed s (l1 ++ a :: l2) ->
  exists n, nodes s !! a = Some n
            /\ (prev_ptr n = None \/ prev_ptr n = last_or None l1)
            /\ next_ptr n = head l2
            /\ live (nodes s) (prev_ptr n)
            /\ live (nodes s) (next_ptr n).
Proof.
  intros [Hc Hnd Hdom Hfr Hown].
  apply wfseg_split in Hc as (n & Hn & H1 & Hp & H2).
  pose proof (wfseg_head _ _ _ _ _ H2) as Eh.
  exists n. repeat split; [done|done|by destruct l2| |].
  - intros b Hb. apply Hdom. destruct Hp as [Hp|Hp]; [congruence|].
    rewrite Hp in Hb. unfold last_or in Hb.
    destruct (last l1) as [d|] eqn:El; [|done]. injection Hb as ->.
    apply last_Some in El as [l' ->]. rewrite !elem_of_app, list_elem_of_singleton. tauto.
  - intros b Hb. apply Hdom. rewrite Eh in Hb. destruct l2 as [|y l2]; [done|].
    injection Hb as ->. rewrite elem_of_app, !elem_of_cons. tauto.
Qed.

Lemma merge_next_wf s l1 a1 l2 n1 :
  well_formed s (l1 ++ a1 :: l2) ->
  nodes s !! a1 = Some n1 ->
  exists s' l2' n1',
    merge_next a1 s = Some (a1, s')
    /\ well_formed s' (l1 ++ a1 :: l2')
    /\ block s' = block s
    /\ (exists evs, history s' = history s ++ evs)
    /\ keeps (nodes s) (nodes s')
    /\ nodes s' !! a1 = Some n1'
    /\ available n1' = available n1
    /\ ((node_available (nodes s) (next_ptr n1) = false /\ s' = s /\ l2' = l2)
        \/ (node_available (nodes s) (next_ptr n1) = true
            /\ (exists x, l2 = x :: l2')
            /\ forall c nc, head l2' = Some c -> nodes s' !! c = Some nc ->
                            prev_ptr nc = Some a1)).
Proof.
  intros Hwf Hn1.
  destruct (well_formed_at _ _ _ _ Hwf) as (n & Hn & Hprev & Hnext & Hlp & Hln).
  assert (n = n1) as -> by congruence.
  destruct (node_available (nodes s) (next_ptr n1)) eqn:Eav.
  - (* the successor is merged *)
    rewrite Hnext in Eav. destruct l2 as [|x l2]; [done|]. cbn in Eav.
    destruct (nodes s !! x) as [nx|] eqn:Hx; [|done].
    assert (Hwf' : well_formed s ((l1 ++ [a1]) ++ x :: l2)) by (by rewrite <- app_assoc).
    destruct (well_formed_at _ _ _ _ Hwf') as (nx' & Hnx' & _ & Hnextx & _ & Hlnx).
    assert (nx' = nx) as -> by congruence.
    pose proof (wf_nodup _ _ Hwf) as Hnd.
    apply NoDup_app in Hnd as (_ & _ & Hnd).
    apply NoDup_cons in Hnd as (Ha1 & Hnd).
    apply NoDup_cons in Hnd as (Hx2 & Hnd).
    assert (x <> a1) by (intros ->; apply Ha1; by left).
    eexists _, l2, (grown n1 nx). split.
    { apply merge_next_eq with (nx := nx); try done.
      - rewrite Hnextx. destruct l2 as [|y l2]; [done|]. intros [= ->].
        apply Ha1. right. by left.
      - rewrite Hnextx. destruct l2 as [|y l2]; [done|]. intros [= ->].
        apply Hx2. by left. }
    split. { eapply well_formed_absorb; [exact Hwf|exact Hn1|exact Hx|done..]. }
    split; [done|]. split; [by eexists|]. split; [by apply keeps_absorb|].
    split; [by apply lookup_absorb_p|]. split; [done|].
    right. split; [done|]. split; [by exists x|].
    intros c nc Hc Hnc. cbn in Hnc.
    destruct l2 as [|y l2]; [done|]. injection Hc as ->.
    cbn in Hnextx. destruct (Hlnx c Hnextx) as [ny Hny].
    apply NoDup_cons in Hnd as (Hy & Hnd).
    erewrite lookup_absorb_next in Hnc; [|exact Hnextx| | |exact Hny].
    + by injection Hnc as <-.
    + intros ->. apply Ha1. right. by left.
    + intros ->. apply Hx2. by left.
  - exists s, l2, n1. split; [by apply merge_next_skip with (n1 := n1)|].
    split; [done|]. split; [done|].
    split; [exists []; by rewrite app_nil_r|]. split; [apply keeps_refl|].
    split; [done|]. split; [done|]. by left.
Qed.

Lemma merge_prev_wf s l1 a l2 n :
  well_formed s (l1 ++ a :: l2) ->
  nodes s !! a = Some n ->
  exists a1 s' l1' n1,
    merge_prev a s = Some (a1, s')
    /\ well_formed s' (l1' ++ a1 :: l2)
    /\ block s' = block s
    /\ (exists evs, history s' = history s ++ evs)
    /\ keeps (nodes s) (nodes s')
    /\ nodes s' !! a1 = Some n1
    /\ ((node_available (nodes s) (prev_ptr n) = false
         /\ a1 = a /\ s' = s /\ l1' = l1 /\ n1 = n)
        \/ (node_available (nodes s) (prev_ptr n) = true
            /\ prev_ptr n = Some a1 /\ l1 = l1' ++ [a1] /\ available n1 = true
            /\ forall c nc, head l2 = Some c -> nodes s' !! c = Some nc ->
                            prev_ptr nc = Some a1)).
Proof.
  intros Hwf Hn.
  destruct (well_formed_at _ _ _ _ Hwf) as (n' & Hn' & Hprev & Hnext & Hlp & Hln).
  assert (n' = n) as -> by congruence.
  destruct (node_available (nodes s) (prev_ptr n)) eqn:Eav.
  - (* the node is merged into its predecessor *)
    destruct (prev_ptr n) as [p|] eqn:Ep; [|done]. cbn in Eav.
    destruct (nodes s !! p) as [np|] eqn:Hp; [|done].
    destruct Hprev as [|Hprev]; [done|]. symmetry in Hprev.
    unfold last_or in Hprev. destruct (last l1) as [d|] eqn:El; [|done].
    injection Hprev as ->. apply last_Some in El as [l1' ->].
    rewrite <- app_assoc in Hwf. cbn in Hwf.
    pose proof (wf_nodup _ _ Hwf) as Hnd.
    apply NoDup_app in Hnd as (_ & _ & Hnd).
    apply NoDup_cons in Hnd as (Hp2 & Hnd).
    apply NoDup_cons in Hnd as (Ha2 & Hnd).
    assert (p <> a) by (intros ->; apply Hp2; by left).
    assert (Hx1 : next_ptr n <> Some p).
    { rewrite Hnext. destruct l2 as [|y l2]; [done|]. intros [= ->].
      apply Hp2. right. by left. }
    assert (Hx2 : next_ptr n <> Some a).
    { rewrite Hnext. destruct l2 as [|y l2]; [done|]. intros [= ->].
      apply Ha2. by left. }
    eexists p, _, l1', (grown np n). split.
    { apply merge_prev_eq with (np := np); done. }
    split. { eapply well_formed_absorb; [exact Hwf|exact Hp|exact Hn|done..]. }
    split; [done|]. split; [by eexists|]. split; [by apply keeps_absorb|].
    split; [by apply lookup_absorb_p|].
    right. split; [done|]. split; [done|]. split; [done|]. split; [done|].
    intros c nc Hc Hnc. cbn in Hnc. rewrite Hc in Hnext.
    destruct (Hln c Hnext) as [ny Hny].
    erewrite lookup_absorb_next in Hnc; [|exact Hnext| | |exact Hny].
    + by injection Hnc as <-.
    + congruence.
    + congruence.
  - exists a, s, l1, n. split; [by apply merge_prev_skip with (n := n)|].
    split; [done|]. split; [done|].
    split; [exists []; by rewrite app_nil_r|]. split; [apply keeps_refl|].
    split; [done|]. left. done.
Qed.

Lemma unhandled_links n :
  prev_ptr (unhandled n) = prev_ptr n /\ next_ptr (unhandled n) = next_ptr n
  /\ available (unhandled n) = available n.
Proof. unfold unhandled. by destruct (needs_free n). Qed.

Lemma unhandled_kept n : kept n (unhandled n).
Proof.
  unfold unhandled. destruct (needs_free n); [|apply kept_refl].
  repeat split; try done. by right.
Qed.

Lemma node_available_head s l1 a l2 h' :
  well_formed s (l1 ++ a :: l2) ->
  keeps h' (nodes s) ->
  node_available (nodes s) (head l2) = node_available h' (head l2).
Proof.
  intros Hwf Hk. destruct l2 as [|x l2]; [done|]. cbn [head].
  apply node_available_keeps; [done|].
  apply (wf_dom _ _ Hwf). rewrite elem_of_app, !elem_of_cons. tauto.
Qed.

(** [coalesce_block_regions] on a node of a well-formed list: the node is
    merged into its predecessor when [is_available] holds of the node its
    [prev_ptr] points to, and the successor is merged into what remains when
    [is_available] holds of it. *)
Lemma coalesce_block_regions_wf s l1 a l2 n :
  well_formed s (l1 ++ a :: l2) ->
  nodes s !! a = Some n ->
  exists a1 s' l1' l2' n1,
    coalesce_block_regions a s = Some (a1, s')
    /\ well_formed s' (l1' ++ a1 :: l2')
    /\ block s' = block s
    /\ (exists evs, history s' = history s ++ dealloc_events (allocators s) a n ++ evs)
    /\ keeps (nodes s) (nodes s')
    /\ nodes s' !! a1 = Some n1
    /\ ((node_available (nodes s) (prev_ptr n) = false
         /\ a1 = a /\ l1' = l1 /\ available n1 = available n)
        \/ (node_available (nodes s) (prev_ptr n) = true
            /\ prev_ptr n = Some a1 /\ l1 = l1' ++ [a1] /\ available n1 = true))
    /\ ((node_available (nodes s) (next_ptr n) = false /\ l2' = l2)
        \/ (node_available (nodes s) (next_ptr n) = true
            /\ (exists x, l2 = x :: l2')
            /\ forall c nc, head l2' = Some c -> nodes s' !! c = Some nc ->
                            prev_ptr nc = Some a1)).
Proof.
  intros Hwf Hn.
  destruct (unhandled_links n) as (Ep & Ex & Eav).
  destruct (well_formed_at _ _ _ _ Hwf) as (n' & Hn' & _ & Hnext & Hlp & _).
  assert (n' = n) as -> by congruence.
  (* the handle is given back *)
  set (s0 := with_history (history s ++ dealloc_events (allocators s) a n)
               (with_nodes (<[a := unhandled n]> (nodes s)) s)).
  assert (H0 : give_back_handle a s = Some (tt, s0)) by (by apply give_back_handle_eq).
  assert (Hwf0 : well_formed s0 (l1 ++ a :: l2)).
  { eapply well_formed_update; [exact Hwf|exact Hn|reflexivity|try done..].
    unfold unhandled. by destruct (needs_free n). }
  assert (Hk0 : keeps (nodes s) (nodes s0)).
  { apply keeps_insert with (n := n); [done|apply unhandled_kept]. }
  assert (Hn0 : nodes s0 !! a = Some (unhandled n)) by apply lookup_insert_eq.
  assert (Hprev0 : node_available (nodes s0) (prev_ptr n) = node_available (nodes s) (prev_ptr n)).
  { destruct (prev_ptr n) as [p|] eqn:E; [|done].
    apply node_available_keeps; [done|]. cbn.
    destruct (decide (a = p)) as [->|Hne].
    - rewrite lookup_insert_eq. by eexists.
    - rewrite lookup_insert_ne by done. by apply Hlp. }
  (* merge into the predecessor *)
  destruct (merge_prev_wf _ _ _ _ _ Hwf0 Hn0)
    as (a1 & s1 & l1' & n1 & H1 & Hwf1 & Hb1 & [ev1 Hh1] & Hk1 & Hn1 & Hcase1).
  rewrite Ep, Hprev0 in Hcase1.
  (* merge the successor *)
  destruct (merge_next_wf _ _ _ _ _ Hwf1 Hn1)
    as (s2 & l2' & n2 & H2 & Hwf2 & Hb2 & [ev2 Hh2] & Hk2 & Hn2 & Eav2 & Hcase2).
  destruct (well_formed_at _ _ _ _ Hwf1) as (n1' & Hn1' & _ & Hnext1 & _).
  assert (n1' = n1) as -> by congruence.
  rewrite Hnext1, (node_available_head _ _ _ _ (nodes s) Hwf1) in Hcase2
    by (by eapply keeps_trans).
  rewrite <- Hnext in Hcase2.
  exists a1, s2, l1', l2', n2. split.
  { rewrite coalesce_block_regions_parts.
    rewrite (bind_eq _ _ _ _ _ H0). rewrite (bind_eq _ _ _ _ _ H1). exact H2. }
  split; [done|]. split; [by rewrite Hb2, Hb1|].
  split. { exists (ev1 ++ ev2). rewrite Hh2, Hh1. cbn. by rewrite <- !app_assoc. }
  split. { eapply keeps_trans; [|exact Hk2].
           by eapply keeps_trans. }
  split; [done|]. split.
  - destruct Hcase1 as [(E & -> & -> & -> & ->)|(E & Hp & -> & Hav1 & _)].
    + left. repeat split; [done..|]. rewrite Eav2. done.
    + right. repeat split; [done..|congruence].
  - destruct Hcase2 as [(E & -> & ->)|(E & Hx & Hc)]; [by left|by right].
Qed.

(** ** The loop of [collect] *)

Lemma can_coalesce_eq s a n :
  nodes s !! a = Some n ->
  live (nodes s) (prev_ptr n) -> live (nodes s) (next_ptr n) ->
  can_coalesce a s =
    Some (available n
          && (node_available (nodes s) (prev_ptr n)
              || node_available (nodes s) (next_ptr n)), s).
Proof.
  intros Hn Hlp Hln. unfold can_coalesce.
  assert (Hla : live (nodes s) (Some a)) by (intros b [= <-]; by eexists).
  rewrite (bind_eq _ _ _ _ _ (is_available_live _ _ Hla)).
  cbn [node_available]. rewrite Hn. destruct (available n); [|done]. cbn [negb andb].
  mstep. rewrite (bind_eq _ _ _ _ _ (is_available_live _ _ Hlp)).
  destruct (node_available (nodes s) (prev_ptr n)); [done|].
  mstep. rewrite (bind_eq _ _ _ _ _ (is_available_live _ _ Hln)).
  by destruct (node_available (nodes s) (next_ptr n)).
Qed.

Lemma no_adjacent_nodes_snoc h l a :
  no_adjacent_nodes h l ->
  (forall d, last l = Some d ->
     node_available h (Some d) && node_available h (Some a) = false) ->
  no_adjacent_nodes h (l ++ [a]).
Proof.
  intros Hl Hlast l1 x y l2 E.
  destruct l2 as [|z l2 _] using rev_ind.
  - change (l1 ++ [x; y]) with (l1 ++ [x] ++ [y]) in E.
    rewrite app_assoc in E. apply app_inj_tail in E as [-> ->].
    apply Hlast. apply last_snoc.
  - apply (Hl l1 x y l2).
    change (l1 ++ x :: y :: l2 ++ [z]) with (l1 ++ (x :: y :: l2) ++ [z]) in E.
    rewrite app_assoc in E. by apply app_inj_tail in E as [-> _].
Qed.

Lemma no_adjacent_nodes_keeps h h' l :
  keeps h h' ->
  (forall b, b ∈ l -> is_Some (h' !! b)) ->
  no_adjacent_nodes h l -> no_adjacent_nodes h' l.
Proof.
  intros Hk Hin Hl l1 x y l2 E.
  rewrite !(node_available_keeps h h') by
    (try done; apply Hin; rewrite E, elem_of_app, !elem_of_cons; tauto).
  by apply (Hl l1 x y l2).
Qed.

Lemma collect_loop_spec fuel : forall s done rest result,
  collect_inv s done rest ->
  (length rest <= fuel)%nat ->
  exists res s' l',
    collect_loop fuel (head rest) result s = Some (res, s')
    /\ well_formed s' l'
    /\ no_adjacent_nodes (nodes s') l'
    /\ block s' = block s
    /\ keeps (nodes s) (nodes s')
    /\ ((res = result /\ s' = s /\ l' = done ++ rest)
        \/ (res = true /\ (length l' < length (done ++ rest))%nat)).
Proof.
  induction fuel as [|fuel IH]; intros s done rest result (Hwf & Hadj & Hback) Hlen.
  { destruct rest; [|cbn in Hlen; lia]. exists result, s, (done ++ []).
    rewrite app_nil_r in *.
    split; [done|]. split; [done|]. split; [done|]. split; [done|].
    split; [apply keeps_refl|]. by left. }
  destruct rest as [|a l2].
  { exists result, s, (done ++ []). rewrite app_nil_r in *.
    split; [done|]. split; [done|]. split; [done|]. split; [done|].
    split; [apply keeps_refl|]. by left. }
  cbn [head collect_loop]. cbn in Hlen.
  destruct (well_formed_at _ _ _ _ Hwf) as (n & Hn & Hprev & Hnext & Hlp & Hln).
  rewrite (bind_eq _ _ _ _ _ (can_coalesce_eq _ _ _ Hn Hlp Hln)).
  destruct (available n
            && (node_available (nodes s) (prev_ptr n)
                || node_available (nodes s) (next_ptr n))) eqn:Ecc.
  - (* the node is coalesced with its neighbours *)
    apply andb_true_iff in Ecc as [Eav Ecc].
    destruct (coalesce_block_regions_wf _ _ _ _ _ Hwf Hn)
      as (a1 & s' & l1' & l2' & n1 & Hco & Hwf' & Hb & _ & Hk & Hn1 & Hcp & Hcn).
    rewrite (bind_eq _ _ _ _ _ Hco).
    destruct (well_formed_at _ _ _ _ Hwf') as (n1' & Hn1' & _ & Hnext1 & _).
    assert (n1' = n1) as -> by congruence.
    rewrite (bind_eq _ _ _ _ _ (rd_eq _ _ _ next_ptr Hn1)), Hnext1.
    assert (Hl2 : (length l2' <= length l2)%nat).
    { destruct Hcn as [(_ & ->)|(_ & [x ->] & _)]; cbn; lia. }
    assert (Hshort : (length (l1' ++ a1 :: l2') < length (done ++ a :: l2))%nat).
    { rewrite !length_app. cbn.
      destruct Hcp as [(Ep & -> & -> & _)|(_ & _ & -> & _)].
      - destruct Hcn as [(En & _)|(_ & [x ->] & _)]; [|cbn; lia].
        rewrite Ep, En in Ecc. done.
      - rewrite length_app. cbn. lia. }
    assert (Hlive : forall b, b ∈ l1' ++ [a1] -> is_Some (nodes s' !! b)).
    { intros b Hin. apply (wf_dom _ _ Hwf').
      revert Hin. rewrite !elem_of_app, !elem_of_cons, elem_of_nil. tauto. }
    destruct (IH s' (l1' ++ [a1]) l2' true)
      as (res & s'' & l'' & Hrun & Hwf'' & Hadj'' & Hb'' & Hk'' & Hres).
    { split; [by rewrite <- app_assoc|]. split.
      - destruct Hcp as [(Ep & -> & -> & Eav1)|(_ & _ & -> & _)].
        + apply no_adjacent_nodes_snoc.
          * eapply no_adjacent_nodes_keeps; [exact Hk| |exact Hadj].
            intros b Hin. apply Hlive. rewrite elem_of_app. by left.
          * intros d Hd. destruct (node_available (nodes s') (Some d)) eqn:Ed; [|done].
            exfalso. rewrite (node_available_keeps (nodes s) (nodes s')) in Ed;
              [|done|apply Hlive; apply last_Some in Hd as [l' ->];
                rewrite !elem_of_app, !elem_of_cons; tauto].
            specialize (Hback d a n Hd eq_refl Hn Ed Eav).
            rewrite Hback in Ep. congruence.
        + eapply no_adjacent_nodes_keeps; [exact Hk|done|exact Hadj].
      - intros d c nc Hd Hc Hnc Ed Ec. rewrite last_snoc in Hd. injection Hd as <-.
        destruct Hcn as [(En & ->)|(_ & _ & Hc')]; [|by eapply Hc'].
        exfalso. rewrite Hnext, Hc in En.
        destruct (Hk c nc Hnc) as (nc0 & Hnc0 & E0). apply kept_available in E0.
        cbn in En. rewrite Hnc0 in En. congruence. }
    { lia. }
    exists res, s'', l''. rewrite <- app_assoc in Hres. cbn in Hres.
    split; [done|]. split; [done|]. split; [done|]. split; [congruence|].
    split; [by eapply keeps_trans|].
    right. destruct Hres as [(-> & -> & ->)|(-> & Hlt)]; split; [done|lia|done|lia].
  - (* the node is left as it is *)
    rewrite (bind_eq _ _ _ _ _ (rd_eq _ _ _ next_ptr Hn)), Hnext.
    destruct (IH s (done ++ [a]) l2 result)
      as (res & s'' & l'' & Hrun & Hwf'' & Hadj'' & Hb'' & Hk'' & Hres).
    { split; [by rewrite <- app_assoc|]. split.
      - apply no_adjacent_nodes_snoc; [done|]. intros d Hd.
        destruct (node_available (nodes s) (Some d)) eqn:Ed; [|done].
        cbn. rewrite Hn. destruct (available n) eqn:Eav; [|done].
        specialize (Hback d a n Hd eq_refl Hn Ed Eav).
        rewrite Hback, Ed in Ecc. done.
      - intros d c nc Hd Hc Hnc Ed Ec. rewrite last_snoc in Hd. injection Hd as <-.
        exfalso. cbn in Ed. rewrite Hn in Ed. rewrite Ed, Hnext, Hc in Ecc.
        cbn in Ecc. rewrite Hnc, Ec in Ecc. by rewrite orb_true_r in Ecc. }
    { lia. }
    exists res, s'', l''. rewrite <- app_assoc in Hres. done.
Qed.

(** ** [split_block_region] *)

Ltac map_solve :=
  apply map_eq; intros ?;
  repeat (rewrite ?lookup_insert, ?lookup_delete; case_decide; subst; try congruence);
  try done.

Lemma split_block_region_eq s a n size requested :
  nodes s !! a = Some n ->
  nodes s !! arena_next s = None ->
  live (nodes s) (next_ptr n) ->
  next_ptr n <> Some a ->
  split_block_region a size requested s =
    Some (arena_next s, after_split a n size requested s).
Proof.
  intros Hn Hfresh Hl Hx.
  assert (Hae : a <> arena_next s) by congruence.
  assert (Hxe : next_ptr n <> Some (arena_next s)).
  { intros E. destruct (Hl _ E) as [? ?]. congruence. }
  destruct (unhandled_links n) as (Ep & Ex & _).
  transitivity ((give_back_handle a ;;;
     b <- get_block ;;
     let conformed := conform_alignment requested (alignment (mb_properties (blk_memory b))) in
     n <- load a ;;
     let adjusted_size := aligned_size (mr_offset (memory n)) size conformed in
     let adjusted_offset := aligned_offset (wrap64 (mr_offset (memory n) + size)) conformed in
     let empty_size := wrap64 (mr_size (memory n) - adjusted_size) in
     let next_region := next_ptr n in
     e <- create_block_region (mr_properties (memory n)) adjusted_offset empty_size
            (mr_dedicated (memory n)) ;;
     update e (set_next_ptr next_region) ;;;
     match next_region with
     | Some x => update x (set_prev_ptr (Some e))
     | None => ret tt
     end ;;;
     update a (set_next_ptr (Some e)) ;;;
     update a (fun n => set_memory (set_size size (memory n)) n) ;;;
     ret e) s).
  { unfold split_block_region, give_back_handle. by rewrite bind_assoc. }
  rewrite (bind_eq _ _ _ _ _ (give_back_handle_eq _ _ _ Hn)).
  unfold create_block_region. repeat mstep. cbn zeta. repeat mstep.
  rewrite Ex. unfold after_split, relink, shrunk, empty_region.
  assert (Hsz : mr_size (memory (unhandled n)) = mr_size (memory n)
                /\ mr_offset (memory (unhandled n)) = mr_offset (memory n)
                /\ mr_properties (memory (unhandled n)) = mr_properties (memory n)
                /\ mr_dedicated (memory (unhandled n)) = mr_dedicated (memory n)).
  { unfold unhandled. by destruct (needs_free n). }
  destruct Hsz as (-> & -> & -> & ->).
  destruct (next_ptr n) as [x|] eqn:Enext.
  - destruct (Hl x eq_refl) as [nx Hnx].
    assert (x <> a) by congruence. assert (x <> arena_next s) by congruence.
    rewrite lookup_insert_ne, Hnx by done.
    repeat mstep. unfold ret. do 2 f_equal.
    unfold with_arena_next, with_history, with_nodes. cbn. f_equal. map_solve.
  - repeat mstep. unfold ret. do 2 f_equal.
    unfold with_arena_next, with_history, with_nodes. cbn. f_equal. map_solve.
Qed.

Lemma lookup_relink_ne h y p b :
  y <> Some b -> relink h y p !! b = h !! b.
Proof.
  intros Hne. unfold relink. destruct y as [y|]; [|done].
  destruct (h !! y); [|done]. rewrite lookup_insert_ne; [done|congruence].
Qed.

Lemma lookup_relink_eq h y p ny :
  h !! y = Some ny -> relink h (Some y) p !! y = Some (set_prev_ptr (Some p) ny).
Proof. intros Hy. unfold relink. rewrite Hy. apply lookup_insert_eq. Qed.

Lemma relink_is_Some h y p b : is_Some (relink h y p !! b) <-> is_Some (h !! b).
Proof.
  unfold relink. destruct y as [y|]; [|done].
  destruct (h !! y) as [ny|] eqn:Ey; [|done].
  destruct (decide (y = b)) as [->|Hne].
  - rewrite lookup_insert_eq, Ey. split; by eexists.
  - by rewrite lookup_insert_ne.
Qed.

Lemma well_formed_split s l1 a l2 n size requested :
  well_formed s (l1 ++ a :: l2) ->
  nodes s !! a = Some n ->
  well_formed (after_split a n size requested s) (l1 ++ a :: arena_next s :: l2).
Proof.
  intros Hwf Hn. pose proof Hwf as [Hc Hnd Hdom Hfr Hown].
  set (e := arena_next s).
  assert (He : e ∉ l1 ++ a :: l2).
  { intros H. apply Hfr in H. unfold e in H. lia. }
  assert (Hfresh : nodes s !! e = None).
  { apply eq_None_not_Some. by rewrite <- Hdom. }
  apply wfseg_split in Hc as (n' & Hn' & H1 & Hprev & H2).
  assert (n' = n) as -> by congruence.
  pose proof (wfseg_head _ _ _ _ _ H2) as Ehead.
  pose proof Hnd as Hnd0.
  apply NoDup_app in Hnd as (Hnd1 & Hdisj & Hnd2).
  apply NoDup_cons in Hnd2 as (Ha2 & Hnd2).
  assert (Hae : a <> e).
  { intros ->. apply He. rewrite elem_of_app, elem_of_cons. tauto. }
  assert (Hel2 : e ∉ l2).
  { intros H. apply He. rewrite elem_of_app, elem_of_cons. tauto. }
  destruct (unhandled_links n) as (Ep & Ex & _).
  split.
  - unfold after_split. cbn [nodes block with_arena_next with_history with_nodes].
    fold e. apply wfseg_join with (n := shrunk n size e).
    + apply lookup_insert_eq.
    + eapply wfseg_frame; [|exact H1]. intros b Hb.
      assert (b <> a) by (intros ->; apply (Hdisj a Hb); by left).
      assert (b <> e).
      { intros ->. apply He. rewrite elem_of_app. by left. }
      rewrite lookup_insert_ne by done. rewrite lookup_relink_ne.
      * by rewrite lookup_insert_ne.
      * rewrite Ehead. destruct l2 as [|x l2]; [done|]. intros [= ->].
        apply (Hdisj b Hb). right. by left.
    + cbn. by rewrite Ep.
    + cbn. split; [done|]. exists (empty_region s n size requested).
      split.
      { rewrite lookup_insert_ne by done. rewrite lookup_relink_ne.
        - apply lookup_insert_eq.
        - rewrite Ehead. destruct l2 as [|x l2]; [done|]. intros [= ->].
          apply Hel2. by left. }
      split; [by left|]. cbn [next_ptr empty_region].
      destruct l2 as [|x l2]; [done|].
      cbn in H2. destruct H2 as (Ex' & nx & Hnx & Hprevx & H2).
      apply NoDup_cons in Hnd2 as (Hx2 & Hnd2).
      assert (x <> a) by (intros ->; apply Ha2; by left).
      assert (x <> e) by (intros ->; apply Hel2; by left).
      split; [done|]. exists (set_prev_ptr (Some e) nx). split.
      { rewrite lookup_insert_ne by done. rewrite Ex'.
        apply lookup_relink_eq. by rewrite lookup_insert_ne. }
      split; [by right|]. cbn.
      eapply wfseg_frame; [|exact H2]. intros b Hb.
      assert (b <> a) by (intros ->; apply Ha2; by right).
      assert (b <> e) by (intros ->; apply Hel2; by right).
      assert (b <> x) by (intros ->; done).
      rewrite lookup_insert_ne by done. rewrite lookup_relink_ne by congruence.
      by rewrite lookup_insert_ne.
  - apply NoDup_app. split; [done|]. split.
    + intros b Hb Hb'. apply elem_of_cons in Hb' as [->|Hb'].
      { apply (Hdisj a Hb). by left. }
      apply elem_of_cons in Hb' as [->|Hb'].
      { apply He. rewrite elem_of_app. by left. }
      apply (Hdisj b Hb). by right.
    + apply NoDup_cons. split.
      { intros H. apply elem_of_cons in H as [H|H]; done. }
      apply NoDup_cons. done.
  - intros b. unfold after_split. cbn [nodes with_arena_next with_history with_nodes].
    fold e. destruct (decide (b = a)) as [->|Hba].
    { rewrite lookup_insert_eq. rewrite elem_of_app, elem_of_cons.
      split; [by eexists|tauto]. }
    rewrite lookup_insert_ne by done. rewrite relink_is_Some.
    destruct (decide (b = e)) as [->|Hbe].
    { rewrite lookup_insert_eq. rewrite elem_of_app, !elem_of_cons.
      split; [by eexists|tauto]. }
    rewrite lookup_insert_ne by done. rewrite <- Hdom.
    rewrite !elem_of_app, !elem_of_cons. tauto.
  - intros b. unfold after_split. cbn [arena_next with_arena_next]. fold e.
    rewrite elem_of_app, !elem_of_cons. intros [H|[->|[->|H]]].
    + assert (b < e)%nat; [|lia]. apply Hfr. rewrite elem_of_app. tauto.
    + assert (a < e)%nat; [|lia]. apply Hfr. rewrite elem_of_app, elem_of_cons. tauto.
    + lia.
    + assert (b < e)%nat; [|lia]. apply Hfr. rewrite elem_of_app, elem_of_cons. tauto.
  - intros b nb. unfold after_split.
    cbn [nodes block_addr with_arena_next with_history with_nodes]. fold e.
    destruct (decide (b = a)) as [->|Hba].
    { rewrite lookup_insert_eq. intros [= <-]. cbn.
      rewrite <- (Hown a n Hn). unfold unhandled. by destruct (needs_free n). }
    rewrite lookup_insert_ne by done. unfold relink.
    assert (Hbase : forall nb0, <[e := empty_region s n size requested]> (nodes s) !! b = Some nb0 ->
                                block_ptr nb0 = block_addr s).
    { intros nb0. destruct (decide (b = e)) as [->|Hbe].
      - rewrite lookup_insert_eq. by intros [= <-].
      - rewrite lookup_insert_ne by done. apply Hown. }
    destruct (next_ptr n) as [x|]; [|apply Hbase].
    destruct (<[e := empty_region s n size requested]> (nodes s) !! x) as [nx|] eqn:Hx;
      [|apply Hbase].
    destruct (decide (b = x)) as [->|Hbx].
    + rewrite lookup_insert_eq. intros [= <-]. cbn. by apply Hbase.
    + rewrite lookup_insert_ne by done. apply Hbase.
Qed.

(** ** [find_block_region] *)

Lemma find_block_region_loop_spec fuel request : forall p s r s',
  find_block_region_loop fuel request p s = Some (r, s') ->
  s' = s /\
  match r with
  | Some a =>
      exists l1 n l2,
        walk fuel (nodes s) p = l1 ++ (a, n) :: l2
        /\ Forall (fun bn => fits s request bn.2 = false) l1
        /\ fits s request n = true
  | None => Forall (fun bn => fits s request bn.2 = false) (walk fuel (nodes s) p)
  end.
Proof.
  induction fuel as [|fuel IH]; intros p s r s' H.
  { destruct p; [done|]. injection H as <- <-. done. }
  destruct p as [a|]; [|injection H as <- <-; done].
  cbn [find_block_region_loop] in H.
  destruct (nodes s !! a) as [n|] eqn:Hn; cycle 1.
  { unfold is_available, load, bind in H. by rewrite Hn in H. }
  assert (Hla : live (nodes s) (Some a)) by (intros b [= <-]; by eexists).
  rewrite (bind_eq _ _ _ _ _ (is_available_live _ _ Hla)) in H.
  rewrite (bind_eq _ _ _ _ _ (load_eq _ _ _ Hn)) in H.
  cbn [node_available] in H. rewrite Hn in H.
  cbn [walk]. rewrite Hn.
  assert (Hskip : fits s request n = false ->
    find_block_region_loop fuel request (next_ptr n) s = Some (r, s') ->
    s' = s /\
    match r with
    | Some a0 =>
        exists l1 n0 l2,
          (a, n) :: walk fuel (nodes s) (next_ptr n) = l1 ++ (a0, n0) :: l2
          /\ Forall (fun bn => fits s request bn.2 = false) l1
          /\ fits s request n0 = true
    | None => Forall (fun bn => fits s request bn.2 = false)
                ((a, n) :: walk fuel (nodes s) (next_ptr n))
    end).
  { intros Hf Hrec. destruct (IH _ _ _ _ Hrec) as [-> Hr]. split; [done|].
    destruct r as [a0|].
    - destruct Hr as (l1 & n0 & l2 & E & F & Hfit).
      exists ((a, n) :: l1), n0, l2. rewrite E. split; [done|].
      split; [by constructor|done].
    - by constructor. }
  destruct (available n) eqn:Eav; cbn [negb] in H.
  2: { apply Hskip; [|done]. unfold fits. by rewrite Eav. }
  destruct (is_compatible_block_region n (rq_properties request)) eqn:Ec;
    cbn [negb] in H.
  2: { apply Hskip; [|done]. unfold fits. by rewrite Eav, Ec. }
  destruct (mr_size (memory n) <? rq_size request) eqn:E1.
  { apply Hskip; [|done]. unfold fits. rewrite Eav, Ec. apply Z.ltb_lt in E1.
    rewrite (proj2 (Z.leb_gt _ _)) by lia. done. }
  rewrite (bind_eq get_block _ _ _ _ eq_refl) in H. cbn zeta in H.
  destruct (mr_size (memory n) <? aligned_size _ _ _) eqn:E2.
  { apply Hskip; [|done]. unfold fits. rewrite Eav, Ec. apply Z.ltb_lt in E2.
    rewrite (proj2 (Z.leb_gt (aligned_size _ _ _) _)) by lia.
    by rewrite andb_false_r. }
  destruct (wrap64 _ <=? _) eqn:E3.
  2: { apply Hskip; [|exact H]. unfold fits. rewrite E3. by rewrite andb_false_r. }
  injection H as <- <-. split; [done|]. exists [], n, (walk fuel (nodes s) (next_ptr n)).
  split; [done|]. split; [constructor|].
  unfold fits. rewrite Eav, Ec, E3. apply Z.ltb_ge in E1. apply Z.ltb_ge in E2.
  rewrite (proj2 (Z.leb_le (rq_size request) _)) by lia.
  rewrite (proj2 (Z.leb_le (aligned_size _ _ _) _)) by lia. done.
Qed.

Lemma find_block_region_spec request s r s' :
  find_block_region request s = Some (r, s') ->
  s' = s /\
  match r with
  | Some a =>
      exists l1 n l2,
        region_list s = l1 ++ (a, n) :: l2
        /\ Forall (fun bn => fits s request bn.2 = false) l1
        /\ fits s request n = true
  | None => Forall (fun bn => fits s request bn.2 = false) (region_list s)
  end.
Proof.
  unfold find_block_region. intros H. repeat mstep.
  by apply find_block_region_loop_spec.
Qed.

(** The nodes of [walk] are nodes of the store. *)
Lemma walk_lookup fuel h : forall p a n,
  (a, n) ∈ walk fuel h p -> h !! a = Some n.
Proof.
  induction fuel as [|fuel IH]; intros p a n; [by rewrite elem_of_nil|].
  destruct p as [b|]; [|by rewrite elem_of_nil]. cbn.
  destruct (h !! b) as [nb|] eqn:Hb; [|by rewrite elem_of_nil].
  rewrite elem_of_cons. intros [[= -> ->]|H]; [done|]. by eapply IH.
Qed.

(** ** [reserve] *)

Lemma fits_available s request n : fits s request n = true -> available n = true.
Proof.
  unfold fits. intros H. do 4 (apply andb_true_iff in H as [H _]). done.
Qed.

Lemma available_status n :
  available n = true -> status n = Available /\ usage_count n <= 0.
Proof.
  unfold available. intros H. apply andb_true_iff in H as [H1 H2].
  apply bool_decide_eq_true in H2. apply negb_true_iff in H1.
  apply Z.ltb_ge in H1. done.
Qed.

Lemma can_split_eq s a n size :
  nodes s !! a = Some n ->
  can_split a size s = Some ((size <? mr_size (memory n)) && (usage_count n =? 0), s).
Proof. intros H. unfold can_split. by mstep. Qed.

Lemma reserve_selected s l request a n :
  well_formed s l ->
  0 < rq_size request ->
  (wrap64 (mb_size (blk_memory (block s)) - blk_reserved (block s)) <? rq_size request) = false ->
  find_block_region request s = Some (Some a, s) ->
  nodes s !! a = Some n ->
  status n = Available ->
  reserve request s = Some (Some a, after_reserve a n request s).
Proof.
  intros Hwf Hpos Hrem Hfind Hn Hst.
  assert (Ha : a ∈ l) by (apply (wf_dom _ _ Hwf); by eexists).
  apply list_elem_of_split in Ha as (l1 & l2 & ->).
  destruct (well_formed_at _ _ _ _ Hwf) as (n' & Hn' & _ & Hnext & _ & Hln).
  assert (n' = n) as -> by congruence.
  assert (Hfresh : nodes s !! arena_next s = None).
  { apply eq_None_not_Some. rewrite <- (wf_dom _ _ Hwf). intros H.
    apply (wf_fresh _ _ Hwf) in H. lia. }
  assert (Hxa : next_ptr n <> Some a).
  { rewrite Hnext. destruct l2 as [|x l2]; [done|]. intros [= ->].
    pose proof (wf_nodup _ _ Hwf) as Hnd. apply NoDup_app in Hnd as (_ & _ & Hnd).
    apply NoDup_cons in Hnd as (Hnd & _). apply Hnd. by left. }
  unfold reserve. rewrite (proj2 (Z.ltb_lt _ _)) by done.
  cbn [halide_abort_if_false]. repeat mstep. rewrite Hrem.
  rewrite (bind_eq _ _ _ _ _ Hfind).
  rewrite (bind_eq _ _ _ _ _ (can_split_eq _ _ _ _ Hn)).
  unfold after_reserve, placed, splits.
  destruct ((rq_size request <? mr_size (memory n)) && (usage_count n =? 0)).
  - rewrite bind_assoc.
    rewrite (bind_eq _ _ _ _ _ (split_block_region_eq _ _ _ _ _ Hn Hfresh Hln Hxa)).
    repeat mstep.
    erewrite (bind_eq (alloc_block_region _)); cycle 1.
    { apply alloc_block_region_eq; [apply lookup_insert_eq|].
      unfold shrunk, unhandled. by destruct (needs_free n). }
    repeat mstep. cbn. rewrite !insert_insert_eq. reflexivity.
  - repeat mstep.
    erewrite (bind_eq (alloc_block_region _)) by (by apply alloc_block_region_eq).
    repeat mstep. cbn. rewrite !insert_insert_eq. reflexivity.
Qed.

Lemma reserve_inv s l request r s' :
  well_formed s l ->
  reserve request s = Some (r, s') ->
  0 < rq_size request /\
  ((r = None /\ s' = s)
   \/ (exists a n l1 l2,
         r = Some a
         /\ (wrap64 (mb_size (blk_memory (block s)) - blk_reserved (block s))
             <? rq_size request) = false
         /\ region_list s = l1 ++ (a, n) :: l2
         /\ Forall (fun bn => fits s request bn.2 = false) l1
         /\ fits s request n = true
         /\ nodes s !! a = Some n
         /\ s' = after_reserve a n request s)).
Proof.
  intros Hwf H. pose proof H as H0. unfold reserve in H.
  destruct (0 <? rq_size request) eqn:Epos; [|done]. apply Z.ltb_lt in Epos.
  split; [done|].
  cbn [halide_abort_if_false] in H. repeat mstep.
  rewrite (bind_eq (ret tt) _ _ _ _ eq_refl) in H.
  rewrite (bind_eq get_block _ _ _ _ eq_refl) in H. cbn zeta in H.
  destruct (wrap64 _ <? rq_size request) eqn:Erem.
  { injection H as <- <-. by left. }
  apply bind_inv in H as (r0 & s0 & Hfind & H).
  destruct (find_block_region_spec _ _ _ _ Hfind) as [-> Hr].
  destruct r0 as [a|]; [|injection H as <- <-; by left].
  destruct Hr as (l1 & n & l2 & El & Hno & Hfit).
  assert (Hn : nodes s !! a = Some n).
  { apply (walk_lookup (size (nodes s)) _ (blk_regions (block s))).
    fold (region_list s). rewrite El, elem_of_app, elem_of_cons. tauto. }
  destruct (available_status _ (fits_available _ _ _ Hfit)) as [Hst _].
  rewrite (reserve_selected _ _ _ _ _ Hwf Epos Erem Hfind Hn Hst) in H0.
  injection H0 as <- <-. right. exists a, n, l1, l2. done.
Qed.

(** ** The release of all regions *)

Lemma released_links n :
  prev_ptr (released n) = prev_ptr n /\ next_ptr (released n) = next_ptr n.
Proof. unfold released. by destruct (0 <? usage_count n). Qed.

Lemma reserved_after_release_frame h h' l : forall r,
  (forall a, a ∈ l -> h' !! a = h !! a) ->
  reserved_after_release h' r l = reserved_after_release h r l.
Proof.
  induction l as [|a l IH]; intros r Hf; [done|]. cbn.
  rewrite Hf by (by left). destruct (h !! a) as [n|]; [|done].
  apply IH. intros b Hb. apply Hf. by right.
Qed.

Lemma reserved_after_release_walk h l w : forall r,
  w.*1 = l ->
  Forall (fun an => h !! an.1 = Some an.2) w ->
  reserved_after_release h r l = reserved_after_release_all r w.
Proof.
  revert l. induction w as [|[a n] w IH]; intros l r E F.
  { by subst l. }
  subst l. apply Forall_cons in F as [Hn F]. cbn in *. rewrite Hn. by apply IH.
Qed.

Lemma release_all_loop_spec l : forall s pred p fuel,
  wfseg (nodes s) pred p l None ->
  NoDup l ->
  (length l <= fuel)%nat ->
  exists s',
    release_all_loop fuel p s = Some (tt, s')
    /\ (forall b, nodes s' !! b =
                  if decide (b ∈ l) then released <$> nodes s !! b else nodes s !! b)
    /\ blk_reserved (block s') =
         reserved_after_release (nodes s) (blk_reserved (block s)) l
    /\ history s' = history s
    /\ arena_next s' = arena_next s
    /\ allocators s' = allocators s
    /\ block_addr s' = block_addr s
    /\ blk_memory (block s') = blk_memory (block s)
    /\ blk_regions (block s') = blk_regions (block s).
Proof.
  induction l as [|a l IH]; intros s pred p fuel Hseg Hnd Hlen.
  { cbn in Hseg. subst p. exists s. split; [by destruct fuel|].
    split; [|done]. intros b. rewrite decide_False; [done|]. apply not_elem_of_nil. }
  destruct Hseg as (-> & n & Hn & Hprev & Hrest).
  apply NoDup_cons in Hnd as (Ha & Hnd).
  destruct fuel as [|fuel]; [cbn in Hlen; lia|]. cbn in Hlen.
  destruct (released_links n) as (Ep & Ex).
  set (s1 := after_release_block_region a n s).
  assert (Hrest1 : wfseg (nodes s1) (Some a) (next_ptr n) l None).
  { eapply wfseg_frame; [|exact Hrest]. intros b Hb. cbn.
    rewrite lookup_insert_ne; [done|]. by intros ->. }
  destruct (IH s1 (Some a) (next_ptr n) fuel Hrest1 Hnd) as
    (s' & Hrun & Hnodes & Hres & Hh & Han & Hal & Hba & Hbm & Hbr); [lia|].
  exists s'. split.
  { cbn [release_all_loop].
    rewrite (bind_eq _ _ _ _ _ (release_block_region_eq _ _ _ Hn)). fold s1.
    erewrite (bind_eq (rd _ _)) by (apply rd_eq; apply lookup_insert_eq).
    by rewrite Ex. }
  split.
  { intros b. rewrite Hnodes. cbn [nodes s1 after_release_block_region with_nodes].
    destruct (decide (b = a)) as [->|Hne].
    - rewrite (decide_False _ _ Ha), decide_True by (by left).
      by rewrite lookup_insert_eq, Hn.
    - rewrite lookup_insert_ne by done.
      destruct (decide (b ∈ l)) as [Hb|Hb].
      + rewrite decide_True; [done|by right].
      + rewrite decide_False; [done|]. rewrite elem_of_cons. tauto. }
  split.
  { rewrite Hres. cbn [reserved_after_release]. rewrite Hn.
    apply reserved_after_release_frame. intros b Hb. cbn.
    rewrite lookup_insert_ne; [done|]. by intros ->. }
  done.
Qed.

(** ** Reachable states have a well-formed region list *)

Lemma well_formed_length s l : well_formed s l -> (length l <= size (nodes s))%nat.
Proof.
  intros Hwf. apply NoDup_length_le_size; [apply (wf_nodup _ _ Hwf)|].
  intros a. apply (wf_dom _ _ Hwf).
Qed.

Lemma well_formed_head s l : well_formed s l -> blk_regions (block s) = head l.
Proof.
  intros Hwf. rewrite (wfseg_head _ _ _ _ _ (wf_chain _ _ Hwf)). by destruct l.
Qed.

Lemma region_list_well_formed s l :
  well_formed s l ->
  (region_list s).*1 = l
  /\ Forall (fun an => nodes s !! an.1 = Some an.2) (region_list s).
Proof.
  intros Hwf. eapply walk_wfseg; [apply (wf_chain _ _ Hwf)|].
  by apply well_formed_length.
Qed.

Lemma create_eq baddr b ma :
  create baddr b ma =
    Some {| block_addr := baddr; block := set_regions (Some 0%nat) b;
            nodes := <[0%nat := initial_region baddr b]> ∅;
            arena_next := 1%nat; allocators := ma; history := [] |}.
Proof.
  unfold create, initialize, create_block_region, initial_region.
  repeat mstep. cbn. by rewrite insert_insert_eq.
Qed.

Lemma create_well_formed baddr b ma s :
  create baddr b ma = Some s -> well_formed s [0%nat].
Proof.
  rewrite create_eq. intros [= <-]. split; cbn.
  - split; [done|]. exists (initial_region baddr b).
    split; [apply lookup_insert_eq|]. split; [by left|done].
  - apply NoDup_singleton.
  - intros a. rewrite list_elem_of_singleton. split.
    + intros ->. rewrite lookup_insert_eq. by eexists.
    + intros [n Hn]. destruct (decide (a = 0%nat)) as [->|Hne]; [done|].
      rewrite lookup_insert_ne in Hn by done. by rewrite lookup_empty in Hn.
  - intros a. rewrite list_elem_of_singleton. intros ->. lia.
  - intros a n. destruct (decide (a = 0%nat)) as [->|Hne].
    + rewrite lookup_insert_eq. by intros [= <-].
    + rewrite lookup_insert_ne by done. by rewrite lookup_empty.
Qed.

Lemma allocated_links ma n :
  prev_ptr (allocated ma n) = prev_ptr n /\ next_ptr (allocated ma n) = next_ptr n
  /\ block_ptr (allocated ma n) = block_ptr n.
Proof. unfold allocated. by destruct (mr_handle (memory n) =? 0). Qed.

Lemma decremented_links n :
  prev_ptr (decremented n) = prev_ptr n /\ next_ptr (decremented n) = next_ptr n
  /\ block_ptr (decremented n) = block_ptr n.
Proof. unfold decremented. by destruct (0 <? usage_count n). Qed.

Lemma freed_links n :
  prev_ptr (freed n) = prev_ptr n /\ next_ptr (freed n) = next_ptr n
  /\ block_ptr (freed n) = block_ptr n.
Proof. unfold freed. by destruct (needs_free n). Qed.

Lemma released_owner n : block_ptr (released n) = block_ptr n.
Proof. unfold released. by destruct (0 <? usage_count n). Qed.

Lemma well_formed_after_reserve s l1 a l2 n request :
  well_formed s (l1 ++ a :: l2) ->
  nodes s !! a = Some n ->
  well_formed (after_reserve a n request s)
    (if splits n request then l1 ++ a :: arena_next s :: l2 else l1 ++ a :: l2).
Proof.
  intros Hwf Hn. unfold after_reserve, placed.
  destruct (allocated_links (allocators s) (placed s n request)) as (Ep & Ex & Eo).
  unfold placed in Ep, Ex, Eo.
  destruct (splits n request).
  - eapply well_formed_update;
      [exact (well_formed_split _ _ _ _ _ (rq_size request) (rq_alignment request) Hwf Hn)
      |apply lookup_insert_eq|reflexivity|exact Ep|exact Ex|reflexivity|reflexivity
      |exact Eo|reflexivity].
  - eapply well_formed_update;
      [exact Hwf|exact Hn|reflexivity|exact Ep|exact Ex|reflexivity|reflexivity
      |exact Eo|reflexivity].
Qed.

Lemma collect_spec s l :
  well_formed s l ->
  exists res s' l',
    collect s = Some (res, s')
    /\ well_formed s' l'
    /\ no_adjacent_nodes (nodes s') l'
    /\ block s' = block s
    /\ keeps (nodes s) (nodes s')
    /\ ((res = false /\ s' = s /\ l' = l)
        \/ (res = true /\ (length l' < length l)%nat)).
Proof.
  intros Hwf.
  destruct (collect_loop_spec (size (nodes s)) s [] l false)
    as (res & s' & l' & Hrun & H); [|by apply well_formed_length|].
  { split; [done|]. split.
    - intros l1 x y l2 E. by destruct l1.
    - intros d c nc Hd. done. }
  exists res, s', l'. split; [|done].
  unfold collect. repeat mstep. by rewrite (well_formed_head _ _ Hwf).
Qed.

Lemma coalesce_if_possible_wf s l a :
  well_formed s l -> is_Some (nodes s !! a) ->
  exists s' l',
    coalesce_if_possible a s = Some (tt, s')
    /\ well_formed s' l'
    /\ block s' = block s
    /\ keeps (nodes s) (nodes s')
    /\ (exists evs, history s' = history s ++ evs).
Proof.
  intros Hwf [n Hn].
  assert (Ha : a ∈ l) by (apply (wf_dom _ _ Hwf); by eexists).
  apply list_elem_of_split in Ha as (l1 & l2 & ->).
  destruct (well_formed_at _ _ _ _ Hwf) as (n' & Hn' & _ & _ & Hlp & Hln).
  assert (n' = n) as -> by congruence.
  unfold coalesce_if_possible.
  rewrite (bind_eq _ _ _ _ _ (can_coalesce_eq _ _ _ Hn Hlp Hln)).
  destruct (available n && _).
  - destruct (coalesce_block_regions_wf _ _ _ _ _ Hwf Hn)
      as (a1 & s' & l1' & l2' & n1 & Hco & Hwf' & Hb & [evs Hh] & Hk & _).
    rewrite (bind_eq _ _ _ _ _ Hco). exists s', (l1' ++ a1 :: l2').
    split; [done|]. split; [done|]. split; [done|]. split; [done|]. by eexists.
  - exists s, (l1 ++ a :: l2).
    split; [done|]. split; [done|]. split; [done|]. split; [apply keeps_refl|].
    exists []. by rewrite app_nil_r.
Qed.

Lemma release_all_spec s l :
  well_formed s l ->
  exists s',
    release_all s = Some (tt, s')
    /\ (forall b, nodes s' !! b = released <$> nodes s !! b)
    /\ blk_reserved (block s') =
         reserved_after_release_all (blk_reserved (block s)) (region_list s)
    /\ history s' = history s
    /\ arena_next s' = arena_next s
    /\ allocators s' = allocators s
    /\ block_addr s' = block_addr s
    /\ blk_memory (block s') = blk_memory (block s)
    /\ blk_regions (block s') = blk_regions (block s).
Proof.
  intros Hwf.
  destruct (release_all_loop_spec l s None (blk_regions (block s)) (size (nodes s)))
    as (s' & Hrun & Hnodes & Hres & Hrest);
    [apply (wf_chain _ _ Hwf)|apply (wf_nodup _ _ Hwf)|by apply well_formed_length|].
  exists s'. split. { unfold release_all. by repeat mstep. }
  split.
  { intros b. rewrite Hnodes. destruct (decide (b ∈ l)) as [Hb|Hb]; [done|].
    rewrite (wf_dom _ _ Hwf) in Hb. apply eq_None_not_Some in Hb. by rewrite Hb. }
  split; [|done]. rewrite Hres.
  destruct (region_list_well_formed _ _ Hwf) as [E F].
  by apply reserved_after_release_walk.
Qed.

Lemma well_formed_fmap s s' l f :
  well_formed s l ->
  (forall n, prev_ptr (f n) = prev_ptr n /\ next_ptr (f n) = next_ptr n) ->
  (forall n, block_ptr (f n) = block_ptr n) ->
  (forall b, nodes s' !! b = f <$> nodes s !! b) ->
  blk_regions (block s') = blk_regions (block s) ->
  arena_next s' = arena_next s ->
  block_addr s' = block_addr s ->
  well_formed s' l.
Proof.
  intros [Hc Hnd Hdom Hfr Hown] Hf Hfo Hn Er Ea Eb. split.
  - rewrite Er. eapply wfseg_mono; [|exact Hc]. intros a n Ha Hna.
    exists (f n). rewrite Hn, Hna. destruct (Hf n). done.
  - done.
  - intros a. rewrite Hdom, Hn. by rewrite fmap_is_Some.
  - intros a. rewrite Ea. apply Hfr.
  - intros a n. rewrite Hn, Eb. destruct (nodes s !! a) as [n0|] eqn:E; [|done].
    intros [= <-]. rewrite Hfo. by eapply Hown.
Qed.

Lemma call_well_formed s l c s' :
  well_formed s l -> call c s = Some (tt, s') -> exists l', well_formed s' l'.
Proof.
  intros Hwf H. destruct c as [request|a|a|a| |]; cbn [call] in H.
  - apply bind_inv in H as (r & s1 & H & Hret). injection Hret as <-.
    destruct (reserve_inv _ _ _ _ _ Hwf H) as
      [_ [[_ ->]|(a & n & l1 & l2 & _ & _ & _ & _ & _ & Hn & ->)]]; [by exists l|].
    assert (Ha : a ∈ l) by (apply (wf_dom _ _ Hwf); by eexists).
    apply list_elem_of_split in Ha as (k1 & k2 & ->).
    eexists. by apply well_formed_after_reserve.
  - pose proof H as H0. unfold release in H0.
    apply bind_inv in H0 as (u & s1 & Hck & _).
    apply check_block_ptr_inv in Hck as (_ & n & Hn & Hbp).
    rewrite (release_eq _ _ _ Hn Hbp) in H. injection H as <-.
    exists l. destruct (released_links (decremented n)) as [E1 E2].
    destruct (decremented_links n) as (E3 & E4 & E5).
    pose proof (released_owner (decremented n)) as E6.
    eapply well_formed_update;
      [exact Hwf|exact Hn|reflexivity| | |reflexivity|reflexivity| |reflexivity];
      congruence.
  - pose proof H as H0. unfold reclaim in H0.
    apply bind_inv in H0 as (u & s1 & Hck & _).
    apply check_block_ptr_inv in Hck as (_ & n & Hn & Hbp).
    rewrite (reclaim_eq _ _ _ Hn Hbp) in H.
    destruct (released_links (decremented n)) as [E1 E2].
    destruct (decremented_links n) as (E3 & E4 & E7).
    destruct (freed_links (released (decremented n))) as (E5 & E6 & E8).
    pose proof (released_owner (decremented n)) as E9.
    match type of H with coalesce_if_possible a ?s0 = _ =>
      assert (Hwf0 : well_formed s0 l) end.
    { eapply well_formed_update;
        [exact Hwf|exact Hn|reflexivity| | |reflexivity|reflexivity| |reflexivity];
        congruence. }
    edestruct (coalesce_if_possible_wf _ _ a Hwf0) as (s2 & l2 & Hrun & Hwf2 & _).
    { cbn. rewrite lookup_insert_eq. by eexists. }
    rewrite Hrun in H. injection H as <-. by exists l2.
  - pose proof H as H0. unfold retain in H0.
    apply bind_inv in H0 as (u & s1 & Hck & _).
    apply check_block_ptr_inv in Hck as (_ & n & Hn & Hbp).
    rewrite (retain_eq _ _ _ Hn Hbp) in H. injection H as <-.
    exists l.
    eapply well_formed_update; [exact Hwf|exact Hn|reflexivity|done..].
  - destruct (collect_spec _ _ Hwf) as (res & s2 & l2 & Hrun & Hwf2 & _).
    rewrite (bind_eq _ _ _ _ _ Hrun) in H. injection H as <-. by exists l2.
  - destruct (release_all_spec _ _ Hwf) as (s2 & Hrun & Hnodes & _ & _ & Ea & _ & Eb & _ & Er).
    rewrite Hrun in H. injection H as <-. exists l.
    eapply well_formed_fmap;
      [exact Hwf|apply released_links|apply released_owner|exact Hnodes|done..].
Qed.

Lemma reachable_well_formed s : reachable s -> exists l, well_formed s l.
Proof.
  induction 1 as [baddr b ma s Hc|s c s' _ [l Hwf] Hcall].
  - exists [0%nat]. by eapply create_well_formed.
  - by eapply call_well_formed.
Qed.

(** ** Auxiliary facts for the claims *)

Lemma calls_reachable cs : forall s s',
  reachable s -> calls cs s = Some s' -> reachable s'.
Proof.
  induction cs as [|c cs IH]; intros s s' Hr H; cbn in H.
  - by injection H as <-.
  - destruct (call c s) as [[[] s1]|] eqn:E; [|done].
    eapply IH; [|exact H]. by eapply reachable_call.
Qed.

Lemma after_reachable ma al cs s : after ma al cs = Some s -> reachable s.
Proof.
  unfold after. destruct (create 0 (test_block al) ma) as [s0|] eqn:E; [|done].
  apply calls_reachable. by eapply reachable_create.
Qed.

Lemma test_allocator_reachable ma al : reachable (test_allocator ma al).
Proof. eapply reachable_create. apply create_eq. Qed.

Lemma reserve_reachable s request r s' :
  reachable s -> reserve request s = Some (r, s') -> reachable s'.
Proof.
  intros Hr H. apply (reachable_call s (CallReserve request)); [done|].
  cbn. by rewrite (bind_eq _ _ _ _ _ H).
Qed.

Lemma reclaim_reachable s a s' :
  reachable s -> reclaim a s = Some (tt, s') -> reachable s'.
Proof. intros Hr H. by apply (reachable_call s (CallReclaim a)). Qed.

Lemma is_compatible_block_region_spec n p :
  is_compatible_block_region n p = true <-> compatible (mr_properties (memory n)) p.
Proof.
  unfold is_compatible_block_region, compatible.
  repeat case_bool_decide; cbn; split; try done; try tauto; intros (H1 & H2 & H3);
    destruct H1, H2, H3; congruence.
Qed.

Lemma region_list_length s l : well_formed s l -> length (region_list s) = length l.
Proof.
  intros Hwf. destruct (region_list_well_formed _ _ Hwf) as [<- _].
  by rewrite length_fmap.
Qed.

Lemma no_adjacent_region_list s l :
  well_formed s l ->
  no_adjacent_nodes (nodes s) l ->
  no_adjacent available (region_list s).
Proof.
  intros Hwf Hadj. destruct (region_list_well_formed _ _ Hwf) as [E F].
  clear Hwf. revert l E Hadj. induction F as [|[a n] w Hn F IH]; intros l E Hadj; [done|].
  destruct w as [|[a' n'] w]; [done|]. subst l. cbn in *. split.
  - specialize (Hadj [] a a' (w.*1) eq_refl). cbn in Hadj.
    apply Forall_cons in F as [Hn' _]. cbn in Hn'. by rewrite Hn, Hn' in Hadj.
  - apply (IH _ eq_refl). intros l1 x y l2 El.
    apply (Hadj (a :: l1) x y l2). cbn. by rewrite El.
Qed.

Lemma find_block_region_loop_total request l : forall s pred p fuel,
  wfseg (nodes s) pred p l None ->
  (length l <= fuel)%nat ->
  exists r, find_block_region_loop fuel request p s = Some (r, s).
Proof.
  induction l as [|a l IH]; intros s pred p fuel Hseg Hlen.
  { cbn in Hseg. subst p. exists None. by destruct fuel. }
  destruct Hseg as (-> & n & Hn & _ & Hrest).
  destruct fuel as [|fuel]; [cbn in Hlen; lia|]. cbn in Hlen.
  destruct (IH s (Some a) (next_ptr n) fuel Hrest) as [r Hr]; [lia|].
  cbn [find_block_region_loop].
  assert (Hla : live (nodes s) (Some a)) by (intros b [= <-]; by eexists).
  rewrite (bind_eq _ _ _ _ _ (is_available_live _ _ Hla)).
  rewrite (bind_eq _ _ _ _ _ (load_eq _ _ _ Hn)).
  destruct (negb _); [by exists r|].
  destruct (negb _); [by exists r|].
  destruct (_ <? _); [by exists r|].
  rewrite (bind_eq get_block _ _ _ _ eq_refl). cbn zeta.
  destruct (_ <? _); [by exists r|].
  destruct (_ <=? _); [by exists (Some a)|by exists r].
Qed.

Lemma reserve_total s l request :
  well_formed s l -> 0 < rq_size request ->
  exists r s', reserve request s = Some (r, s').
Proof.
  intros Hwf Hpos.
  destruct (wrap64 (mb_size (blk_memory (block s)) - blk_reserved (block s))
            <? rq_size request) eqn:Erem.
  { exists None, s. unfold reserve. rewrite (proj2 (Z.ltb_lt _ _)) by done.
    cbn [halide_abort_if_false]. repeat mstep. by rewrite Erem. }
  destruct (find_block_region_loop_total request l s None (blk_regions (block s))
              (size (nodes s))) as [r Hr];
    [apply (wf_chain _ _ Hwf)|by apply well_formed_length|].
  assert (Hfind : find_block_region request s = Some (r, s)).
  { unfold find_block_region. by repeat mstep. }
  destruct r as [a|].
  - destruct (find_block_region_spec _ _ _ _ Hfind) as [_ (l1 & n & l2 & El & _ & Hfit)].
    assert (Hn : nodes s !! a = Some n).
    { apply (walk_lookup (size (nodes s)) _ (blk_regions (block s))).
      fold (region_list s). rewrite El, elem_of_app, elem_of_cons. tauto. }
    destruct (available_status _ (fits_available _ _ _ Hfit)) as [Hst _].
    eexists _, _. by eapply reserve_selected.
  - exists None, s. unfold reserve. rewrite (proj2 (Z.ltb_lt _ _)) by done.
    cbn [halide_abort_if_false]. repeat mstep. rewrite Erem.
    by rewrite (bind_eq _ _ _ _ _ Hfind).
Qed.

Lemma reclaim_parts a s :
  reclaim a s = (reclaim_until_free a ;;; coalesce_if_possible a) s.
Proof.
  unfold reclaim, reclaim_until_free, coalesce_if_possible, bind.
  destruct (check_block_ptr a s) as [[? s1]|]; [|done].
  destruct (decrement_usage a s1) as [[? s2]|]; [|done].
  destruct (release_block_region a s2) as [[? s3]|]; [|done].
  by destruct (free_block_region a s3) as [[? s4]|].
Qed.

Lemma reclaim_until_free_eq s a n :
  nodes s !! a = Some n -> block_ptr n = block_addr s ->
  reclaim_until_free a s =
    Some (tt,
      with_history (history s ++ dealloc_events (allocators s) a (released (decremented n)))
         (with_nodes (<[a := freed (released (decremented n))]> (nodes s))
            (with_block (set_reserved (release_reserved (blk_reserved (block s)) (decremented n))
                           (block s)) s))).
Proof.
  intros H E. unfold reclaim_until_free.
  rewrite (bind_eq _ _ _ _ _ (check_block_ptr_eq _ _ _ H E)).
  rewrite (bind_eq _ _ _ _ _ (decrement_usage_eq _ _ _ H)).
  erewrite (bind_eq (release_block_region _)) by (apply release_block_region_eq; solve_lookup).
  erewrite free_block_region_eq by solve_lookup.
  unfold after_release_block_region. cbn. by rewrite !insert_insert_eq.
Qed.

Lemma placed_memory s n request :
  mr_offset (memory (placed s n request)) = mr_offset (memory n)
  /\ mr_properties (memory (placed s n request)) = mr_properties (memory n)
  /\ mr_dedicated (memory (placed s n request)) = mr_dedicated (memory n)
  /\ status (placed s n request) = status n
  /\ mr_size (memory (placed s n request))
     = (if splits n request then rq_size request else mr_size (memory n)).
Proof.
  unfold placed, shrunk, unhandled.
  destruct (splits n request); [|done]. by destruct (needs_free n).
Qed.

Lemma allocated_memory ma n :
  mr_offset (memory (allocated ma n)) = mr_offset (memory n)
  /\ mr_properties (memory (allocated ma n)) = mr_properties (memory n)
  /\ mr_size (memory (allocated ma n)) = mr_size (memory n)
  /\ mr_dedicated (memory (allocated ma n)) = mr_dedicated (memory n)
  /\ usage_count (allocated ma n) = usage_count n
  /\ status (allocated ma n) = (if mr_dedicated (memory n) then Dedicated else InUse)
  /\ mr_handle (memory (allocated ma n))
     = (if mr_handle (memory n) =? 0 then snd (allocate ma (memory n))
        else mr_handle (memory n)).
Proof. unfold allocated. by destruct (mr_handle (memory n) =? 0). Qed.

Lemma after_reserve_node a n request s :
  nodes (after_reserve a n request s) !! a
  = Some (set_usage_count 1 (allocated (allocators s) (placed s n request))).
Proof. unfold after_reserve. cbn. apply lookup_insert_eq. Qed.

Lemma fits_size s request n :
  fits s request n = true ->
  rq_size request <= mr_size (memory n)
  /\ is_compatible_block_region n (rq_properties request) = true.
Proof.
  unfold fits. intros H.
  do 2 (apply andb_true_iff in H as [H _]).
  apply andb_true_iff in H as [H H3]. apply andb_true_iff in H as [_ H2].
  apply Z.leb_le in H3. done.
Qed.

Lemma wrap32_small z : 0 <= z < 2 ^ 32 -> wrap32 z = z.
Proof. intros H. unfold wrap32. by apply Z.mod_small. Qed.

(** ** Sums over the live nodes *)

Section total.
Context (w : BlockRegion -> Z).

Lemma total_empty : total w ∅ = 0.
Proof. unfold total. by rewrite map_fold_empty. Qed.

Lemma total_insert_fresh h a n :
  h !! a = None -> total w (<[a := n]> h) = w n + total w h.
Proof.
  intros Hn. unfold total. rewrite map_fold_insert_L; [done| |done].
  intros. lia.
Qed.

Lemma total_delete h a n :
  h !! a = Some n -> total w (delete a h) = total w h - w n.
Proof.
  intros Hn. unfold total.
  rewrite (map_fold_delete_L _ _ a n h); [lia| |done].
  intros. lia.
Qed.

Lemma total_insert h a n n' :
  h !! a = Some n -> total w (<[a := n']> h) = total w h - w n + w n'.
Proof.
  intros Hn. rewrite <- (insert_delete_eq h).
  rewrite total_insert_fresh by apply lookup_delete_eq.
  rewrite (total_delete h a n) by done. lia.
Qed.

Lemma total_insert_same h a n n' :
  h !! a = Some n -> w n' = w n -> total w (<[a := n']> h) = total w h.
Proof. intros Hn E. rewrite (total_insert h a n) by done. lia. Qed.

(** Two stores in which every address weighs the same have the same
    total; an address that is not live weighs nothing. *)
Lemma total_ext h : forall h',
  (forall a, from_option w 0 (h !! a) = from_option w 0 (h' !! a)) ->
  total w h = total w h'.
Proof.
  induction h as [|a n h Hn IH] using map_ind; intros h' E.
  - rewrite total_empty.
    induction h' as [|a n h' Hn IH] using map_ind; [by rewrite total_empty|].
    rewrite total_insert_fresh by done.
    pose proof (E a) as Ea. rewrite lookup_empty, lookup_insert_eq in Ea. cbn in Ea.
    rewrite <- IH; [lia|]. intros b. rewrite lookup_empty. cbn.
    destruct (decide (b = a)) as [->|Hne]; [by rewrite Hn|].
    specialize (E b). by rewrite lookup_empty, lookup_insert_ne in E.
  - rewrite total_insert_fresh by done.
    pose proof (E a) as Ea. rewrite lookup_insert_eq in Ea. cbn in Ea.
    destruct (h' !! a) as [n'|] eqn:Hn'; cbn in Ea.
    + rewrite (IH (delete a h')).
      * rewrite (total_delete h' a n') by done. lia.
      * intros b. destruct (decide (b = a)) as [->|Hne].
        -- by rewrite Hn, lookup_delete_eq.
        -- rewrite lookup_delete_ne by done. specialize (E b).
           by rewrite lookup_insert_ne in E.
    + rewrite (IH h'); [lia|]. intros b.
      destruct (decide (b = a)) as [->|Hne]; [by rewrite Hn, Hn'|].
      specialize (E b). by rewrite lookup_insert_ne in E.
Qed.

(** The total of the store is the sum along a list that holds every live
    node once. *)
Lemma total_list (l : list nat) : forall h,
  NoDup l -> (forall a, a ∈ l <-> is_Some (h !! a)) ->
  total w h = foldr (fun a acc => from_option w 0 (h !! a) + acc) 0 l.
Proof.
  induction l as [|a l IH]; intros h Hnd Hdom.
  - assert (h = ∅) as ->; [|by rewrite total_empty].
    apply map_empty. intros a. apply eq_None_not_Some.
    rewrite <- Hdom. apply not_elem_of_nil.
  - apply NoDup_cons in Hnd as [Ha Hnd].
    destruct (proj1 (Hdom a)) as [n Hn]; [by left|].
    cbn. rewrite Hn. cbn.
    rewrite <- (insert_delete_id h a n) at 1 by done.
    rewrite total_insert_fresh by apply lookup_delete_eq.
    rewrite (IH (delete a h)); [|done|].
    + f_equal. clear IH Hdom. induction l as [|b l IH]; [done|].
      cbn. rewrite lookup_delete_ne.
      * f_equal. apply IH.
        -- intros Hin. apply Ha. by right.
        -- by apply NoDup_cons in Hnd as [_ ?].
      * intros ->. apply Ha. by left.
    + intros b. destruct (decide (b = a)) as [->|Hne].
      * rewrite lookup_delete_eq. split; [done|]. by intros [? ?].
      * rewrite lookup_delete_ne by done. rewrite <- Hdom, elem_of_cons. tauto.
Qed.
End total.

(** ** What merges leave of a state *)

Lemma settled_refl n : settled n n.
Proof. unfold settled. tauto. Qed.

Lemma settled_available n n' : settled n n' -> available n' = available n.
Proof. intros (E1 & E2 & _). unfold available. by rewrite E1, E2. Qed.

Lemma settled_trans n1 n2 n3 : settled n1 n2 -> settled n2 n3 -> settled n1 n3.
Proof.
  intros H12 H23. pose proof (settled_available _ _ H12) as Eav.
  destruct H12 as (A1 & A2 & A3 & A4 & A5 & A6 & A7 & A8 & A9).
  destruct H23 as (B1 & B2 & B3 & B4 & B5 & B6 & B7 & B8 & B9).
  unfold settled. repeat split; try congruence.
  - intros E. rewrite B7, A7; [done..|]. by rewrite Eav.
  - tauto.
  - destruct B9 as [B9|B9]; [|by right]. rewrite B9. exact A9.
Qed.

Lemma settled_kept n n' : settled n n' -> kept n n'.
Proof. unfold settled, kept. tauto. Qed.

Lemma merged_refl s : merged s s.
Proof.
  split; [done|done|done| | |].
  - intros b nb' H. exists nb'. split; [done|apply settled_refl].
  - intros b nb H _. by eexists.
  - exists []. rewrite app_nil_r. split; [done|]. split; [done|]. split; [done|].
    cbn. lia.
Qed.

Lemma count_allocate_app l1 l2 :
  count_allocate (l1 ++ l2) = count_allocate l1 + count_allocate l2.
Proof. induction l1 as [|[] l1 IH]; cbn; lia. Qed.

Lemma count_deallocate_app l1 l2 :
  count_deallocate (l1 ++ l2) = count_deallocate l1 + count_deallocate l2.
Proof. induction l1 as [|[] l1 IH]; cbn; lia. Qed.

Lemma merged_trans s1 s2 s3 : merged s1 s2 -> merged s2 s3 -> merged s1 s3.
Proof.
  intros [A1 A2 A3 A4 A5 (ev1 & E1 & F1 & Ca1 & Cd1)]
         [B1 B2 B3 B4 B5 (ev2 & E2 & F2 & Ca2 & Cd2)].
  split; [congruence|congruence|congruence| | |].
  - intros b nb3 H3. destruct (B4 _ _ H3) as (nb2 & H2 & S23).
    destruct (A4 _ _ H2) as (nb1 & H1 & S12).
    exists nb1. split; [done|]. by eapply settled_trans.
  - intros b nb1 H1 Eav. destruct (A5 _ _ H1 Eav) as [nb2 H2].
    destruct (A4 _ _ H2) as (nb1' & H1' & S12).
    assert (nb1' = nb1) as -> by congruence.
    apply (B5 b nb2 H2). by rewrite (settled_available _ _ S12).
  - exists (ev1 ++ ev2). rewrite E2, E1, app_assoc. split; [done|].
    split; [by apply Forall_app|].
    rewrite count_allocate_app, count_deallocate_app. lia.
Qed.

Lemma dealloc_events_proper ma a n : Forall proper_event (dealloc_events ma a n).
Proof.
  unfold dealloc_events, needs_free.
  destruct (usage_count n =? 0); cbn; [|done].
  destruct (mr_handle (memory n) =? 0) eqn:E; cbn; [done|].
  apply Forall_singleton. cbn. by apply Z.eqb_neq.
Qed.

Lemma dealloc_events_count ma a n :
  count_allocate (dealloc_events ma a n) = 0
  /\ count_deallocate (dealloc_events ma a n)
     = holds_handle n - holds_handle (unhandled n).
Proof.
  unfold dealloc_events, unhandled, holds_handle, needs_free.
  destruct (usage_count n =? 0); cbn; [|lia].
  destruct (mr_handle (memory n) =? 0) eqn:E; cbn; [rewrite E; lia|done].
Qed.

Lemma destroy_events_proper ma x nx : Forall proper_event (destroy_events ma x nx).
Proof.
  unfold destroy_events. apply Forall_app. split; [apply dealloc_events_proper|].
  by apply Forall_singleton.
Qed.

Lemma destroy_events_count ma x nx :
  count_allocate (destroy_events ma x nx) = 0
  /\ count_deallocate (destroy_events ma x nx) = holds_handle nx.
Proof.
  unfold destroy_events, dealloc_events, holds_handle, needs_free. cbn.
  destruct (mr_handle (memory nx) =? 0); cbn; done.
Qed.

(** The handle of an available node is given back. *)
Lemma merged_unhandled s a n :
  nodes s !! a = Some n ->
  available n = true ->
  merged s (with_history (history s ++ dealloc_events (allocators s) a n)
              (with_nodes (<[a := unhandled n]> (nodes s)) s)).
Proof.
  intros Hn Eav. split; [done|done|done| | |]; cbn.
  - intros b nb'. destruct (decide (b = a)) as [->|Hne].
    + rewrite lookup_insert_eq. intros [= <-]. exists n. split; [done|].
      unfold unhandled. destruct (needs_free n); [|apply settled_refl].
      unfold settled. cbn. rewrite Eav. repeat split; try done. by right.
    + rewrite lookup_insert_ne by done. intros H. exists nb'.
      split; [done|apply settled_refl].
  - intros b nb Hb _. destruct (decide (b = a)) as [->|Hne].
    + rewrite lookup_insert_eq. by eexists.
    + rewrite lookup_insert_ne by done. by eexists.
  - eexists. split; [done|]. split; [apply dealloc_events_proper|].
    destruct (dealloc_events_count (allocators s) a n) as [-> ->].
    split; [done|]. rewrite (total_insert _ _ _ _ _ Hn). lia.
Qed.

Lemma grown_settled np nx : available np = true -> settled np (grown np nx).
Proof.
  intros Eav. unfold settled, grown. cbn. rewrite Eav.
  repeat split; try done.
  - intros _. unfold wrap64. apply Z.mod_pos_bound. done.
  - by left.
Qed.

(** A node takes over its successor, both available. *)
Lemma merged_absorb s p x np nx :
  nodes s !! p = Some np -> nodes s !! x = Some nx ->
  p <> x ->
  available np = true -> available nx = true ->
  next_ptr nx <> Some p -> next_ptr nx <> Some x ->
  merged s (with_history (history s ++ destroy_events (allocators s) x nx)
              (with_nodes (absorb (nodes s) p x np nx) s)).
Proof.
  intros Hp Hx Hne Eavp Eavx Hy1 Hy2. split; [done|done|done| | |]; cbn.
  - intros b nb' Hb.
    destruct (decide (b = x)) as [->|Hbx]; [by rewrite lookup_absorb_x in Hb|].
    destruct (decide (b = p)) as [->|Hbp].
    { rewrite lookup_absorb_p in Hb by done. injection Hb as <-.
      exists np. split; [done|by apply grown_settled]. }
    destruct (decide (next_ptr nx = Some b)) as [Ey|Hby].
    + destruct (nodes s !! b) as [ny|] eqn:Hy.
      * erewrite lookup_absorb_next in Hb; [|exact Ey|done|done|exact Hy].
        injection Hb as <-. exists ny. split; [done|]. unfold settled. cbn. tauto.
      * exfalso. unfold absorb, relink in Hb. rewrite Ey, Hy in Hb.
        rewrite lookup_delete_ne, lookup_insert_ne in Hb by done. congruence.
    + rewrite lookup_absorb_other in Hb by done.
      exists nb'. split; [done|apply settled_refl].
  - intros b nb Hb Eav.
    destruct (decide (b = x)) as [->|Hbx]; [congruence|].
    destruct (decide (b = p)) as [->|Hbp]; [congruence|].
    destruct (decide (next_ptr nx = Some b)) as [Ey|Hby].
    + erewrite lookup_absorb_next; [by eexists|exact Ey|done|done|exact Hb].
    + rewrite lookup_absorb_other by done. by eexists.
  - eexists. split; [done|]. split; [apply destroy_events_proper|].
    destruct (destroy_events_count (allocators s) x nx) as [-> ->].
    split; [done|].
    unfold absorb.
    assert (Hrp : relink (nodes s) (next_ptr nx) p !! p = Some np).
    { rewrite lookup_relink_ne by done. done. }
    assert (Hrx : relink (nodes s) (next_ptr nx) p !! x = Some nx).
    { rewrite lookup_relink_ne by done. done. }
    rewrite (total_delete _ _ x nx); [|by rewrite lookup_insert_ne].
    rewrite (total_insert _ _ _ _ _ Hrp).
    assert (Er : total holds_handle (relink (nodes s) (next_ptr nx) p)
                 = total holds_handle (nodes s)).
    { unfold relink. destruct (next_ptr nx) as [y|]; [|done].
      destruct (nodes s !! y) as [ny|] eqn:Hy; [|done].
      by apply total_insert_same with (n := ny). }
    rewrite Er. unfold grown, holds_handle. cbn. lia.
Qed.

Lemma merge_next_merged s l1 a1 l2 n1 r s' :
  well_formed s (l1 ++ a1 :: l2) ->
  nodes s !! a1 = Some n1 ->
  available n1 = true ->
  merge_next a1 s = Some (r, s') ->
  merged s s'.
Proof.
  intros Hwf Hn1 Eav1 Hrun.
  destruct (well_formed_at _ _ _ _ Hwf) as (n & Hn & Hprev & Hnext & Hlp & Hln).
  assert (n = n1) as -> by congruence.
  destruct (node_available (nodes s) (next_ptr n1)) eqn:Eav.
  - rewrite Hnext in Eav. destruct l2 as [|x l2]; [done|]. cbn in Eav.
    destruct (nodes s !! x) as [nx|] eqn:Hx; [|done].
    assert (Hwf' : well_formed s ((l1 ++ [a1]) ++ x :: l2)) by (by rewrite <- app_assoc).
    destruct (well_formed_at _ _ _ _ Hwf') as (nx' & Hnx' & _ & Hnextx & _ & Hlnx).
    assert (nx' = nx) as -> by congruence.
    pose proof (wf_nodup _ _ Hwf) as Hnd.
    apply NoDup_app in Hnd as (_ & _ & Hnd).
    apply NoDup_cons in Hnd as (Ha1 & Hnd).
    apply NoDup_cons in Hnd as (Hx2 & Hnd).
    assert (x <> a1) by (intros ->; apply Ha1; by left).
    assert (Hy1 : next_ptr nx <> Some a1).
    { rewrite Hnextx. destruct l2 as [|y l2]; [done|]. intros [= ->].
      apply Ha1. right. by left. }
    assert (Hy2 : next_ptr nx <> Some x).
    { rewrite Hnextx. destruct l2 as [|y l2]; [done|]. intros [= ->].
      apply Hx2. by left. }
    rewrite (merge_next_eq s a1 n1 x nx) in Hrun by done.
    injection Hrun as <- <-. by apply merged_absorb.
  - rewrite (merge_next_skip s a1 n1) in Hrun by done.
    injection Hrun as <- <-. apply merged_refl.
Qed.

Lemma merge_prev_merged s l1 a l2 n r s' :
  well_formed s (l1 ++ a :: l2) ->
  nodes s !! a = Some n ->
  available n = true ->
  merge_prev a s = Some (r, s') ->
  merged s s'.
Proof.
  intros Hwf Hn Eava Hrun.
  destruct (well_formed_at _ _ _ _ Hwf) as (n' & Hn' & Hprev & Hnext & Hlp & Hln).
  assert (n' = n) as -> by congruence.
  destruct (node_available (nodes s) (prev_ptr n)) eqn:Eav.
  - destruct (prev_ptr n) as [p|] eqn:Ep; [|done]. cbn in Eav.
    destruct (nodes s !! p) as [np|] eqn:Hp; [|done].
    destruct Hprev as [|Hprev]; [done|]. symmetry in Hprev.
    unfold last_or in Hprev. destruct (last l1) as [d|] eqn:El; [|done].
    injection Hprev as ->. apply last_Some in El as [l1' ->].
    rewrite <- app_assoc in Hwf. cbn in Hwf.
    pose proof (wf_nodup _ _ Hwf) as Hnd.
    apply NoDup_app in Hnd as (_ & _ & Hnd).
    apply NoDup_cons in Hnd as (Hp2 & Hnd).
    apply NoDup_cons in Hnd as (Ha2 & Hnd).
    assert (p <> a) by (intros ->; apply Hp2; by left).
    assert (Hx1 : next_ptr n <> Some p).
    { rewrite Hnext. destruct l2 as [|y l2]; [done|]. intros [= ->].
      apply Hp2. right. by left. }
    assert (Hx2 : next_ptr n <> Some a).
    { rewrite Hnext. destruct l2 as [|y l2]; [done|]. intros [= ->].
      apply Ha2. by left. }
    rewrite (merge_prev_eq s a n p np) in Hrun by done.
    injection Hrun as <- <-. by apply merged_absorb.
  - rewrite (merge_prev_skip s a n) in Hrun by done.
    injection Hrun as <- <-. apply merged_refl.
Qed.

(** [coalesce_block_regions] on an available node of a well-formed list. *)
Lemma coalesce_block_regions_merged s l1 a l2 n a1 s' :
  well_formed s (l1 ++ a :: l2) ->
  nodes s !! a = Some n ->
  available n = true ->
  coalesce_block_regions a s = Some (a1, s') ->
  merged s s'.
Proof.
  intros Hwf Hn Eava Hrun.
  destruct (unhandled_links n) as (Ep & Ex & Eav).
  set (s0 := with_history (history s ++ dealloc_events (allocators s) a n)
               (with_nodes (<[a := unhandled n]> (nodes s)) s)).
  assert (H0 : give_back_handle a s = Some (tt, s0)) by (by apply give_back_handle_eq).
  assert (Hwf0 : well_formed s0 (l1 ++ a :: l2)).
  { eapply well_formed_update; [exact Hwf|exact Hn|reflexivity|try done..].
    unfold unhandled. by destruct (needs_free n). }
  assert (Hn0 : nodes s0 !! a = Some (unhandled n)) by apply lookup_insert_eq.
  destruct (merge_prev_wf _ _ _ _ _ Hwf0 Hn0)
    as (a1' & s1 & l1' & n1 & H1 & Hwf1 & _ & _ & _ & Hn1 & Hcase1).
  rewrite coalesce_block_regions_parts in Hrun.
  rewrite (bind_eq _ _ _ _ _ H0), (bind_eq _ _ _ _ _ H1) in Hrun.
  eapply merged_trans; [by apply merged_unhandled|].
  eapply merged_trans.
  { eapply merge_prev_merged; [exact Hwf0|exact Hn0|congruence|exact H1]. }
  eapply merge_next_merged; [exact Hwf1|exact Hn1| |exact Hrun].
  destruct Hcase1 as [(_ & _ & _ & _ & ->)|(_ & _ & _ & E & _)]; congruence.
Qed.

Lemma coalesce_if_possible_merged s l a s' :
  well_formed s l ->
  coalesce_if_possible a s = Some (tt, s') ->
  merged s s'.
Proof.
  intros Hwf Hrun.
  assert (Hsome : is_Some (nodes s !! a)).
  { unfold coalesce_if_possible, can_coalesce, is_available, load, bind in Hrun.
    destruct (nodes s !! a); [by eexists|done]. }
  destruct Hsome as [n Hn].
  assert (Ha : a ∈ l) by (apply (wf_dom _ _ Hwf); by eexists).
  apply list_elem_of_split in Ha as (l1 & l2 & ->).
  destruct (well_formed_at _ _ _ _ Hwf) as (n' & Hn' & _ & _ & Hlp & Hln).
  assert (n' = n) as -> by congruence.
  unfold coalesce_if_possible in Hrun.
  rewrite (bind_eq _ _ _ _ _ (can_coalesce_eq _ _ _ Hn Hlp Hln)) in Hrun.
  destruct (available n) eqn:Eav; cbn [andb] in Hrun.
  - destruct (node_available (nodes s) (prev_ptr n) || node_available (nodes s) (next_ptr n)).
    + apply bind_inv in Hrun as (a1 & s1 & Hco & Hret). injection Hret as <-.
      by eapply coalesce_block_regions_merged.
    + injection Hrun as <-. apply merged_refl.
  - injection Hrun as <-. apply merged_refl.
Qed.

Lemma collect_loop_merged fuel : forall s l1 rest result res s',
  well_formed s (l1 ++ rest) ->
  collect_loop fuel (head rest) result s = Some (res, s') ->
  merged s s'.
Proof.
  induction fuel as [|fuel IH]; intros s l1 rest result res s' Hwf Hrun.
  { destruct rest; [|done]. injection Hrun as <- <-. apply merged_refl. }
  destruct rest as [|a l2].
  { injection Hrun as <- <-. apply merged_refl. }
  cbn [head collect_loop] in Hrun.
  destruct (well_formed_at _ _ _ _ Hwf) as (n & Hn & Hprev & Hnext & Hlp & Hln).
  rewrite (bind_eq _ _ _ _ _ (can_coalesce_eq _ _ _ Hn Hlp Hln)) in Hrun.
  destruct (available n) eqn:Eav; cbn [andb] in Hrun.
  - destruct (node_available (nodes s) (prev_ptr n) || node_available (nodes s) (next_ptr n)).
    + destruct (coalesce_block_regions_wf _ _ _ _ _ Hwf Hn)
        as (a1 & s1 & l1' & l2' & n1 & Hco & Hwf1 & _ & _ & _ & Hn1 & _).
      rewrite (bind_eq _ _ _ _ _ Hco) in Hrun.
      destruct (well_formed_at _ _ _ _ Hwf1) as (n1' & Hn1' & _ & Hnext1 & _).
      assert (n1' = n1) as -> by congruence.
      rewrite (bind_eq _ _ _ _ _ (rd_eq _ _ _ next_ptr Hn1)), Hnext1 in Hrun.
      eapply merged_trans; [by eapply coalesce_block_regions_merged|].
      eapply (IH s1 (l1' ++ [a1]) l2'); [by rewrite <- app_assoc|exact Hrun].
    + rewrite (bind_eq _ _ _ _ _ (rd_eq _ _ _ next_ptr Hn)), Hnext in Hrun.
      eapply (IH s (l1 ++ [a]) l2); [by rewrite <- app_assoc|exact Hrun].
  - rewrite (bind_eq _ _ _ _ _ (rd_eq _ _ _ next_ptr Hn)), Hnext in Hrun.
    eapply (IH s (l1 ++ [a]) l2); [by rewrite <- app_assoc|exact Hrun].
Qed.

Lemma collect_unfold s :
  collect s = collect_loop (size (nodes s)) (blk_regions (block s)) false s.
Proof. unfold collect. by repeat mstep. Qed.

Lemma collect_merged s l res s' :
  well_formed s l -> collect s = Some (res, s') -> merged s s'.
Proof.
  intros Hwf Hrun. rewrite collect_unfold, (well_formed_head _ _ Hwf) in Hrun.
  by eapply (collect_loop_merged _ s [] l).
Qed.

(** ** The effect of a call on a well-formed state *)

Lemma call_effect s l c s' :
  well_formed s l -> call c s = Some (tt, s') -> effect s c s'.
Proof.
  intros Hwf H. destruct c as [request|a|a|a| |]; cbn [call] in H.
  - apply bind_inv in H as (r & s1 & H & Hret). injection Hret as <-.
    destruct (reserve_inv _ _ _ _ _ Hwf H) as
      [Hpos [[_ ->]|(a & n & l1 & l2 & _ & Hrem & _ & _ & Hfit & Hn & ->)]].
    + by apply effect_reserve_null.
    + by apply effect_reserve.
  - pose proof H as H0. unfold release in H0.
    apply bind_inv in H0 as (u & s1 & Hck & _).
    apply check_block_ptr_inv in Hck as (_ & n & Hn & Hbp).
    rewrite (release_eq _ _ _ Hn Hbp) in H. injection H as <-.
    by apply effect_release.
  - pose proof H as H0. unfold reclaim in H0.
    apply bind_inv in H0 as (u & s1 & Hck & _).
    apply check_block_ptr_inv in Hck as (_ & n & Hn & Hbp).
    rewrite (reclaim_eq _ _ _ Hn Hbp) in H.
    apply (effect_reclaim s a n s' Hn).
    destruct (released_links (decremented n)) as [E1 E2].
    destruct (decremented_links n) as (E3 & E4 & E7).
    destruct (freed_links (released (decremented n))) as (E5 & E6 & E8).
    pose proof (released_owner (decremented n)) as E9.
    eapply (coalesce_if_possible_merged _ l a); [|exact H].
    eapply well_formed_update;
      [exact Hwf|exact Hn|reflexivity| | |reflexivity|reflexivity| |reflexivity];
      congruence.
  - pose proof H as H0. unfold retain in H0.
    apply bind_inv in H0 as (u & s1 & Hck & _).
    apply check_block_ptr_inv in Hck as (_ & n & Hn & Hbp).
    rewrite (retain_eq _ _ _ Hn Hbp) in H. injection H as <-.
    by apply effect_retain.
  - apply bind_inv in H as (res & s1 & H & Hret). injection Hret as <-.
    apply effect_collect. by eapply collect_merged.
  - destruct (release_all_spec _ _ Hwf)
      as (s2 & Hrun & Hnodes & Hres & Hh & _ & Ea & Eb & Em & Er).
    rewrite Hrun in H. injection H as <-. by apply effect_release_all.
Qed.

(** ** The nodes after [reserve] *)

Lemma well_formed_fresh s l : well_formed s l -> nodes s !! arena_next s = None.
Proof.
  intros Hwf. apply eq_None_not_Some. intros Hsome.
  apply (wf_dom _ _ Hwf) in Hsome. apply (wf_fresh _ _ Hwf) in Hsome. lia.
Qed.

(** Beside the selected node, [reserve] leaves every node as it was, up to
    the [prev_ptr] of the successor, and adds the empty region of a split. *)
Lemma after_reserve_frame s l a n request b :
  well_formed s l -> nodes s !! a = Some n -> b <> a ->
  match nodes (after_reserve a n request s) !! b with
  | Some nb' =>
      (nodes s !! b = None /\ b = arena_next s /\ splits n request = true
       /\ nb' = empty_region s n (rq_size request) (rq_alignment request))
      \/ (exists nb, nodes s !! b = Some nb
                     /\ (nb' = nb \/ nb' = set_prev_ptr (Some (arena_next s)) nb))
  | None => nodes s !! b = None
  end.
Proof.
  intros Hwf Hn Hne. pose proof (well_formed_fresh _ _ Hwf) as Hfresh.
  unfold after_reserve. cbn [nodes with_nodes with_block with_history].
  rewrite lookup_insert_ne by done.
  destruct (splits n request); cbn [nodes after_split with_nodes with_history with_arena_next].
  - rewrite lookup_insert_ne by done.
    destruct (decide (next_ptr n = Some b)) as [Ey|Hy].
    + rewrite Ey. destruct (decide (b = arena_next s)) as [->|Hbe].
      * exfalso. assert (Ha : a ∈ l) by (apply (wf_dom _ _ Hwf); by eexists).
        apply list_elem_of_split in Ha as (l1 & l2 & ->).
        destruct (well_formed_at _ _ _ _ Hwf) as (n' & Hn' & _ & _ & _ & Hln).
        assert (n' = n) as -> by congruence.
        destruct (Hln _ Ey) as [? ?]. congruence.
      * unfold relink. rewrite lookup_insert_ne by done.
        destruct (nodes s !! b) as [nb|] eqn:Hb.
        -- rewrite lookup_insert_eq. right. exists nb. split; [done|by right].
        -- by rewrite lookup_insert_ne, Hb by done.
    + rewrite lookup_relink_ne by done.
      destruct (decide (b = arena_next s)) as [->|Hbe].
      * rewrite lookup_insert_eq. left. done.
      * rewrite lookup_insert_ne by done.
        destruct (nodes s !! b) as [nb|] eqn:Hb; [|done].
        right. exists nb. split; [done|by left].
  - destruct (nodes s !! b) as [nb|] eqn:Hb; [|done].
    right. exists nb. split; [done|by left].
Qed.

(** A weight that does not depend on the links and is null for an empty
    region only changes at the selected node. *)
Lemma total_after_reserve (w : BlockRegion -> Z) s l a n request :
  well_formed s l -> nodes s !! a = Some n ->
  (forall p nb, w (set_prev_ptr p nb) = w nb) ->
  w (empty_region s n (rq_size request) (rq_alignment request)) = 0 ->
  total w (nodes (after_reserve a n request s))
  = total w (nodes s) - w n
    + w (set_usage_count 1 (allocated (allocators s) (placed s n request))).
Proof.
  intros Hwf Hn Hlinks Hempty.
  rewrite <- (total_insert w (nodes s) a n) by done.
  apply total_ext. intros b. destruct (decide (b = a)) as [->|Hne].
  - by rewrite after_reserve_node, lookup_insert_eq.
  - rewrite lookup_insert_ne by done.
    pose proof (after_reserve_frame s l a n request b Hwf Hn Hne) as H.
    destruct (nodes (after_reserve a n request s) !! b) as [nb'|].
    + destruct H as [(-> & _ & _ & ->)|(nb & -> & [->| ->])]; cbn; by rewrite ?Hlinks.
    + by rewrite H.
Qed.

(** ** The ranges of the counters *)

Lemma total_nonneg (w : BlockRegion -> Z) h :
  (forall a n, h !! a = Some n -> 0 <= w n) -> 0 <= total w h.
Proof.
  induction h as [|a n h Hn IH] using map_ind; intros Hw.
  - by rewrite total_empty.
  - rewrite total_insert_fresh by done.
    assert (0 <= w n) by (apply (Hw a); apply lookup_insert_eq).
    assert (0 <= total w h); [|lia].
    apply IH. intros b nb Hb. apply (Hw b). rewrite lookup_insert_ne; [done|congruence].
Qed.

Lemma total_ge_at (w : BlockRegion -> Z) h a n :
  (forall a n, h !! a = Some n -> 0 <= w n) ->
  h !! a = Some n -> w n <= total w h.
Proof.
  intros Hw Hn. rewrite <- (insert_delete_id h a n) by done.
  rewrite total_insert_fresh by apply lookup_delete_eq.
  assert (0 <= total w (delete a h)); [|lia].
  apply total_nonneg. intros b nb Hb. apply (Hw b).
  destruct (decide (b = a)) as [->|Hne]; [by rewrite lookup_delete_eq in Hb|].
  by rewrite lookup_delete_ne in Hb.
Qed.

Lemma total_region_list (w : BlockRegion -> Z) s l :
  well_formed s l -> total w (nodes s) = list_total w (region_list s).
Proof.
  intros Hwf. rewrite (total_list w l (nodes s));
    [|apply (wf_nodup _ _ Hwf)|apply (wf_dom _ _ Hwf)].
  destruct (region_list_well_formed _ _ Hwf) as [E F]. clear Hwf. revert l E.
  induction F as [|[a n] W Hn F IH]; intros l <-; [done|].
  cbn in *. rewrite Hn. cbn. f_equal. by apply IH.
Qed.

Lemma reserved_bytes_nonneg s a n :
  in_range s -> nodes s !! a = Some n -> 0 <= reserved_bytes n.
Proof.
  intros Hr Hn. destruct (rg_nodes _ Hr a n Hn) as [? _].
  unfold reserved_bytes. by case_bool_decide.
Qed.

Lemma wrap64_small z : 0 <= z < 2 ^ 64 -> wrap64 z = z.
Proof. intros. unfold wrap64. by apply Z.mod_small. Qed.

Lemma wrap64_range z : 0 <= wrap64 z < 2 ^ 64.
Proof. unfold wrap64. by apply Z.mod_pos_bound. Qed.

Lemma wrap32_range z : 0 <= wrap32 z < 2 ^ 32.
Proof. unfold wrap32. by apply Z.mod_pos_bound. Qed.

(** An available node whose usage count is in range has usage count [0]. *)
Lemma available_unused n : available n = true -> 0 <= usage_count n -> usage_count n = 0.
Proof.
  unfold available. intros H Hc. apply andb_true_iff in H as [H _].
  apply negb_true_iff, Z.ltb_ge in H. lia.
Qed.

(** The region [reserve] hands out has the requested size. *)
Lemma placed_size_exact s request n :
  fits s request n = true -> 0 <= usage_count n ->
  mr_size (memory (placed s n request)) = rq_size request.
Proof.
  intros Hfit Hc. destruct (placed_memory s n request) as (_ & _ & _ & _ & ->).
  pose proof (available_unused _ (fits_available _ _ _ Hfit) Hc) as E0.
  destruct (fits_size _ _ _ Hfit) as [Hsz _].
  unfold splits. rewrite E0. cbn. rewrite andb_true_r.
  destruct (rq_size request <? mr_size (memory n)) eqn:E; [done|].
  apply Z.ltb_ge in E. lia.
Qed.

Lemma merged_reserved_bytes s s' :
  merged s s' -> total reserved_bytes (nodes s') = total reserved_bytes (nodes s).
Proof.
  intros Hm. apply total_ext. intros b.
  destruct (nodes s' !! b) as [nb'|] eqn:Hb'.
  - destruct (mg_nodes _ _ Hm _ _ Hb') as (nb & -> & (E1 & _ & _ & _ & _ & _ & E7 & _)).
    cbn. unfold reserved_bytes. rewrite E1. case_bool_decide as Hst; [done|].
    rewrite E7; [done|]. unfold available. rewrite bool_decide_eq_false_2 by done.
    apply andb_false_r.
  - destruct (nodes s !! b) as [nb|] eqn:Hb; [|done]. cbn.
    unfold reserved_bytes. case_bool_decide as Hst; [done|]. exfalso.
    destruct (mg_held _ _ Hm b nb Hb) as [? ?]; [|congruence].
    unfold available. rewrite bool_decide_eq_false_2 by done. apply andb_false_r.
Qed.

Lemma merged_in_range s s' : merged s s' -> in_range s -> in_range s'.
Proof.
  intros Hm [H1 H2 H3]. split.
  - by rewrite (mg_block _ _ Hm).
  - by rewrite (mg_block _ _ Hm), (merged_reserved_bytes _ _ Hm).
  - intros b nb' Hb'.
    destruct (mg_nodes _ _ Hm _ _ Hb') as (nb & Hb & (_ & E2 & _ & _ & _ & _ & _ & E8 & _)).
    destruct (H3 _ _ Hb) as [? ?]. rewrite E2. split; [by apply E8|done].
Qed.

(** The bytes [release_block_region] gives back for a node. *)
Lemma release_in_range s a n :
  in_range s -> nodes s !! a = Some n ->
  let n1 := decremented n in
  let r' := release_reserved (blk_reserved (block s)) n1 in
  (0 <= usage_count n1 < 2 ^ 32)
  /\ total reserved_bytes (nodes s) - reserved_bytes n + reserved_bytes (released n1) <= r'
  /\ total reserved_bytes (nodes s) - reserved_bytes n <= r'
  /\ r' <= blk_reserved (block s).
Proof.
  intros Hr Hn n1 r'. destruct Hr as [H1 [H2 H2'] H3].
  destruct (H3 _ _ Hn) as [Hsz Hc].
  assert (Hw : reserved_bytes n <= total reserved_bytes (nodes s)).
  { apply (total_ge_at reserved_bytes _ a); [|done].
    intros b nb Hb. destruct (H3 _ _ Hb) as [? _].
    unfold reserved_bytes. by case_bool_decide. }
  assert (Hw0 : 0 <= reserved_bytes n).
  { unfold reserved_bytes. by case_bool_decide. }
  assert (E1 : status n1 = status n /\ memory n1 = memory n).
  { unfold n1, decremented. by destruct (0 <? usage_count n). }
  destruct E1 as [Est Emem].
  assert (Hc1 : 0 <= usage_count n1 < 2 ^ 32).
  { unfold n1, decremented. destruct (0 <? usage_count n); [apply wrap32_range|done]. }
  assert (Erb : reserved_bytes n1 = reserved_bytes n).
  { unfold reserved_bytes. by rewrite Est, Emem. }
  assert (Erel : reserved_bytes (set_status Available n1) = 0).
  { unfold reserved_bytes. cbn. by rewrite bool_decide_eq_true_2. }
  split; [done|].
  unfold r', release_reserved, released.
  destruct (0 <? usage_count n1); [lia|]. rewrite Erel.
  case_bool_decide as Hst.
  - assert (reserved_bytes n = 0); [|lia].
    unfold reserved_bytes. rewrite <- Est. by rewrite bool_decide_eq_true_2.
  - assert (reserved_bytes n = mr_size (memory n1)).
    { unfold reserved_bytes. rewrite <- Est, Emem. by rewrite bool_decide_eq_false_2. }
    rewrite wrap64_small by lia. lia.
Qed.

Lemma after_reserve_block a n request s :
  block (after_reserve a n request s)
  = set_reserved (wrap64 (blk_reserved (block s) + mr_size (memory (placed s n request))))
      (block s).
Proof. done. Qed.

Lemma reserved_node_bytes ma n :
  reserved_bytes (set_usage_count 1 (allocated ma n)) = mr_size (memory n).
Proof.
  destruct (allocated_memory ma n) as (_ & _ & Esz & _ & _ & Est & _).
  unfold reserved_bytes. cbn [status memory set_usage_count]. rewrite Est, Esz.
  by destruct (mr_dedicated (memory n)).
Qed.

Lemma reserve_in_range s l request a n :
  well_formed s l -> in_range s ->
  0 < rq_size request ->
  (wrap64 (mb_size (blk_memory (block s)) - blk_reserved (block s))
   <? rq_size request) = false ->
  nodes s !! a = Some n ->
  fits s request n = true ->
  in_range (after_reserve a n request s)
  /\ blk_reserved (block (after_reserve a n request s))
     = blk_reserved (block s) + rq_size request.
Proof.
  intros Hwf Hr Hpos Hrem Hn Hfit.
  pose proof Hr as [H1 [H2 H2'] H3].
  destruct (H3 _ _ Hn) as [Hsz Hc].
  assert (Hrb : 0 <= total reserved_bytes (nodes s)).
  { apply total_nonneg. intros b nb Hb. by eapply reserved_bytes_nonneg. }
  pose proof (placed_size_exact s request n Hfit (proj1 Hc)) as Esz.
  apply Z.ltb_ge in Hrem. rewrite wrap64_small in Hrem by lia.
  assert (Eres : blk_reserved (block (after_reserve a n request s))
                 = blk_reserved (block s) + rq_size request).
  { rewrite after_reserve_block. cbn. rewrite Esz. apply wrap64_small. lia. }
  split; [|done]. split.
  - done.
  - rewrite Eres.
    rewrite (total_after_reserve reserved_bytes s l a n request Hwf Hn); [| |].
    + rewrite reserved_node_bytes, Esz.
      destruct (available_status _ (fits_available _ _ _ Hfit)) as [Hst _].
      unfold reserved_bytes at 2. rewrite bool_decide_eq_true_2 by done.
      rewrite after_reserve_block. cbn. lia.
    + done.
    + done.
  - intros b nb' Hb'. destruct (decide (b = a)) as [->|Hne].
    + rewrite after_reserve_node in Hb'. injection Hb' as <-.
      destruct (allocated_memory (allocators s) (placed s n request))
        as (_ & _ & E & _).
      cbn [memory usage_count set_usage_count]. rewrite E, Esz. lia.
    + pose proof (after_reserve_frame s l a n request b Hwf Hn Hne) as H.
      rewrite Hb' in H.
      destruct H as [(_ & _ & _ & ->)|(nb & Hb & [->| ->])].
      * cbn. split; [apply wrap64_range|lia].
      * by apply (H3 b).
      * cbn. by apply (H3 b).
Qed.

Lemma release_effect_in_range s a n :
  in_range s -> nodes s !! a = Some n -> in_range (after_release a n s).
Proof.
  intros Hr Hn. destruct (release_in_range s a n Hr Hn) as (Hc & Ht & _ & Hle).
  pose proof Hr as [H1 [H2 H2'] H3]. destruct (H3 _ _ Hn) as [Hsz _].
  split; cbn.
  - done.
  - rewrite (total_insert _ _ _ _ _ Hn). lia.
  - intros b nb. destruct (decide (b = a)) as [->|Hne].
    + rewrite lookup_insert_eq. intros [= <-].
      unfold released, decremented in *.
      destruct (0 <? usage_count n); cbn in *;
        repeat (match goal with |- context [if ?c then _ else _] => destruct c end; cbn);
        done.
    + rewrite lookup_insert_ne by done. apply H3.
Qed.

Lemma retain_effect_in_range s a n :
  in_range s -> nodes s !! a = Some n -> in_range (after_retain a n s).
Proof.
  intros Hr Hn. pose proof Hr as [H1 [H2 H2'] H3]. destruct (H3 _ _ Hn) as [Hsz _].
  split; cbn.
  - done.
  - rewrite (total_insert_same _ _ _ n) by done. done.
  - intros b nb. destruct (decide (b = a)) as [->|Hne].
    + rewrite lookup_insert_eq. intros [= <-]. cbn. split; [done|apply wrap32_range].
    + rewrite lookup_insert_ne by done. apply H3.
Qed.

Lemma reclaim_until_free_in_range s a n :
  in_range s -> nodes s !! a = Some n -> in_range (after_reclaim_until_free a n s).
Proof.
  intros Hr Hn. destruct (release_in_range s a n Hr Hn) as (Hc & _ & Ht & Hle).
  pose proof Hr as [H1 [H2 H2'] H3]. destruct (H3 _ _ Hn) as [Hsz _].
  assert (E0 : reserved_bytes (freed (released (decremented n))) = 0).
  { unfold reserved_bytes, freed. cbn. by rewrite bool_decide_eq_true_2. }
  split; cbn.
  - done.
  - rewrite (total_insert _ _ _ _ _ Hn), E0. lia.
  - intros b nb. destruct (decide (b = a)) as [->|Hne].
    + rewrite lookup_insert_eq. intros [= <-]. unfold freed. cbn.
      destruct (needs_free _); cbn; [lia|].
      unfold released, decremented.
      repeat (match goal with |- context [if ?c then _ else _] => destruct c end; cbn);
        lia.
    + rewrite lookup_insert_ne by done. apply H3.
Qed.

Lemma list_total_cons (w : BlockRegion -> Z) a n W :
  list_total w ((a, n) :: W) = w n + list_total w W.
Proof. done. Qed.

Lemma list_total_nonneg (w : BlockRegion -> Z) W :
  Forall (fun an => 0 <= w an.2) W -> 0 <= list_total w W.
Proof.
  induction 1 as [|[b nb] W Hb HW IH]; [done|].
  rewrite list_total_cons. cbn in Hb. lia.
Qed.

(** The bytes the release of all regions gives back, along the list. *)
Lemma release_all_bytes (W : list (addr * BlockRegion)) : forall r,
  Forall (fun an => 0 <= mr_size (memory an.2)) W ->
  list_total reserved_bytes W <= r < 2 ^ 64 ->
  reserved_after_release_all r W - list_total (fun n => reserved_bytes (released n)) W
  = r - list_total reserved_bytes W
  /\ reserved_after_release_all r W <= r.
Proof.
  induction W as [|[a n] W IH]; intros r HW Hr; [cbn; lia|].
  apply Forall_cons in HW as [Hn HW]. cbn in Hn.
  rewrite !list_total_cons in *. cbn [reserved_after_release_all].
  assert (H0 : 0 <= list_total reserved_bytes W).
  { apply list_total_nonneg. eapply Forall_impl; [exact HW|].
    intros [b nb] Hb. cbn in *. unfold reserved_bytes. by case_bool_decide. }
  assert (Hcase : release_reserved r n = r - reserved_bytes n + reserved_bytes (released n)
                  /\ 0 <= reserved_bytes (released n) <= reserved_bytes n).
  { assert (Hrb : 0 <= reserved_bytes n).
    { unfold reserved_bytes. by case_bool_decide. }
    unfold release_reserved, released.
    destruct (0 <? usage_count n); [lia|].
    assert (reserved_bytes (set_status Available n) = 0) as ->.
    { unfold reserved_bytes. cbn. by rewrite bool_decide_eq_true_2. }
    case_bool_decide as Hst.
    - assert (reserved_bytes n = 0) as ->; [|lia].
      unfold reserved_bytes. by rewrite bool_decide_eq_true_2.
    - assert (reserved_bytes n = mr_size (memory n)) as Es.
      { unfold reserved_bytes. by rewrite bool_decide_eq_false_2. }
      rewrite wrap64_small by lia. lia. }
  destruct Hcase as [Er Hrel].
  destruct (IH (release_reserved r n) HW) as [E Hle]; lia.
Qed.

Lemma total_fmap (w : BlockRegion -> Z) (f : BlockRegion -> BlockRegion) h :
  total w (f <$> h) = total (fun n => w (f n)) h.
Proof.
  induction h as [|a n h Hn IH] using map_ind.
  - by rewrite fmap_empty, !total_empty.
  - rewrite fmap_insert, !total_insert_fresh; [|done|by rewrite lookup_fmap, Hn].
    by rewrite IH.
Qed.

Lemma total_weights (w w' : BlockRegion -> Z) h :
  (forall a n, h !! a = Some n -> w n = w' n) -> total w h = total w' h.
Proof.
  induction h as [|a n h Hn IH] using map_ind; intros Hw.
  - by rewrite !total_empty.
  - rewrite !total_insert_fresh by done.
    rewrite (Hw a n) by apply lookup_insert_eq. f_equal. apply IH.
    intros b nb Hb. apply (Hw b). rewrite lookup_insert_ne; [done|congruence].
Qed.

Lemma release_all_in_range s l s' :
  well_formed s l -> in_range s ->
  effect s CallReleaseAll s' -> in_range s'.
Proof.
  intros Hwf Hr Heff. inversion Heff as [| | | | | |s0 Hnodes Hres Hh Ea Eb Em Er]; subst.
  pose proof Hr as [H1 [H2 H2'] H3].
  assert (HW : Forall (fun an => 0 <= mr_size (memory an.2)) (region_list s)).
  { destruct (region_list_well_formed _ _ Hwf) as [_ F].
    eapply Forall_impl; [exact F|]. intros [a n] Hn. cbn in *. by apply (H3 a). }
  rewrite (total_region_list _ _ _ Hwf) in H2.
  destruct (release_all_bytes (region_list s) (blk_reserved (block s)) HW) as [E Hle]; [lia|].
  assert (Et : total reserved_bytes (nodes s')
               = list_total (fun n => reserved_bytes (released n)) (region_list s)).
  { rewrite <- (total_region_list (fun n => reserved_bytes (released n)) _ _ Hwf).
    assert (nodes s' = released <$> nodes s) as ->.
    { apply map_eq. intros b. by rewrite Hnodes, lookup_fmap. }
    apply total_fmap. }
  split.
  - by rewrite Em.
  - rewrite Em, Hres, Et. lia.
  - intros b nb'. rewrite Hnodes. destruct (nodes s !! b) as [nb|] eqn:Hb; [|done].
    cbn. intros [= <-]. destruct (H3 _ _ Hb). unfold released.
    by destruct (0 <? usage_count nb).
Qed.

Lemma effect_in_range s l c s' :
  well_formed s l -> in_range s -> effect s c s' -> in_range s'.
Proof.
  intros Hwf Hr Heff. pose proof Heff as Heff0.
  destruct Heff as [request Hpos|request a n Hpos Hrem Hn Hfit|a n Hn|a n Hn
                   |a n s' Hn Hm|s' Hm|s' Hnodes Hres Hh Ea Eb Em Er].
  - done.
  - by eapply reserve_in_range.
  - by apply release_effect_in_range.
  - by apply retain_effect_in_range.
  - eapply merged_in_range; [exact Hm|]. by apply reclaim_until_free_in_range.
  - by eapply merged_in_range.
  - by eapply release_all_in_range.
Qed.

Lemma create_in_range baddr b ma s :
  fresh_block b -> create baddr b ma = Some s -> in_range s.
Proof.
  intros [Hres Hsz]. rewrite create_eq. intros [= <-]. split; cbn.
  - done.
  - rewrite total_insert_fresh by done. rewrite total_empty, Hres.
    unfold reserved_bytes. cbn. rewrite bool_decide_eq_true_2 by done. lia.
  - intros a n. destruct (decide (a = 0%nat)) as [->|Hne].
    + rewrite lookup_insert_eq. intros [= <-]. cbn. lia.
    + rewrite lookup_insert_ne by done. by rewrite lookup_empty.
Qed.

(** The states reached from a fresh block keep their counters in range. *)
Lemma calls_invariant cs : forall s l s',
  well_formed s l -> in_range s -> calls cs s = Some s' ->
  (exists l', well_formed s' l') /\ in_range s'.
Proof.
  induction cs as [|c cs IH]; intros s l s' Hwf Hr H; cbn in H.
  - injection H as <-. split; [by exists l|done].
  - destruct (call c s) as [[[] s1]|] eqn:E; [|done].
    destruct (call_well_formed _ _ _ _ Hwf E) as [l1 Hwf1].
    apply (IH s1 l1 s' Hwf1); [|done].
    eapply effect_in_range; [exact Hwf|done|]. by eapply call_effect.
Qed.

(** ** The callbacks a call issues *)

Lemma alloc_events_proper ma a n : Forall proper_event (alloc_events ma a n).
Proof.
  unfold alloc_events. destruct (mr_handle (memory n) =? 0) eqn:E; [|done].
  apply Forall_singleton. cbn. by apply Z.eqb_eq.
Qed.

Lemma alloc_events_count ma a n :
  count_deallocate (alloc_events ma a n) = 0
  /\ count_allocate (alloc_events ma a n) = 1 - holds_handle n.
Proof.
  unfold alloc_events, holds_handle. by destruct (mr_handle (memory n) =? 0).
Qed.

Lemma holds_handle_range n : 0 <= holds_handle n <= 1.
Proof. unfold holds_handle. destruct (_ =? _); lia. Qed.

Lemma holds_handle_allocated ma n :
  holds_handle n <= holds_handle (set_usage_count 1 (allocated ma n)) <= 1
  /\ (attaches ma -> holds_handle (set_usage_count 1 (allocated ma n)) = 1).
Proof.
  destruct (allocated_memory ma n) as (_ & _ & _ & _ & _ & _ & Eh).
  pose proof (holds_handle_range (set_usage_count 1 (allocated ma n))) as Hr.
  unfold holds_handle in *. cbn [memory set_usage_count] in *. rewrite Eh in *.
  destruct (mr_handle (memory n) =? 0) eqn:E.
  - split; [lia|]. intros Hat.
    destruct (snd (allocate ma (memory n)) =? 0) eqn:E'; [|done].
    apply Z.eqb_eq in E'. by destruct (Hat (memory n)).
  - rewrite E in *. split; [lia|done].
Qed.

Lemma holds_handle_placed s n request :
  holds_handle (placed s n request)
  = if splits n request then holds_handle (unhandled n) else holds_handle n.
Proof. unfold placed. by destruct (splits n request). Qed.

Lemma after_reserve_history a n request s :
  history (after_reserve a n request s)
  = history s
    ++ (if splits n request then dealloc_events (allocators s) a n else [])
    ++ alloc_events (allocators s) a (placed s n request).
Proof.
  unfold after_reserve. cbn [history with_nodes with_block with_history].
  destruct (splits n request); cbn [history after_split with_nodes with_history with_arena_next].
  - by rewrite <- app_assoc.
  - done.
Qed.

Lemma after_reserve_allocators a n request s :
  allocators (after_reserve a n request s) = allocators s.
Proof. unfold after_reserve. by destruct (splits n request). Qed.

Lemma reserve_accounted s l request a n :
  well_formed s l -> nodes s !! a = Some n ->
  (Forall proper_event (history s) ->
   Forall proper_event (history (after_reserve a n request s)))
  /\ slack s <= slack (after_reserve a n request s)
  /\ (attaches (allocators s) -> slack (after_reserve a n request s) = slack s).
Proof.
  intros Hwf Hn. unfold slack. rewrite after_reserve_history.
  rewrite (total_after_reserve holds_handle s l a n request Hwf Hn) by done.
  rewrite !count_allocate_app, !count_deallocate_app.
  destruct (alloc_events_count (allocators s) a (placed s n request)) as [-> ->].
  destruct (holds_handle_allocated (allocators s) (placed s n request)) as [Hle Heq].
  pose proof (holds_handle_range (placed s n request)) as Hrg.
  rewrite holds_handle_placed in *.
  split.
  { intros Hp. apply Forall_app. split; [done|]. apply Forall_app.
    split; [|apply alloc_events_proper].
    destruct (splits n request); [apply dealloc_events_proper|done]. }
  destruct (splits n request).
  - destruct (dealloc_events_count (allocators s) a n) as [-> ->].
    split; [lia|]. intros Hat. rewrite (Heq Hat). lia.
  - cbn. split; [lia|]. intros Hat. rewrite (Heq Hat). lia.
Qed.

Lemma released_decremented_memory n : memory (released (decremented n)) = memory n.
Proof.
  unfold released, decremented.
  destruct (0 <? usage_count n); cbn;
    by repeat (match goal with |- context [if ?c then _ else _] => destruct c end; cbn).
Qed.

Lemma holds_handle_released n : holds_handle (released (decremented n)) = holds_handle n.
Proof. unfold holds_handle. by rewrite released_decremented_memory. Qed.

Lemma holds_handle_freed n : holds_handle (freed n) = holds_handle (unhandled n).
Proof. unfold freed, unhandled, holds_handle. by destruct (needs_free n). Qed.

Lemma merged_slack s s' :
  merged s s' ->
  (Forall proper_event (history s) -> Forall proper_event (history s'))
  /\ slack s' = slack s.
Proof.
  intros Hm. destruct (mg_history _ _ Hm) as (evs & E & F & Ca & Cd).
  unfold slack. rewrite E, count_allocate_app, count_deallocate_app. split; [|lia].
  intros Hp. by apply Forall_app.
Qed.

Lemma effect_accounted s l c s' :
  well_formed s l -> effect s c s' ->
  allocators s' = allocators s
  /\ (Forall proper_event (history s) -> Forall proper_event (history s'))
  /\ slack s <= slack s'
  /\ (attaches (allocators s) -> slack s' = slack s).
Proof.
  intros Hwf Heff.
  destruct Heff as [request Hpos|request a n Hpos Hrem Hn Hfit|a n Hn|a n Hn
                   |a n s' Hn Hm|s' Hm|s' Hnodes Hres Hh Ea Eb Em Er].
  - split; [done|]. split; [done|]. split; [lia|done].
  - split; [apply after_reserve_allocators|]. by eapply reserve_accounted.
  - split; [done|]. split; [done|]. unfold slack. cbn.
    rewrite (total_insert_same _ _ _ n); [|done|apply holds_handle_released].
    split; [lia|done].
  - split; [done|]. split; [done|]. unfold slack. cbn.
    rewrite (total_insert_same _ _ _ n) by done. split; [lia|done].
  - destruct (merged_slack _ _ Hm) as [Hp Es].
    split; [by rewrite (mg_allocators _ _ Hm)|].
    assert (E1 : slack (after_reclaim_until_free a n s) = slack s).
    { unfold slack. cbn. rewrite count_allocate_app, count_deallocate_app.
      destruct (dealloc_events_count (allocators s) a (released (decremented n))) as [-> ->].
      rewrite (total_insert _ _ _ _ _ Hn), holds_handle_freed, holds_handle_released. lia. }
    split; [|rewrite Es, E1; split; [lia|done]].
    intros H. apply Hp. cbn. apply Forall_app. split; [done|apply dealloc_events_proper].
  - destruct (merged_slack _ _ Hm) as [Hp Es].
    split; [by rewrite (mg_allocators _ _ Hm)|]. split; [done|]. rewrite Es. split; [lia|done].
  - split; [done|]. split; [by rewrite Hh|].
    assert (E : slack s' = slack s); [|rewrite E; split; [lia|done]].
    unfold slack. rewrite Hh.
    assert (nodes s' = released <$> nodes s) as ->.
    { apply map_eq. intros b. by rewrite Hnodes, lookup_fmap. }
    rewrite total_fmap.
    assert (total (fun n => holds_handle (released n)) (nodes s)
            = total holds_handle (nodes s)) as ->; [|done].
    apply total_weights. intros b nb _.
    unfold released, holds_handle. by destruct (0 <? usage_count nb).
Qed.

(** ** The properties of the nodes *)

Lemma merged_uniform s s' : merged s s' -> uniform s -> uniform s'.
Proof.
  intros Hm Hu b nb' Hb'.
  destruct (mg_nodes _ _ Hm _ _ Hb') as (nb & Hb & (E1 & _ & _ & _ & E5 & E6 & _)).
  rewrite (mg_block _ _ Hm), E1, E5, E6. by apply (Hu b).
Qed.

Lemma effect_uniform s l c s' :
  well_formed s l -> uniform s -> effect s c s' ->
  uniform s' /\ blk_memory (block s') = blk_memory (block s).
Proof.
  intros Hwf Hu Heff.
  destruct Heff as [request Hpos|request a n Hpos Hrem Hn Hfit|a n Hn|a n Hn
                   |a n s' Hn Hm|s' Hm|s' Hnodes Hres Hh Ea Eb Em Er].
  - done.
  - split; [|done]. intros b nb' Hb'. rewrite after_reserve_block. cbn [blk_memory set_reserved].
    destruct (Hu _ _ Hn) as (Ep & Ed & Es).
    destruct (decide (b = a)) as [->|Hne].
    + rewrite after_reserve_node in Hb'. injection Hb' as <-.
      destruct (allocated_memory (allocators s) (placed s n request))
        as (_ & E2 & _ & E4 & _ & E6 & _).
      destruct (placed_memory s n request) as (_ & F2 & F3 & _).
      cbn [memory status set_usage_count]. rewrite E2, E4, E6, F2, F3, Ep, Ed.
      split; [done|]. split; [done|]. by right.
    + pose proof (after_reserve_frame s l a n request b Hwf Hn Hne) as H.
      rewrite Hb' in H.
      destruct H as [(_ & _ & _ & ->)|(nb & Hb & [->| ->])].
      * cbn. split; [done|]. split; [done|]. by left.
      * by apply (Hu b).
      * cbn. by apply (Hu b).
  - split; [|done]. intros b nb'. cbn. destruct (decide (b = a)) as [->|Hne].
    + rewrite lookup_insert_eq. intros [= <-]. destruct (Hu _ _ Hn) as (Ep & Ed & Es).
      unfold released, decremented.
      repeat (match goal with |- context [if ?c then _ else _] => destruct c end; cbn);
        split; try done; split; try done; by left.
    + rewrite lookup_insert_ne by done. apply Hu.
  - split; [|done]. intros b nb'. cbn. destruct (decide (b = a)) as [->|Hne].
    + rewrite lookup_insert_eq. intros [= <-]. cbn. by apply (Hu a).
    + rewrite lookup_insert_ne by done. apply Hu.
  - split; [|by rewrite (mg_block _ _ Hm)].
    eapply merged_uniform; [exact Hm|].
    intros b nb'. cbn. destruct (decide (b = a)) as [->|Hne].
    + rewrite lookup_insert_eq. intros [= <-]. destruct (Hu _ _ Hn) as (Ep & Ed & Es).
      unfold freed, released, decremented.
      repeat (match goal with |- context [if ?c then _ else _] => destruct c end; cbn);
        split; try done; split; try done; by left.
    + rewrite lookup_insert_ne by done. apply Hu.
  - split; [by eapply merged_uniform|by rewrite (mg_block _ _ Hm)].
  - split; [|done]. intros b nb'. rewrite Hnodes, Em.
    destruct (nodes s !! b) as [nb|] eqn:Hb; [|done]. cbn. intros [= <-].
    destruct (Hu _ _ Hb) as (Ep & Ed & Es). unfold released.
    destruct (0 <? usage_count nb); [done|]. cbn. split; [done|]. split; [done|]. by left.
Qed.

Lemma create_uniform baddr b ma s : create baddr b ma = Some s -> uniform s.
Proof.
  rewrite create_eq. intros [= <-] a n. cbn.
  destruct (decide (a = 0%nat)) as [->|Hne].
  - rewrite lookup_insert_eq. intros [= <-]. cbn. split; [done|]. split; [done|]. by left.
  - rewrite lookup_insert_ne by done. by rewrite lookup_empty.
Qed.

(** ** Invariants of the reachable states *)

Lemma effect_block s c s' :
  effect s c s' ->
  blk_regions (block s') = blk_regions (block s)
  /\ blk_memory (block s') = blk_memory (block s)
  /\ block_addr s' = block_addr s.
Proof.
  intros Heff.
  destruct Heff as [request Hpos|request a n Hpos Hrem Hn Hfit|a n Hn|a n Hn
                   |a n s' Hn Hm|s' Hm|s' Hnodes Hres Hh Ea Eb Em Er]; try done.
  - unfold after_reserve. by destruct (splits n request).
  - by rewrite (mg_block _ _ Hm), (mg_block_addr _ _ Hm).
  - by rewrite (mg_block _ _ Hm), (mg_block_addr _ _ Hm).
Qed.

Lemma create_sound baddr b ma s : create baddr b ma = Some s -> sound s.
Proof.
  intros H. pose proof (create_uniform _ _ _ _ H) as Hu.
  rewrite create_eq in H. injection H as <-.
  assert (E : slack {| block_addr := baddr; block := set_regions (Some 0%nat) b;
                       nodes := <[0%nat := initial_region baddr b]> ∅;
                       arena_next := 1%nat; allocators := ma; history := [] |} = 0).
  { unfold slack. cbn. rewrite total_insert_fresh by done. by rewrite total_empty. }
  split; [done|done|done|lia|done].
Qed.

Lemma effect_sound s l c s' :
  well_formed s l -> sound s -> effect s c s' -> sound s'.
Proof.
  intros Hwf [H1 H2 H3 H4 H5] Heff.
  destruct (effect_block _ _ _ Heff) as (Er & _ & _).
  destruct (effect_uniform _ _ _ _ Hwf H2 Heff) as [Hu _].
  destruct (effect_accounted _ _ _ _ Hwf Heff) as (Ea & Hp & Hle & Heq).
  split; [congruence|done|by apply Hp|lia|].
  intros Hat. rewrite Ea in Hat. rewrite (Heq Hat). by apply H5.
Qed.

Lemma reachable_sound s : reachable s -> sound s.
Proof.
  induction 1 as [baddr b ma s Hc|s c s' Hr IH Hcall].
  - by eapply create_sound.
  - destruct (reachable_well_formed _ Hr) as [l Hwf].
    eapply effect_sound; [exact Hwf|done|]. by eapply call_effect.
Qed.

Lemma reached_reachable b s : reached b s -> reachable s.
Proof.
  intros (baddr & ma & s0 & cs & Hc & Hcs).
  eapply calls_reachable; [|exact Hcs]. by eapply reachable_create.
Qed.

Lemma calls_block cs : forall s l s',
  well_formed s l -> calls cs s = Some s' ->
  blk_memory (block s') = blk_memory (block s)
  /\ allocators s' = allocators s.
Proof.
  induction cs as [|c cs IH]; intros s l s' Hwf H; cbn in H.
  - by injection H as <-.
  - destruct (call c s) as [[[] s1]|] eqn:E; [|done].
    destruct (call_well_formed _ _ _ _ Hwf E) as [l1 Hwf1].
    pose proof (call_effect _ _ _ _ Hwf E) as Heff.
    destruct (effect_block _ _ _ Heff) as (_ & Em & _).
    destruct (effect_accounted _ _ _ _ Hwf Heff) as (Ea & _).
    destruct (IH s1 l1 s' Hwf1 H) as [E1 E2]. split; congruence.
Qed.

Lemma reached_in_range b s :
  reached b s -> fresh_block b ->
  in_range s /\ blk_memory (block s) = blk_memory b.
Proof.
  intros (baddr & ma & s0 & cs & Hc & Hcs) Hb.
  pose proof (create_well_formed _ _ _ _ Hc) as Hwf0.
  pose proof (create_in_range _ _ _ _ Hb Hc) as Hr0.
  destruct (calls_invariant cs s0 _ s Hwf0 Hr0 Hcs) as [_ Hr].
  destruct (calls_block cs s0 _ s Hwf0 Hcs) as [Em _].
  split; [done|]. rewrite Em. rewrite create_eq in Hc. by injection Hc as <-.
Qed.

(** ** [destroy] *)

Lemma destroy_events_teardown ma a n :
  destroy_events ma a n = teardown_events ma (a, n).
Proof.
  unfold destroy_events, teardown_events, dealloc_events, needs_free. cbn.
  by destruct (mr_handle (memory n) =? 0).
Qed.

(** The events of the destruction of the nodes [l] of the store [h]. *)
Lemma destroy_loop_spec l : forall s pred p fuel,
  wfseg (nodes s) pred p l None ->
  NoDup l ->
  (length l <= fuel)%nat ->
  exists s',
    destroy_loop fuel p s = Some (tt, s')
    /\ (forall b, nodes s' !! b = if decide (b ∈ l) then None else nodes s !! b)
    /\ history s'
       = history s
         ++ concat (map (fun a => match nodes s !! a with
                                  | Some n => teardown_events (allocators s) (a, n)
                                  | None => []
                                  end) l)
    /\ block s' = block s
    /\ allocators s' = allocators s
    /\ arena_next s' = arena_next s
    /\ block_addr s' = block_addr s.
Proof.
  induction l as [|a l IH]; intros s pred p fuel Hseg Hnd Hlen.
  { cbn in Hseg. subst p. exists s. split; [by destruct fuel|].
    split; [intros b; by rewrite decide_False by apply not_elem_of_nil|].
    cbn. by rewrite app_nil_r. }
  destruct Hseg as (-> & n & Hn & _ & Hrest).
  apply NoDup_cons in Hnd as [Ha Hnd].
  destruct fuel as [|fuel]; [cbn in Hlen; lia|]. cbn in Hlen.
  set (s1 := with_history (history s ++ destroy_events (allocators s) a n)
               (with_nodes (delete a (nodes s)) s)).
  assert (H1 : destroy_block_region a s = Some (tt, s1)) by (by apply destroy_block_region_eq).
  assert (Hframe : forall b, b ∈ l -> nodes s1 !! b = nodes s !! b).
  { intros b Hb. cbn. rewrite lookup_delete_ne; [done|]. intros ->. done. }
  destruct (IH s1 (Some a) (next_ptr n) fuel) as (s' & Hrun & Hnodes & Hh & Hb & Hal & Har & Hba);
    [by eapply wfseg_frame|done|lia|].
  exists s'. split.
  { cbn [destroy_loop]. rewrite (bind_eq _ _ _ _ _ (rd_eq _ _ _ next_ptr Hn)).
    destruct (next_ptr n); by rewrite (bind_eq _ _ _ _ _ H1). }
  split.
  { intros b. rewrite Hnodes. destruct (decide (b = a)) as [->|Hne].
    - rewrite (decide_True (P := a ∈ a :: l)) by (by left).
      destruct (decide (a ∈ l)); [done|]. cbn. apply lookup_delete_eq.
    - destruct (decide (b ∈ l)) as [Hin|Hin].
      + by rewrite decide_True by (by right).
      + rewrite decide_False by (rewrite elem_of_cons; tauto).
        cbn. by rewrite lookup_delete_ne. }
  split; [|done].
  rewrite Hh. cbn [map concat]. rewrite Hn. cbn [history s1 with_history with_nodes allocators].
  rewrite destroy_events_teardown, <- app_assoc. f_equal. f_equal. f_equal.
  apply map_ext_in. intros b Hin. apply list_elem_of_In in Hin.
  by rewrite (Hframe b Hin).
Qed.

Lemma destroy_spec s l :
  well_formed s l ->
  exists s',
    destroy s = Some (tt, s')
    /\ nodes s' = ∅
    /\ blk_regions (block s') = None
    /\ blk_reserved (block s') = 0
    /\ blk_memory (block s') = blk_memory (block s)
    /\ allocators s' = allocators s
    /\ history s'
       = history s ++ concat (map (teardown_events (allocators s)) (region_list s)).
Proof.
  intros Hwf.
  destruct (destroy_loop_spec l s None (blk_regions (block s)) (size (nodes s)))
    as (s1 & Hrun & Hnodes & Hh & Hb & Hal & Har & Hba);
    [apply (wf_chain _ _ Hwf)|apply (wf_nodup _ _ Hwf)|by apply well_formed_length|].
  eexists. split.
  { unfold destroy. repeat mstep. rewrite (bind_eq _ _ _ _ _ Hrun).
    repeat mstep. unfold arena_destroy. reflexivity. }
  cbn. rewrite Hb, Hal. split; [done|]. split; [done|]. split; [done|].
  split; [done|]. split; [done|].
  rewrite Hh. f_equal. f_equal.
  destruct (region_list_well_formed _ _ Hwf) as [E F]. clear -E F. revert l E.
  induction F as [|[a n] W Hn F IH]; intros l <-; [done|].
  cbn in *. rewrite Hn. f_equal. by apply IH.
Qed.

(** ** [collect] on a list without available neighbours *)

Lemma collect_loop_quiet fuel : forall s done rest result,
  well_formed s (done ++ rest) ->
  no_adjacent_nodes (nodes s) (done ++ rest) ->
  (length rest <= fuel)%nat ->
  collect_loop fuel (head rest) result s = Some (result, s).
Proof.
  induction fuel as [|fuel IH]; intros s done rest result Hwf Hadj Hlen.
  { destruct rest; [done|cbn in Hlen; lia]. }
  destruct rest as [|a l2]; [done|].
  cbn [head collect_loop]. cbn in Hlen.
  destruct (well_formed_at _ _ _ _ Hwf) as (n & Hn & Hprev & Hnext & Hlp & Hln).
  rewrite (bind_eq _ _ _ _ _ (can_coalesce_eq _ _ _ Hn Hlp Hln)).
  assert (Ecc : available n
                && (node_available (nodes s) (prev_ptr n)
                    || node_available (nodes s) (next_ptr n)) = false).
  { destruct (available n) eqn:Eav; [|done]. cbn [andb].
    apply orb_false_iff. split.
    - destruct Hprev as [->| ->]; [done|]. unfold last_or.
      destruct (last done) as [d|] eqn:El; [|done].
      apply last_Some in El as [d' ->].
      specialize (Hadj d' d a l2). rewrite <- app_assoc in Hadj.
      specialize (Hadj eq_refl). cbn [node_available] in Hadj. rewrite Hn, Eav in Hadj.
      by rewrite andb_true_r in Hadj.
    - rewrite Hnext. destruct l2 as [|y l2]; [done|].
      specialize (Hadj done a y l2 eq_refl). cbn [node_available] in Hadj.
      rewrite Hn, Eav in Hadj. done. }
  rewrite Ecc.
  rewrite (bind_eq _ _ _ _ _ (rd_eq _ _ _ next_ptr Hn)), Hnext.
  apply (IH s (done ++ [a]) l2); [by rewrite <- app_assoc|by rewrite <- app_assoc|lia].
Qed.

Lemma collect_quiet s l :
  well_formed s l -> no_adjacent_nodes (nodes s) l -> collect s = Some (false, s).
Proof.
  intros Hwf Hadj. rewrite collect_unfold, (well_formed_head _ _ Hwf).
  apply (collect_loop_quiet _ s [] l); [done|done|by apply well_formed_length].
Qed.

(** ** The first fit *)

Lemma first_fit_unique {A} (P : A -> bool) (l1 l2 l1' l2' : list A) x x' :
  l1 ++ x :: l2 = l1' ++ x' :: l2' ->
  Forall (fun y => P y = false) l1 -> P x = true ->
  Forall (fun y => P y = false) l1' -> P x' = true ->
  l1 = l1' /\ x = x' /\ l2 = l2'.
Proof.
  revert l1'. induction l1 as [|y l1 IH]; intros l1' E F Hx F' Hx'.
  - destruct l1' as [|y' l1']; cbn in E.
    + by injection E as -> ->.
    + injection E as -> _. apply Forall_cons in F' as [Hy _]. congruence.
  - destruct l1' as [|y' l1']; cbn in E.
    + injection E as -> _. apply Forall_cons in F as [Hy _]. congruence.
    + injection E as -> E. apply Forall_cons in F as [_ F]. apply Forall_cons in F' as [_ F'].
      destruct (IH l1' E F Hx F' Hx') as (-> & -> & ->). done.
Qed.

(** [find_block_region] returns the first node of the list that fits. *)
Lemma find_block_region_first s l request l1 a n l2 :
  well_formed s l ->
  region_list s = l1 ++ (a, n) :: l2 ->
  Forall (fun bn => fits s request bn.2 = false) l1 ->
  fits s request n = true ->
  find_block_region request s = Some (Some a, s).
Proof.
  intros Hwf El F Hfit.
  destruct (find_block_region_loop_total request l s None (blk_regions (block s))
              (size (nodes s))) as [r Hr];
    [apply (wf_chain _ _ Hwf)|by apply well_formed_length|].
  assert (Hfind : find_block_region request s = Some (r, s)).
  { unfold find_block_region. by repeat mstep. }
  rewrite Hfind. destruct (find_block_region_spec _ _ _ _ Hfind) as [_ Hspec].
  destruct r as [a'|].
  - destruct Hspec as (l1' & n' & l2' & El' & F' & Hfit').
    rewrite El in El'.
    destruct (first_fit_unique (fun bn => fits s request bn.2) _ _ _ _ _ _ El' F Hfit F' Hfit')
      as (_ & E & _).
    by injection E as -> _.
  - exfalso. rewrite El in Hspec. apply Forall_app in Hspec as [_ Hspec].
    apply Forall_cons in Hspec as [Hspec _]. cbn in Hspec. congruence.
Qed.

(** * The claims *)

(** ** C1: the region list tiles the block *)

(** C1. The region list is claimed to cover [0, block.size) without gaps or
    overlaps after any sequence of calls.  On the block of the test (1024
    bytes) the list tiles the block after [create] and after a [reserve] of 4
    bytes; after the [reclaim] of that region it does not: [free_block_region]
    has set the size and the offset of the node to 0, so the list is one
    region at offset 0 of size 1020.  With a second region reserved, the
    [reclaim] of the second one leaves it at offset 0 with size 1016, on top
    of the first region, which is still in use. *)
Theorem C1_reclaim_breaks_tiling :
  covers_block <$> after test_allocators 4 [] = Some true
  /\ covers_block <$> after test_allocators 4 [CallReserve (test_request 4 4)] = Some true
  /\ covers_block <$> after test_allocators 4
       [CallReserve (test_request 4 4); CallReclaim 0%nat] = Some false
  /\ (fun s => map (fun an => (mr_offset (memory an.2), mr_size (memory an.2)))
                   (region_list s))
       <$> after test_allocators 4 [CallReserve (test_request 4 4); CallReclaim 0%nat]
     = Some [(0, 1020)]
  /\ (fun s => map (fun an => (mr_offset (memory an.2), mr_size (memory an.2), status an.2))
                   (region_list s))
       <$> after test_allocators 4
             [CallReserve (test_request 4 4); CallReserve (test_request 4 4);
              CallReclaim 1%nat]
     = Some [(0, 4, InUse); (0, 1016, Available)].
Proof. repeat split; vm_compute; reflexivity. Qed.

(** ** C2: [block.reserved] is the sum of the sizes in use *)

(** C2. [block.reserved] is claimed to equal the sum of the sizes of the
    regions that are [InUse] or [Dedicated].  After a [reserve] of 4 bytes and
    a [retain] of the region both are 4; after the [reclaim] of the region no
    region is in use, yet [block.reserved] is still 4: [release_block_region]
    returned early because the usage count was 1, and [free_block_region] set
    the status to [Available] without touching [block.reserved]. *)
Theorem C2_reclaim_of_retained_region_keeps_reserved :
  (fun s => (blk_reserved (block s), in_use_total (region_list s)))
    <$> after test_allocators 4 [CallReserve (test_request 4 4); CallRetain 0%nat]
  = Some (4, 4)
  /\ (fun s => (blk_reserved (block s), in_use_total (region_list s)))
       <$> after test_allocators 4
             [CallReserve (test_request 4 4); CallRetain 0%nat; CallReclaim 0%nat]
     = Some (4, 0).
Proof. split; vm_compute; reflexivity. Qed.

(** ** C3: what [reserve] returns *)

(** A reachable state is the state after a run of calls on an allocator
    that [create] returned. *)
Lemma calls_snoc cs c : forall s s1 s',
  calls cs s = Some s1 -> call c s1 = Some (tt, s') -> calls (cs ++ [c]) s = Some s'.
Proof.
  induction cs as [|c0 cs IH]; intros s s1 s' H Hc; cbn in *.
  - injection H as <-. by rewrite Hc.
  - destruct (call c0 s) as [[[] s2]|]; [|done]. by eapply IH.
Qed.

Lemma reachable_calls s :
  reachable s ->
  exists baddr b ma s0 cs, create baddr b ma = Some s0 /\ calls cs s0 = Some s.
Proof.
  induction 1 as [baddr b ma s Hc|s c s' _ (baddr & b & ma & s0 & cs & Hc & Hcs) Hcall].
  - by exists baddr, b, ma, s, [].
  - exists baddr, b, ma, s0, (cs ++ [c]). split; [done|]. by eapply calls_snoc.
Qed.

(** The offsets of the regions are multiples of every alignment that all
    the splits so far conformed to. *)
Lemma conform_alignment_divides_word r q :
  conform_alignment r q <> 0 -> (conform_alignment r q | 2 ^ 64).
Proof.
  unfold conform_alignment, wrap64. intros Hne.
  pose proof (Z.log2_up_nonneg (Z.max r q)) as Hk.
  destruct (Z_lt_le_dec (Z.log2_up (Z.max r q)) 64) as [Hlt|Hge].
  - assert (2 ^ Z.log2_up (Z.max r q) <= 2 ^ 63) by (apply Z.pow_le_mono_r; lia).
    assert (0 < 2 ^ Z.log2_up (Z.max r q)) by (apply Z.pow_pos_nonneg; lia).
    rewrite Z.mod_small by lia.
    exists (2 ^ (64 - Z.log2_up (Z.max r q))).
    rewrite <- Z.pow_add_r by lia. f_equal. lia.
  - exfalso. apply Hne.
    replace (Z.log2_up (Z.max r q)) with (64 + (Z.log2_up (Z.max r q) - 64)) by lia.
    rewrite Z.pow_add_r by lia. by rewrite Z.mul_comm, Z.mod_mul by lia.
Qed.

Lemma conform_alignment_small r q :
  Z.max r q <= 2 ^ 63 ->
  conform_alignment r q = 2 ^ Z.log2_up (Z.max r q)
  /\ 0 <= Z.log2_up (Z.max r q) <= 63.
Proof.
  intros Hmax. pose proof (Z.log2_up_nonneg (Z.max r q)) as Hk.
  assert (Hle : Z.log2_up (Z.max r q) <= 63).
  { destruct (Z_lt_le_dec 0 (Z.max r q)) as [Hpos|Hnp].
    - by apply Z.log2_up_le_pow2.
    - rewrite Z.log2_up_eqn0 by lia. lia. }
  split; [|lia]. unfold conform_alignment, wrap64.
  assert (2 ^ Z.log2_up (Z.max r q) <= 2 ^ 63) by (apply Z.pow_le_mono_r; lia).
  assert (0 < 2 ^ Z.log2_up (Z.max r q)) by (apply Z.pow_pos_nonneg; lia).
  rewrite Z.mod_small; lia.
Qed.

Lemma aligned_offset_divide c x al :
  al <> 0 -> (al | 2 ^ 64) -> (c | al) -> (c | aligned_offset x al).
Proof.
  intros Hne Hw Hc. unfold aligned_offset, wrap64, round_up.
  rewrite (proj2 (Z.eqb_neq al 0) Hne).
  rewrite Z.mod_eq by lia. apply Z.divide_sub_r.
  - apply Z.divide_mul_r. done.
  - apply Z.divide_mul_l. by etrans.
Qed.

Lemma merged_aligned c s s' :
  merged s s' -> aligned_regions c s -> aligned_regions c s'.
Proof.
  intros Hm Hal b nb' Hb'.
  destruct (mg_nodes _ _ Hm _ _ Hb') as (nb & Hb & (_ & _ & _ & -> & _)).
  by apply (Hal b).
Qed.

Lemma effect_aligned c s l cl s' :
  well_formed s l -> effect s cl s' ->
  reserves_conform_to c (block s) cl ->
  aligned_regions c s -> aligned_regions c s'.
Proof.
  intros Hwf Heff Hcl Hal.
  destruct Heff as [request Hpos|request a n Hpos Hrem Hn Hfit|a n Hn|a n Hn
                   |a n s' Hn Hm|s' Hm|s' Hnodes Hres Hh Ea Eb Em Er].
  - done.
  - destruct Hcl as [Hne Hc]. intros b nb' Hb'.
    destruct (decide (b = a)) as [->|Hba].
    + rewrite after_reserve_node in Hb'. injection Hb' as <-.
      destruct (allocated_memory (allocators s) (placed s n request)) as (E & _).
      destruct (placed_memory s n request) as (F & _).
      cbn [memory set_usage_count]. rewrite E, F. by apply (Hal a).
    + pose proof (after_reserve_frame s l a n request b Hwf Hn Hba) as H.
      rewrite Hb' in H.
      destruct H as [(_ & _ & _ & ->)|(nb & Hb & [->| ->])].
      * cbn. apply aligned_offset_divide; [done| |done].
        by apply conform_alignment_divides_word.
      * by apply (Hal b).
      * cbn. by apply (Hal b).
  - intros b nb'. cbn. destruct (decide (b = a)) as [->|Hba].
    + rewrite lookup_insert_eq. intros [= <-].
      replace (mr_offset (memory (released (decremented n)))) with (mr_offset (memory n)).
      * by apply (Hal a).
      * unfold released, decremented.
        by repeat (match goal with |- context [if ?c then _ else _] => destruct c end; cbn).
    + rewrite lookup_insert_ne by done. apply Hal.
  - intros b nb'. cbn. destruct (decide (b = a)) as [->|Hba].
    + rewrite lookup_insert_eq. intros [= <-]. cbn. by apply (Hal a).
    + rewrite lookup_insert_ne by done. apply Hal.
  - eapply merged_aligned; [exact Hm|].
    intros b nb'. cbn. destruct (decide (b = a)) as [->|Hba].
    + rewrite lookup_insert_eq. intros [= <-].
      pose proof (Hal a n Hn) as Ha.
      unfold freed, released, decremented.
      repeat (match goal with |- context [if ?c then _ else _] => destruct c end; cbn);
        try done; apply Z.divide_0_r.
    + rewrite lookup_insert_ne by done. apply Hal.
  - by eapply merged_aligned.
  - intros b nb'. rewrite Hnodes.
    destruct (nodes s !! b) as [nb|] eqn:Hb; [|done]. cbn. intros [= <-].
    unfold released. destruct (0 <? usage_count nb); cbn; by apply (Hal b).
Qed.

Lemma conformed_memory b b' q :
  blk_memory b' = blk_memory b -> conformed b' q = conformed b q.
Proof. unfold conformed. by intros ->. Qed.

Lemma calls_aligned c b cs : forall s l s',
  well_formed s l -> blk_memory (block s) = blk_memory b ->
  aligned_regions c s ->
  Forall (reserves_conform_to c b) cs ->
  calls cs s = Some s' ->
  aligned_regions c s'.
Proof.
  induction cs as [|cl cs IH]; intros s l s' Hwf Em Hal Hcs H; cbn in H.
  - by injection H as <-.
  - apply Forall_cons in Hcs as [Hcl Hcs].
    destruct (call cl s) as [[[] s1]|] eqn:E; [|done].
    destruct (call_well_formed _ _ _ _ Hwf E) as [l1 Hwf1].
    pose proof (call_effect _ _ _ _ Hwf E) as Heff.
    destruct (effect_block _ _ _ Heff) as (_ & Em1 & _).
    apply (IH s1 l1 s' Hwf1); [congruence| |done|done].
    eapply effect_aligned; [exact Hwf|exact Heff| |done].
    destruct cl; try done. cbn in *. by rewrite (conformed_memory b (block s)).
Qed.

Lemma create_aligned c baddr b ma s :
  create baddr b ma = Some s -> aligned_regions c s /\ blk_memory (block s) = blk_memory b.
Proof.
  rewrite create_eq. intros [= <-]. split; [|done]. intros a n. cbn.
  destruct (decide (a = 0%nat)) as [->|Hne].
  - rewrite lookup_insert_eq. intros [= <-]. cbn. apply Z.divide_0_r.
  - rewrite lookup_insert_ne by done. by rewrite lookup_empty.
Qed.

(** A request that asks for no more than the alignment of the block is
    conformed to the alignment every other request is conformed to a
    multiple of. *)
Lemma conformed_least b request q :
  rq_alignment request <= alignment (mb_properties (blk_memory b)) <= 2 ^ 63 ->
  rq_alignment q <= 2 ^ 63 ->
  conformed b q <> 0 /\ (conformed b request | conformed b q).
Proof.
  intros [Hle Hb] Hq. unfold conformed.
  set (ba := alignment (mb_properties (blk_memory b))) in *.
  destruct (conform_alignment_small (rq_alignment q) ba) as [-> Hk]; [lia|].
  destruct (conform_alignment_small (rq_alignment request) ba) as [-> Hk0]; [lia|].
  assert (Hmono : Z.log2_up (Z.max (rq_alignment request) ba)
                  <= Z.log2_up (Z.max (rq_alignment q) ba)).
  { apply Z.log2_up_le_mono. lia. }
  split.
  - assert (0 < 2 ^ Z.log2_up (Z.max (rq_alignment q) ba)) by (apply Z.pow_pos_nonneg; lia).
    lia.
  - exists (2 ^ (Z.log2_up (Z.max (rq_alignment q) ba)
                 - Z.log2_up (Z.max (rq_alignment request) ba))).
    rewrite <- Z.pow_add_r by lia. f_equal. lia.
Qed.

Lemma divide_mod_0 c x : (c | x) -> x mod c = 0.
Proof.
  intros H. destruct (decide (c = 0)) as [->|Hne].
  - apply Z.divide_0_l in H. by subst x.
  - by apply Z.mod_divide.
Qed.

(** C3, counterexample.  The block requires an alignment of 64.  A first
    request of 64 bytes with alignment 16 is placed at offset 0 and leaves the
    rest of the block at offset 64.  A second request of 64 bytes with
    alignment 128 is placed in that rest: the region returned has offset 64,
    which is not a multiple of [conform_alignment 128 64 = 128]. *)
Lemma C3_counterexample :
  exists s s' n',
    after test_allocators 64 [CallReserve (test_request 64 16)] = Some s
    /\ reserve (test_request 64 128) s = Some (Some 1%nat, s')
    /\ nodes s' !! 1%nat = Some n'
    /\ mr_offset (memory n') = 64
    /\ conform_alignment 128 (alignment (mb_properties (blk_memory (block s)))) = 128
    /\ ~ reserve_postconditions s (test_request 64 128) n'.
Proof.
  eexists _, _, _. split; [vm_compute; reflexivity|].
  split; [vm_compute; reflexivity|]. split; [vm_compute; reflexivity|].
  split; [reflexivity|]. split; [reflexivity|].
  intros [H _]. vm_compute in H. discriminate.
Qed.

(** C3, amended.  A region returned by [reserve] is the region
    [find_block_region] selected: it has the offset and the properties that
    region had, so its properties are compatible with the requested ones, and
    its size is at least the requested size (it is the requested size when the
    region was split).  [reserve] never moves the start of a region, and the
    offsets of the regions come from the splits: the offset returned is a
    multiple of the conformed alignment of the request whenever every
    [reserve] before it was conformed to a multiple of that alignment.  That
    is always so for a request that asks for no more than the alignment of the
    block (alignments up to [2 ^ 63], the largest power of two of
    [size_t]). *)
Theorem C3_reserve_returns_selected_region baddr b ma s0 cs s request r s' :
  create baddr b ma = Some s0 ->
  calls cs s0 = Some s ->
  reserve request s = Some (Some r, s') ->
  exists n n',
    nodes s !! r = Some n
    /\ nodes s' !! r = Some n'
    /\ fits s request n = true
    /\ mr_offset (memory n') = mr_offset (memory n)
    /\ mr_properties (memory n') = mr_properties (memory n)
    /\ mr_size (memory n')
       = (if splits n request then rq_size request else mr_size (memory n))
    /\ rq_size request <= mr_size (memory n')
    /\ compatible (mr_properties (memory n')) (rq_properties request)
    /\ conformed b request
       = conform_alignment (rq_alignment request)
           (alignment (mb_properties (blk_memory (block s))))
    /\ (Forall (reserves_conform_to (conformed b request) b) cs ->
        mr_offset (memory n') mod conformed b request = 0)
    /\ (rq_alignment request <= alignment (mb_properties (blk_memory b)) <= 2 ^ 63 ->
        Forall alignment_in_range cs ->
        mr_offset (memory n') mod conformed b request = 0).
Proof.
  intros Hc Hcs H.
  assert (Hreach : reachable s).
  { eapply calls_reachable; [|exact Hcs]. by eapply reachable_create. }
  destruct (reachable_well_formed _ Hreach) as [l Hwf].
  pose proof (create_well_formed _ _ _ _ Hc) as Hwf0.
  destruct (calls_block cs s0 _ s Hwf0 Hcs) as [Em _].
  assert (Hal : forall c, Forall (reserves_conform_to c b) cs -> aligned_regions c s).
  { intros c Hall. destruct (create_aligned c _ _ _ _ Hc) as [Hal0 Em0].
    by eapply (calls_aligned c b cs s0). }
  destruct (create_aligned 0 _ _ _ _ Hc) as [_ Em0].
  destruct (reserve_inv _ _ _ _ _ Hwf H) as
    [_ [[? _]|(a & n & l1 & l2 & [= <-] & _ & _ & _ & Hfit & Hn & ->)]]; [done|].
  exists n, (set_usage_count 1 (allocated (allocators s) (placed s n request))).
  destruct (placed_memory s n request) as (Po & Pp & _ & _ & Ps).
  destruct (allocated_memory (allocators s) (placed s n request)) as (Ao & Ap & As & _).
  destruct (fits_size _ _ _ Hfit) as [Hsz Hcomp].
  split; [done|]. split; [apply after_reserve_node|]. split; [done|].
  cbn [memory set_usage_count].
  split; [congruence|]. split; [congruence|]. split; [congruence|].
  split. { rewrite As, Ps. by destruct (splits n request). }
  split. { rewrite Ap, Pp. by apply is_compatible_block_region_spec. }
  split. { unfold conformed. by rewrite Em, Em0. }
  rewrite Ao, Po. split.
  - intros Hall. apply divide_mod_0. by apply (Hal _ Hall r).
  - intros Hb Hrange. apply divide_mod_0. apply (fun Hall => Hal _ Hall r n Hn).
    eapply Forall_impl; [exact Hrange|].
    intros [q| | | | |]; cbn; try done. intros Hq. by apply conformed_least.
Qed.

Lemma C3_witness :
  exists s0 s s',
    create 0 (test_block 64) test_allocators = Some s0
    /\ calls [CallReserve (test_request 64 16); CallReserve (test_request 100 32)] s0 = Some s
    /\ reserve (test_request 64 16) s = Some (Some 2%nat, s')
    /\ Forall alignment_in_range
         [CallReserve (test_request 64 16); CallReserve (test_request 100 32)]
    /\ rq_alignment (test_request 64 16)
       <= alignment (mb_properties (blk_memory (test_block 64))) <= 2 ^ 63
    /\ (fun an => mr_offset (memory an.2)) <$> region_list s = [0; 64; 192]
    /\ conformed (test_block 64) (test_request 64 16) = 64
    /\ (mr_offset <$> (memory <$> nodes s' !! 2%nat)) = Some 192
    /\ exists n n',
         nodes s !! 2%nat = Some n
         /\ nodes s' !! 2%nat = Some n'
         /\ fits s (test_request 64 16) n = true
         /\ mr_offset (memory n') = mr_offset (memory n)
         /\ mr_properties (memory n') = mr_properties (memory n)
         /\ mr_size (memory n')
            = (if splits n (test_request 64 16) then rq_size (test_request 64 16)
               else mr_size (memory n))
         /\ rq_size (test_request 64 16) <= mr_size (memory n')
         /\ compatible (mr_properties (memory n')) (rq_properties (test_request 64 16))
         /\ conformed (test_block 64) (test_request 64 16)
            = conform_alignment (rq_alignment (test_request 64 16))
                (alignment (mb_properties (blk_memory (block s))))
         /\ (Forall (reserves_conform_to (conformed (test_block 64) (test_request 64 16))
                       (test_block 64))
               [CallReserve (test_request 64 16); CallReserve (test_request 100 32)] ->
             mr_offset (memory n') mod conformed (test_block 64) (test_request 64 16) = 0)
         /\ (rq_alignment (test_request 64 16)
             <= alignment (mb_properties (blk_memory (test_block 64))) <= 2 ^ 63 ->
             Forall alignment_in_range
               [CallReserve (test_request 64 16); CallReserve (test_request 100 32)] ->
             mr_offset (memory n') mod conformed (test_block 64) (test_request 64 16) = 0).
Proof.
  eexists _, _, _. split; [apply create_eq|].
  split; [vm_compute; reflexivity|]. split; [vm_compute; reflexivity|].
  split; [repeat constructor; cbn; lia|]. split; [cbn; lia|].
  split; [vm_compute; reflexivity|]. split; [vm_compute; reflexivity|].
  split; [vm_compute; reflexivity|].
  eapply (C3_reserve_returns_selected_region 0 (test_block 64) test_allocators _
            [CallReserve (test_request 64 16); CallReserve (test_request 100 32)]).
  - apply create_eq.
  - vm_compute; reflexivity.
  - vm_compute; reflexivity.
Defined.

(** ** C4: failure of the region-allocate callback *)

(** C4, counterexample.  With a region-allocate callback that returns an
    error code and attaches no memory, [reserve] still returns the region (not
    null): the region is [InUse] with usage count 1 and a null handle, and
    [block.reserved] has grown by its size. *)
Lemma C4_counterexample :
  exists s' n' m,
    reserve (test_request 4 4) (test_allocator failing_allocators 4) = Some (Some 0%nat, s')
    /\ history s' = [EvAllocate 0%nat m (-1)]
    /\ nodes s' !! 0%nat = Some n'
    /\ status n' = InUse /\ usage_count n' = 1 /\ mr_handle (memory n') = 0
    /\ blk_reserved (block s') = 4.
Proof.
  eexists _, _, _. split; [vm_compute; reflexivity|].
  split; [reflexivity|]. split; [vm_compute; reflexivity|]. done.
Qed.

(** The region [reserve] returns is in use with usage count 1. *)
Lemma reserve_marks_in_use s request a s' :
  reachable s ->
  reserve request s = Some (Some a, s') ->
  exists n',
    nodes s' !! a = Some n'
    /\ in_use n' = true
    /\ usage_count n' = 1.
Proof.
  intros Hreach H. destruct (reachable_well_formed _ Hreach) as [l Hwf].
  destruct (reserve_inv _ _ _ _ _ Hwf H) as
    [_ [[? _]|(a' & n & l1 & l2 & [= <-] & _ & _ & _ & _ & _ & ->)]]; [done|].
  eexists. split; [apply after_reserve_node|]. split; [|done].
  destruct (allocated_memory (allocators s) (placed s n request))
    as (_ & _ & _ & _ & _ & Ast & _).
  unfold in_use. cbn [status set_usage_count]. rewrite Ast.
  by destruct (mr_dedicated _).
Qed.

(** C4, amended.  [reserve] does not look at the result of the
    region-allocate callback.  It returns null only before it has changed
    anything, and then the allocator is unchanged.  Otherwise it returns the
    selected region as [InUse] (or [Dedicated]) with usage count 1 and
    [block.reserved] increased by the size of the region; the handle of the
    region is the one it kept, or else whatever the callback left in it,
    whether the callback succeeded or not. *)
Theorem C4_reserve_ignores_callback_result s request r s' :
  reachable s ->
  reserve request s = Some (r, s') ->
  match r with
  | None => s' = s
  | Some a =>
      exists n n',
        nodes s !! a = Some n
        /\ nodes s' !! a = Some n'
        /\ status n' = (if mr_dedicated (memory n) then Dedicated else InUse)
        /\ usage_count n' = 1
        /\ blk_reserved (block s')
           = wrap64 (blk_reserved (block s) + mr_size (memory n'))
        /\ mr_handle (memory n')
           = (if mr_handle (memory (placed s n request)) =? 0
              then snd (allocate (allocators s) (memory (placed s n request)))
              else mr_handle (memory (placed s n request)))
        /\ history s'
           = history s
             ++ (if splits n request then dealloc_events (allocators s) a n else [])
             ++ alloc_events (allocators s) a (placed s n request)
  end.
Proof.
  intros Hreach H. destruct (reachable_well_formed _ Hreach) as [l Hwf].
  destruct (reserve_inv _ _ _ _ _ Hwf H) as
    [_ [[-> ->]|(a & n & l1 & l2 & -> & _ & _ & _ & Hfit & Hn & ->)]]; [done|].
  exists n, (set_usage_count 1 (allocated (allocators s) (placed s n request))).
  destruct (placed_memory s n request) as (_ & _ & Pd & _ & _).
  destruct (allocated_memory (allocators s) (placed s n request))
    as (_ & _ & As & _ & _ & Ast & Ah).
  split; [done|]. split; [apply after_reserve_node|].
  cbn [memory status usage_count set_usage_count].
  split; [by rewrite Ast, Pd|]. split; [done|].
  split.
  { unfold after_reserve.
    cbn [block with_nodes with_block with_history blk_reserved set_reserved].
    by rewrite As. }
  split; [done|].
  unfold after_reserve, after_split.
  cbn [history with_nodes with_block with_history with_arena_next].
  destruct (splits n request);
    cbn [history with_nodes with_block with_history with_arena_next];
    [by rewrite <- app_assoc|done].
Qed.

Lemma C4_witness :
  reachable (test_allocator failing_allocators 4)
  /\ exists s',
       reserve (test_request 4 4) (test_allocator failing_allocators 4)
       = Some (Some 0%nat, s')
       /\ exists n n',
            nodes (test_allocator failing_allocators 4) !! 0%nat = Some n
            /\ nodes s' !! 0%nat = Some n'
            /\ status n' = (if mr_dedicated (memory n) then Dedicated else InUse)
            /\ usage_count n' = 1
            /\ blk_reserved (block s')
               = wrap64 (blk_reserved (block (test_allocator failing_allocators 4))
                         + mr_size (memory n'))
            /\ mr_handle (memory n')
               = (if mr_handle (memory (placed (test_allocator failing_allocators 4) n
                                          (test_request 4 4))) =? 0
                  then snd (allocate failing_allocators
                              (memory (placed (test_allocator failing_allocators 4) n
                                         (test_request 4 4))))
                  else mr_handle (memory (placed (test_allocator failing_allocators 4) n
                                            (test_request 4 4))))
            /\ history s'
               = history (test_allocator failing_allocators 4)
                 ++ (if splits n (test_request 4 4)
                     then dealloc_events failing_allocators 0%nat n else [])
                 ++ alloc_events failing_allocators 0%nat
                      (placed (test_allocator failing_allocators 4) n (test_request 4 4)).
Proof.
  split; [apply test_allocator_reachable|].
  eexists. split; [vm_compute; reflexivity|].
  apply (C4_reserve_ignores_callback_result (test_allocator failing_allocators 4)
           (test_request 4 4) (Some 0%nat)).
  - apply test_allocator_reachable.
  - vm_compute; reflexivity.
Defined.

(** ** C5: retain and release *)

(** C5, counterexample.  A region is reserved, released and then retained:
    one retain and one release, so the net usage count is 1 + 1 - 1 = 1 > 0,
    and the usage count of the region is indeed 1, but the region is
    [Available], not in use: [retain] only counts. *)
Lemma C5_counterexample :
  exists s s' n',
    after test_allocators 4 [CallReserve (test_request 4 4)] = Some s
    /\ calls (retain_release_calls 0%nat [false; true]) s = Some s'
    /\ count_after 1 [false; true] = 1
    /\ nodes s' !! 0%nat = Some n'
    /\ usage_count n' = 1
    /\ status n' = Available
    /\ in_use n' = false.
Proof.
  eexists _, _, _. split; [vm_compute; reflexivity|].
  split; [vm_compute; reflexivity|]. split; [reflexivity|].
  split; [vm_compute; reflexivity|]. done.
Qed.

Lemma in_use_not_available n : in_use n = true -> bool_decide (status n = Available) = false.
Proof.
  unfold in_use. intros H. apply bool_decide_eq_false. intros E. rewrite E in H.
  done.
Qed.

Lemma retain_release_run a ops : forall s n c,
  nodes s !! a = Some n ->
  block_ptr n = block_addr s ->
  usage_count n = c ->
  in_use n = true ->
  0 < c ->
  held_throughout c ops ->
  exists s' n',
    calls (retain_release_calls a ops) s = Some s'
    /\ nodes s' !! a = Some n'
    /\ usage_count n' = count_after c ops
    /\ memory n' = memory n
    /\ history s' = history s
    /\ ((0 < count_after c ops /\ status n' = status n
         /\ blk_reserved (block s') = blk_reserved (block s))
        \/ (count_after c ops = 0 /\ status n' = Available
            /\ blk_reserved (block s')
               = wrap64 (blk_reserved (block s) - mr_size (memory n)))).
Proof.
  induction ops as [|op ops IH]; intros s n c Hn Hbp Hc Hin Hpos Hheld.
  { exists s, n. cbn. do 5 (split; [done|]). by left. }
  destruct Hheld as (_ & Hlt & Hheld).
  destruct op; cbn [retain_release_calls map calls call];
    fold (retain_release_calls a ops).
  - (* retain *)
    rewrite (retain_eq _ _ _ Hn Hbp). rewrite Hc, wrap32_small by lia.
    edestruct (IH (with_nodes (<[a := set_usage_count (c + 1) n]> (nodes s)) s)
                 (set_usage_count (c + 1) n) (c + 1))
      as (s' & n' & Hrun & Hn' & Hcount & Hmem & Hhist & Hcase);
      [apply lookup_insert_eq|done|done|done|lia|done|].
    exists s', n'. done.
  - (* release *)
    rewrite (release_eq _ _ _ Hn Hbp).
    assert (Hdec : decremented n = set_usage_count (c - 1) n).
    { unfold decremented. rewrite Hc, (proj2 (Z.ltb_lt 0 c)) by done.
      by rewrite wrap32_small by lia. }
    rewrite Hdec. unfold released, release_reserved.
    cbn [usage_count status memory set_usage_count].
    destruct (0 <? c - 1) eqn:E.
    + apply Z.ltb_lt in E. rewrite set_reserved_id, with_block_id.
      edestruct (IH (with_nodes (<[a := set_usage_count (c - 1) n]> (nodes s)) s)
                   (set_usage_count (c - 1) n) (c - 1))
        as (s' & n' & Hrun & Hn' & Hcount & Hmem & Hhist & Hcase);
        [apply lookup_insert_eq|done|done|done|lia|done|].
      exists s', n'. done.
    + apply Z.ltb_ge in E. assert (c = 1) as -> by lia.
      destruct ops as [|op ops]; [|cbn in Hheld; lia].
      rewrite (in_use_not_available _ Hin).
      eexists _, _. split; [reflexivity|]. split; [apply lookup_insert_eq|].
      cbn. do 3 (split; [done|]). by right.
Qed.

(** The effect of one [release] on a region. *)
Lemma release_effect s a n :
  reachable s ->
  nodes s !! a = Some n ->
  exists s' n',
    release a s = Some (tt, s')
    /\ nodes s' !! a = Some n'
    /\ usage_count n'
       = (if 0 <? usage_count n then wrap32 (usage_count n - 1) else usage_count n)
    /\ memory n' = memory n
    /\ history s' = history s
    /\ (if 0 <? usage_count n'
        then status n' = status n
             /\ blk_reserved (block s') = blk_reserved (block s)
        else status n' = Available
             /\ blk_reserved (block s')
                = (if bool_decide (status n = Available) then blk_reserved (block s)
                   else wrap64 (blk_reserved (block s) - mr_size (memory n)))).
Proof.
  intros Hreach Hn. destruct (reachable_well_formed _ Hreach) as [l Hwf].
  rewrite (release_eq _ _ _ Hn (wf_owner _ _ Hwf _ _ Hn)).
  eexists _, _. split; [reflexivity|]. split; [apply lookup_insert_eq|].
  unfold released, release_reserved, decremented.
  destruct (0 <? usage_count n); cbn [usage_count set_usage_count memory status];
    destruct (0 <? _) eqn:E; cbn [usage_count set_usage_count memory status set_status];
    rewrite ?E; cbn; try done.
  all: destruct (bool_decide (status n = Available)); done.
Qed.

(** C5, amended.  For a region returned by [reserve] and a sequence of
    [retain] and [release] calls on it in which the region is still held when
    each call is made (the net usage count is positive before the call) and
    the count stays within [uint32_t]: the usage count is the net count
    1 + N - M, the region is [InUse] or [Dedicated] iff that count is
    positive, and when it is 0 the region is [Available] and its size has been
    subtracted from [block.reserved].  The memory of the region, its handle
    included, is unchanged and no callback has been invoked.  In any reachable
    state, [release] decrements the usage count of a region only when it is
    positive, leaves its memory alone and invokes no callback; when the count
    is 0 afterwards the region is [Available], and its size has been
    subtracted from [block.reserved] unless it was [Available] already. *)
Theorem C5_retain_release_balance s0 request a s ops :
  reachable s0 ->
  reserve request s0 = Some (Some a, s) ->
  held_throughout 1 ops ->
  (exists s' n n',
    calls (retain_release_calls a ops) s = Some s'
    /\ nodes s !! a = Some n
    /\ nodes s' !! a = Some n'
    /\ usage_count n' = count_after 1 ops
    /\ (in_use n' = true <-> 0 < count_after 1 ops)
    /\ memory n' = memory n
    /\ history s' = history s
    /\ ((0 < count_after 1 ops /\ status n' = status n
         /\ blk_reserved (block s') = blk_reserved (block s))
        \/ (count_after 1 ops = 0 /\ status n' = Available
            /\ blk_reserved (block s')
               = wrap64 (blk_reserved (block s) - mr_size (memory n)))))
  /\ (forall s1 b n1,
        reachable s1 -> nodes s1 !! b = Some n1 ->
        exists s1' n1',
          release b s1 = Some (tt, s1')
          /\ nodes s1' !! b = Some n1'
          /\ usage_count n1'
             = (if 0 <? usage_count n1 then wrap32 (usage_count n1 - 1)
                else usage_count n1)
          /\ memory n1' = memory n1
          /\ history s1' = history s1
          /\ (if 0 <? usage_count n1'
              then status n1' = status n1
                   /\ blk_reserved (block s1') = blk_reserved (block s1)
              else status n1' = Available
                   /\ blk_reserved (block s1')
                      = (if bool_decide (status n1 = Available)
                         then blk_reserved (block s1)
                         else wrap64 (blk_reserved (block s1) - mr_size (memory n1))))).
Proof.
  intros Hreach H Hheld. split; [|intros s1 b n1; apply release_effect].
  destruct (reserve_marks_in_use _ _ _ _ Hreach H) as (n & Hn & Hin & Hcount).
  destruct (reachable_well_formed _ (reserve_reachable _ _ _ _ Hreach H)) as [l Hwf].
  destruct (retain_release_run a ops s n 1 Hn (wf_owner _ _ Hwf _ _ Hn) Hcount Hin)
    as (s' & n' & Hrun & Hn' & Hc' & Hmem & Hhist & Hcase); [lia|done|].
  exists s', n, n'. repeat split; try done.
  - intros Hin'. destruct Hcase as [(? & _)|(_ & E & _)]; [done|].
    unfold in_use in Hin'. by rewrite E in Hin'.
  - intros Hpos. destruct Hcase as [(_ & E & _)|(? & _)]; [|lia].
    unfold in_use. rewrite E. exact Hin.
Qed.

Lemma C5_witness :
  reachable (test_allocator test_allocators 4)
  /\ exists s,
       reserve (test_request 4 4) (test_allocator test_allocators 4) = Some (Some 0%nat, s)
       /\ held_throughout 1 [true; false; false]
       /\ exists s' n n',
            calls (retain_release_calls 0%nat [true; false; false]) s = Some s'
            /\ nodes s !! 0%nat = Some n
            /\ nodes s' !! 0%nat = Some n'
            /\ usage_count n' = count_after 1 [true; false; false]
            /\ (in_use n' = true <-> 0 < count_after 1 [true; false; false])
            /\ memory n' = memory n
            /\ history s' = history s
            /\ ((0 < count_after 1 [true; false; false] /\ status n' = status n
                 /\ blk_reserved (block s') = blk_reserved (block s))
                \/ (count_after 1 [true; false; false] = 0 /\ status n' = Available
                    /\ blk_reserved (block s')
                       = wrap64 (blk_reserved (block s) - mr_size (memory n)))).
Proof.
  split; [apply test_allocator_reachable|].
  eexists. split; [vm_compute; reflexivity|].
  split; [cbn; lia|].
  apply (C5_retain_release_balance (test_allocator test_allocators 4)
           (test_request 4 4) 0%nat).
  - apply test_allocator_reachable.
  - vm_compute; reflexivity.
  - cbn; lia.
Defined.

(** ** C6: [collect] after [reclaim] *)

(** C6, counterexample.  Two regions are reserved; the first is released and
    then retained, which leaves it [Available] with usage count 1; the second
    is reclaimed.  [collect] then finds nothing to coalesce and returns
    [false], and the two regions of the list are neighbours that are both
    [Available]: [is_available] rejects the first one for its usage count. *)
Lemma C6_counterexample :
  exists s s1 s2,
    after test_allocators 4
      [CallReserve (test_request 4 4); CallReserve (test_request 4 4);
       CallRelease 0%nat; CallRetain 0%nat] = Some s
    /\ reclaim 1%nat s = Some (tt, s1)
    /\ collect s1 = Some (false, s2)
    /\ map (fun an => (status an.2, usage_count an.2)) (region_list s2)
       = [(Available, 1); (Available, 0)]
    /\ ~ no_adjacent status_available (region_list s2).
Proof.
  eexists _, _, _. split; [vm_compute; reflexivity|].
  split; [vm_compute; reflexivity|]. split; [vm_compute; reflexivity|].
  split; [vm_compute; reflexivity|].
  intros H. vm_compute in H. destruct H as [H _]. discriminate.
Qed.

(** C6, amended.  In a reachable state, after a [reclaim] that returns,
    [collect] returns, and in the list it leaves no two neighbours both pass
    [is_available] (status [Available] and usage count 0).  [collect]
    returns [true] iff it has coalesced, that is iff the list has become
    shorter; when it returns [false] the allocator is unchanged. *)
Theorem C6_collect_after_reclaim s a s1 :
  reachable s ->
  reclaim a s = Some (tt, s1) ->
  exists res s2,
    collect s1 = Some (res, s2)
    /\ no_adjacent available (region_list s2)
    /\ (res = true <-> (length (region_list s2) < length (region_list s1))%nat)
    /\ (res = false -> s2 = s1).
Proof.
  intros Hreach H.
  destruct (reachable_well_formed _ (reclaim_reachable _ _ _ Hreach H)) as [l Hwf].
  destruct (collect_spec _ _ Hwf) as (res & s2 & l2 & Hrun & Hwf2 & Hadj & _ & _ & Hres).
  exists res, s2. split; [done|]. split; [by eapply no_adjacent_region_list|].
  rewrite (region_list_length _ _ Hwf), (region_list_length _ _ Hwf2).
  destruct Hres as [(-> & -> & ->)|(-> & Hlt)].
  - split; [|done]. split; [done|lia].
  - split; [|done]. split; done.
Qed.

Lemma C6_witness :
  exists s s1,
    after test_allocators 4
      [CallReserve (test_request 4 4); CallReserve (test_request 4 4);
       CallReserve (test_request 4 4); CallRelease 0%nat; CallRelease 1%nat] = Some s
    /\ reachable s
    /\ reclaim 2%nat s = Some (tt, s1)
    /\ exists res s2,
         collect s1 = Some (res, s2)
         /\ no_adjacent available (region_list s2)
         /\ (res = true <-> (length (region_list s2) < length (region_list s1))%nat)
         /\ (res = false -> s2 = s1).
Proof.
  eexists _, _. split; [vm_compute; reflexivity|].
  split.
  { eapply (after_reachable test_allocators 4
              [CallReserve (test_request 4 4); CallReserve (test_request 4 4);
               CallReserve (test_request 4 4); CallRelease 0%nat; CallRelease 1%nat]).
    vm_compute; reflexivity. }
  split; [vm_compute; reflexivity|].
  eapply (C6_collect_after_reclaim _ 2%nat).
  - eapply (after_reachable test_allocators 4
              [CallReserve (test_request 4 4); CallReserve (test_request 4 4);
               CallReserve (test_request 4 4); CallRelease 0%nat; CallRelease 1%nat]).
    vm_compute; reflexivity.
  - vm_compute; reflexivity.
Defined.

(** ** C7: the release of all regions *)




(** ** C8: the region [reserve] selects *)

(** C8, counterexample.  A region of 4 bytes is reserved, released and then
    retained, which leaves it [Available] with usage count 1.  For a request
    of 4 bytes it is the first region of the list that is [Available],
    compatible, large enough and fits, but [reserve] places the request in the
    second region: [find_block_region] asks [is_available], which also wants
    the usage count to be 0. *)
Lemma C8_counterexample :
  exists s s' n0 rest,
    after test_allocators 4
      [CallReserve (test_request 4 4); CallRelease 0%nat; CallRetain 0%nat] = Some s
    /\ region_list s = (0%nat, n0) :: rest
    /\ fits_by_status s (test_request 4 4) n0 = true
    /\ reserve (test_request 4 4) s = Some (Some 1%nat, s').
Proof.
  eexists _, _, _, _. split; [vm_compute; reflexivity|].
  split; [vm_compute; reflexivity|]. split; [vm_compute; reflexivity|].
  vm_compute; reflexivity.
Qed.

(** C8, amended.  In a reachable state [reserve] returns for a request of
    positive size.  It returns null and leaves the allocator unchanged when
    [block.size - block.reserved], computed in [size_t], is less than the
    requested size.  Otherwise, when it returns a region, that region is the
    first region in list order that passes [is_available] (status
    [Available] and usage count 0), is compatible with the request, is at
    least as large as the request, and whose aligned size fits in the region
    and, added to [block.reserved], in the block; when no region of the list
    does, it returns null and leaves the allocator unchanged. *)
Theorem C8_reserve_first_fit s request :
  reachable s ->
  0 < rq_size request ->
  exists r s',
    reserve request s = Some (r, s')
    /\ if wrap64 (mb_size (blk_memory (block s)) - blk_reserved (block s))
          <? rq_size request
       then r = None /\ s' = s
       else match r with
            | Some a =>
                exists l1 n l2,
                  region_list s = l1 ++ (a, n) :: l2
                  /\ Forall (fun bn => fits s request bn.2 = false) l1
                  /\ fits s request n = true
            | None =>
                s' = s /\ Forall (fun bn => fits s request bn.2 = false) (region_list s)
            end.
Proof.
  intros Hreach Hpos. destruct (reachable_well_formed _ Hreach) as [l Hwf].
  destruct (reserve_total _ _ request Hwf Hpos) as (r & s' & H).
  exists r, s'. split; [done|].
  destruct (wrap64 _ <? rq_size request) eqn:Erem.
  - unfold reserve in H. rewrite (proj2 (Z.ltb_lt _ _)) in H by done.
    cbn [halide_abort_if_false] in H.
    rewrite (bind_eq (ret tt) _ _ _ _ eq_refl) in H.
    rewrite (bind_eq get_block _ _ _ _ eq_refl) in H. cbn zeta in H.
    rewrite Erem in H. by injection H as <- <-.
  - destruct (reserve_inv _ _ _ _ _ Hwf H) as
      [_ [[-> ->]|(a & n & l1 & l2 & -> & _ & El & Hno & Hfit & _)]].
    + split; [done|].
      unfold reserve in H. rewrite (proj2 (Z.ltb_lt _ _)) in H by done.
      cbn [halide_abort_if_false] in H.
      rewrite (bind_eq (ret tt) _ _ _ _ eq_refl) in H.
      rewrite (bind_eq get_block _ _ _ _ eq_refl) in H. cbn zeta in H.
      rewrite Erem in H. apply bind_inv in H as (r0 & s0 & Hfind & H).
      destruct (find_block_region_spec _ _ _ _ Hfind) as [-> Hr].
      destruct r0 as [a|]; [|done].
      destruct Hr as (l1 & n & l2 & El & _ & Hfit).
      assert (Hn : nodes s !! a = Some n).
      { apply (walk_lookup (size (nodes s)) _ (blk_regions (block s))).
        fold (region_list s). rewrite El, elem_of_app, elem_of_cons. tauto. }
      destruct (available_status _ (fits_available _ _ _ Hfit)) as [Hst _].
      pose proof (reserve_selected _ _ _ _ _ Hwf Hpos Erem Hfind Hn Hst) as H'.
      unfold reserve in H'. rewrite (proj2 (Z.ltb_lt _ _)) in H' by done.
      cbn [halide_abort_if_false] in H'.
      rewrite (bind_eq (ret tt) _ _ _ _ eq_refl) in H'.
      rewrite (bind_eq get_block _ _ _ _ eq_refl) in H'. cbn zeta in H'.
      rewrite Erem in H'. rewrite (bind_eq _ _ _ _ _ Hfind) in H'. congruence.
    + by exists l1, n, l2.
Qed.

Lemma C8_witness :
  exists s,
    after test_allocators 4
      [CallReserve (test_request 4 4); CallReserve (test_request 8 4);
       CallRelease 0%nat] = Some s
    /\ reachable s
    /\ 0 < rq_size (test_request 8 4)
    /\ exists r s',
         reserve (test_request 8 4) s = Some (r, s')
         /\ if wrap64 (mb_size (blk_memory (block s)) - blk_reserved (block s))
               <? rq_size (test_request 8 4)
            then r = None /\ s' = s
            else match r with
                 | Some a =>
                     exists l1 n l2,
                       region_list s = l1 ++ (a, n) :: l2
                       /\ Forall (fun bn => fits s (test_request 8 4) bn.2 = false) l1
                       /\ fits s (test_request 8 4) n = true
                 | None =>
                     s' = s
                     /\ Forall (fun bn => fits s (test_request 8 4) bn.2 = false)
                          (region_list s)
                 end.
Proof.
  eexists. split; [vm_compute; reflexivity|].
  split.
  { eapply (after_reachable test_allocators 4
              [CallReserve (test_request 4 4); CallReserve (test_request 8 4);
               CallRelease 0%nat]).
    vm_compute; reflexivity. }
  split; [done|].
  eapply C8_reserve_first_fit; [|done].
  eapply (after_reachable test_allocators 4
            [CallReserve (test_request 4 4); CallReserve (test_request 8 4);
             CallRelease 0%nat]).
  vm_compute; reflexivity.
Defined.

(** ** C9 and C10: [reclaim] *)








(** [reclaim] on a region that is still held, in any reachable state: the
    usage count is at least 2, so it is positive after the decrement, and
    [release_block_region] and [free_block_region] skip the region.
    [free_block_region] then sets the usage count to 0 and the status to
    [Available] all the same, with [block.reserved] as it was, so that the
    region passes [is_available]: when a neighbour is available too and the
    region has a handle, the coalescing step gives the handle back. *)
Lemma reclaim_of_held_region s a n :
  reachable s ->
  nodes s !! a = Some n ->
  2 <= usage_count n < 2 ^ 32 ->
  exists s_mid cc s',
    s_mid = with_nodes (<[a := set_status Available (set_usage_count 0 n)]> (nodes s)) s
    /\ reclaim_until_free a s = Some (tt, s_mid)
    /\ can_coalesce a s_mid = Some (cc, s_mid)
    /\ reclaim a s = Some (tt, s')
    /\ blk_reserved (block s') = blk_reserved (block s)
    /\ (cc = false -> s' = s_mid)
    /\ (cc = true -> mr_handle (memory n) <> 0 ->
        exists evs,
          history s'
          = history s
            ++ EvDeallocate a (memory n) (fst (deallocate (allocators s) (memory n)))
               :: evs).
Proof.
  intros Hreach Hn Hc. destruct (reachable_well_formed _ Hreach) as [l Hwf].
  pose proof (wf_owner _ _ Hwf _ _ Hn) as Hbp.
  pose proof (reclaim_until_free_eq _ _ _ Hn Hbp) as Hmid.
  assert (Hdec : decremented n = set_usage_count (usage_count n - 1) n).
  { unfold decremented. rewrite (proj2 (Z.ltb_lt 0 _)) by lia.
    by rewrite wrap32_small by lia. }
  assert (Hrel : released (decremented n) = decremented n).
  { unfold released. rewrite Hdec. cbn. by rewrite (proj2 (Z.ltb_lt 0 _)) by lia. }
  assert (Hneed : needs_free (decremented n) = false).
  { rewrite Hdec. unfold needs_free. cbn. by rewrite (proj2 (Z.eqb_neq _ 0)) by lia. }
  assert (Hres : release_reserved (blk_reserved (block s)) (decremented n)
                 = blk_reserved (block s)).
  { unfold release_reserved. rewrite Hdec. cbn. by rewrite (proj2 (Z.ltb_lt 0 _)) by lia. }
  rewrite Hrel in Hmid. unfold freed, dealloc_events in Hmid.
  rewrite Hneed, Hres, app_nil_r, set_reserved_id in Hmid. rewrite Hdec in Hmid.
  change (set_status Available (set_usage_count 0 (set_usage_count (usage_count n - 1) n)))
    with (set_status Available (set_usage_count 0 n)) in Hmid.
  set (nm := set_status Available (set_usage_count 0 n)) in *.
  set (s_mid := with_nodes (<[a := nm]> (nodes s)) s).
  assert (Hmid' : reclaim_until_free a s = Some (tt, s_mid)).
  { rewrite Hmid. unfold s_mid. by destruct s. }
  assert (Hwf_mid : well_formed s_mid l).
  { eapply well_formed_update; [exact Hwf|exact Hn|reflexivity|done..]. }
  assert (Hnm : nodes s_mid !! a = Some nm) by apply lookup_insert_eq.
  assert (Ha : a ∈ l) by (apply (wf_dom _ _ Hwf); by eexists).
  apply list_elem_of_split in Ha as (l1 & l2 & ->).
  destruct (well_formed_at _ _ _ _ Hwf_mid) as (nm' & Hnm' & _ & _ & Hlp & Hln).
  assert (nm' = nm) as -> by congruence.
  pose proof (can_coalesce_eq _ _ _ Hnm Hlp Hln) as Hcc.
  match type of Hcc with _ = Some (?c, _) => set (cc := c) in * end.
  assert (Hparts : reclaim a s = coalesce_if_possible a s_mid).
  { rewrite reclaim_parts. by rewrite (bind_eq _ _ _ _ _ Hmid'). }
  destruct cc eqn:Ecc.
  - destruct (coalesce_block_regions_wf _ _ _ _ _ Hwf_mid Hnm)
      as (a1 & s' & l1' & l2' & n1 & Hco & _ & Hb & [evs Hh] & _).
    exists s_mid, true, s'. split; [done|]. split; [done|]. split; [done|].
    split.
    { rewrite Hparts. unfold coalesce_if_possible.
      rewrite (bind_eq _ _ _ _ _ Hcc). by rewrite (bind_eq _ _ _ _ _ Hco). }
    split; [by rewrite Hb|]. split; [done|].
    intros _ Hh0. exists evs. rewrite Hh. unfold dealloc_events, needs_free.
    cbn. by rewrite (proj2 (Z.eqb_neq _ 0)) by done.
  - exists s_mid, false, s_mid. split; [done|]. split; [done|]. split; [done|].
    split.
    { rewrite Hparts. unfold coalesce_if_possible.
      by rewrite (bind_eq _ _ _ _ _ Hcc). }
    split; [done|]. split; done.
Qed.

(** C10.  A region is reserved and retained once, so that its usage count
    is 2, and is then reclaimed once.  The claim is that the
    region-deallocate callback is not invoked on it.  On the block of the test
    the rest of the block behind the region is available, and the callback is
    invoked on the region, which ends with a null handle: after
    [free_block_region] has set the usage count to 0, the coalescing step of
    the same [reclaim] finds the region unused with a handle.
    [block.reserved] is still 4.  With a second region in use behind it, the
    same [reclaim] invokes no callback and the region keeps its handle. *)
Theorem C10_reclaim_frees_retained_region :
  (exists s n s' n',
     after test_allocators 4 [CallReserve (test_request 4 4); CallRetain 0%nat] = Some s
     /\ nodes s !! 0%nat = Some n
     /\ usage_count n = 2 /\ mr_handle (memory n) = 1 /\ blk_reserved (block s) = 4
     /\ reclaim 0%nat s = Some (tt, s')
     /\ history s' = history s ++ [EvDeallocate 0%nat (memory n) 0; EvArenaReclaim 1%nat]
     /\ nodes s' !! 0%nat = Some n'
     /\ usage_count n' = 0 /\ status n' = Available /\ mr_handle (memory n') = 0
     /\ blk_reserved (block s') = 4)
  /\ (exists s n s' n',
        after test_allocators 4
          [CallReserve (test_request 4 4); CallReserve (test_request 4 4);
           CallRetain 0%nat] = Some s
        /\ nodes s !! 0%nat = Some n
        /\ usage_count n = 2 /\ mr_handle (memory n) = 1
        /\ reclaim 0%nat s = Some (tt, s')
        /\ history s' = history s
        /\ nodes s' !! 0%nat = Some n'
        /\ usage_count n' = 0 /\ status n' = Available /\ mr_handle (memory n') = 1).
Proof.
  split.
  - eexists _, _, _, _. split; [vm_compute; reflexivity|].
    split; [vm_compute; reflexivity|]. do 3 (split; [reflexivity|]).
    split; [vm_compute; reflexivity|]. split; [vm_compute; reflexivity|].
    split; [vm_compute; reflexivity|]. do 3 (split; [reflexivity|]). reflexivity.
  - eexists _, _, _, _. split; [vm_compute; reflexivity|].
    split; [vm_compute; reflexivity|]. do 2 (split; [reflexivity|]).
    split; [vm_compute; reflexivity|]. split; [vm_compute; reflexivity|].
    split; [vm_compute; reflexivity|]. do 2 (split; [reflexivity|]). reflexivity.
Qed.

(** * Further properties of the allocator *)

(** ** The shape of the region list *)

Lemma walk_linked l : forall h pred p fuel,
  wfseg h pred p l None -> (length l <= fuel)%nat ->
  linked pred (walk fuel h p).
Proof.
  induction l as [|a l IH]; intros h pred p fuel Hseg Hlen.
  { cbn in Hseg. subst p. by destruct fuel. }
  destruct Hseg as (-> & n & Hn & Hprev & Hrest).
  destruct fuel as [|fuel]; [cbn in Hlen; lia|]. cbn in Hlen.
  cbn [walk]. rewrite Hn. cbn [linked]. split; [done|]. split.
  - destruct (walk_wfseg _ _ _ _ fuel Hrest) as [-> _]; [lia|].
    rewrite (wfseg_head _ _ _ _ _ Hrest). by destruct l.
  - apply IH; [done|lia].
Qed.

(** X1: in every reachable state the region list is a chain: it starts with
    the node [initialize] created, which [block->regions] still points to, it
    holds every live arena node exactly once, the [next_ptr] of a node is the
    node after it (null at the end), its [prev_ptr] is null or the node before
    it, and every node points back to the block. *)
Theorem X1_region_list_is_a_chain s :
  reachable s ->
  blk_regions (block s) = Some 0%nat
  /\ (exists n0 W, region_list s = (0%nat, n0) :: W)
  /\ NoDup (region_list s).*1
  /\ (forall a n, nodes s !! a = Some n <-> (a, n) ∈ region_list s)
  /\ linked None (region_list s)
  /\ (forall a n, (a, n) ∈ region_list s -> block_ptr n = block_addr s).
Proof.
  intros Hreach. destruct (reachable_well_formed _ Hreach) as [l Hwf].
  pose proof (sd_head _ (reachable_sound _ Hreach)) as Hhead.
  destruct (region_list_well_formed _ _ Hwf) as [E F].
  split; [done|]. split.
  { pose proof (well_formed_head _ _ Hwf) as Hl. rewrite Hhead in Hl.
    destruct l as [|a0 l]; [done|]. injection Hl as <-.
    destruct (region_list s) as [|[a n] W]; [done|].
    injection E as -> _. by exists n, W. }
  split; [rewrite E; apply (wf_nodup _ _ Hwf)|].
  split.
  { intros a n. split.
    - intros Hn. assert (Ha : a ∈ l) by (apply (wf_dom _ _ Hwf); by eexists).
      rewrite <- E in Ha. apply list_elem_of_fmap in Ha as ([a' n'] & -> & Hin).
      cbn in Hn. pose proof Hin as Hin'.
      eapply Forall_forall in Hin'; [|exact F]. cbn in Hin'.
      assert (n' = n) as -> by congruence. done.
    - apply walk_lookup. }
  split.
  { apply (walk_linked l); [apply (wf_chain _ _ Hwf)|by apply well_formed_length]. }
  intros a n Hin. apply walk_lookup in Hin. by apply (wf_owner _ _ Hwf a).
Qed.

Lemma X1_witness :
  exists s,
    after test_allocators 4
      [CallReserve (test_request 4 4); CallReserve (test_request 6 4);
       CallReserve (test_request 8 4); CallRelease 1%nat; CallReclaim 2%nat] = Some s
    /\ reachable s
    /\ (region_list s).*1 = [0; 1; 2]%nat
    /\ blk_regions (block s) = Some 0%nat
    /\ (exists n0 W, region_list s = (0%nat, n0) :: W)
    /\ NoDup (region_list s).*1
    /\ (forall a n, nodes s !! a = Some n <-> (a, n) ∈ region_list s)
    /\ linked None (region_list s)
    /\ (forall a n, (a, n) ∈ region_list s -> block_ptr n = block_addr s).
Proof.
  eexists. split; [vm_compute; reflexivity|].
  split.
  { eapply (after_reachable test_allocators 4
              [CallReserve (test_request 4 4); CallReserve (test_request 6 4);
               CallReserve (test_request 8 4); CallRelease 1%nat; CallReclaim 2%nat]).
    vm_compute; reflexivity. }
  split; [vm_compute; reflexivity|].
  apply X1_region_list_is_a_chain.
  eapply (after_reachable test_allocators 4
            [CallReserve (test_request 4 4); CallReserve (test_request 6 4);
             CallReserve (test_request 8 4); CallRelease 1%nat; CallReclaim 2%nat]).
  vm_compute; reflexivity.
Defined.

(** ** The reserved bytes *)

Lemma in_use_reserved_bytes W :
  Forall (fun an : addr * BlockRegion => 0 <= mr_size (memory an.2)) W ->
  0 <= in_use_total W <= list_total reserved_bytes W.
Proof.
  induction 1 as [|[a n] W Hn _ IH]; [done|].
  cbn [in_use_total]. rewrite list_total_cons. cbn in Hn.
  assert (0 <= (if in_use n then mr_size (memory n) else 0) <= reserved_bytes n); [|lia].
  unfold in_use, reserved_bytes.
  repeat case_bool_decide; cbn; try lia; congruence.
Qed.

(** X3: an allocator created on a fresh block never over-commits it: in every
    state it reaches, [block->reserved] is at least the sum of the sizes of
    the regions that are [InUse] or [Dedicated] and at most the size of the
    block, so the unsigned arithmetic on [block->reserved] never wraps. *)
Theorem X3_reserved_within_block b s :
  reached b s -> fresh_block b ->
  0 <= in_use_total (region_list s)
  /\ in_use_total (region_list s) <= blk_reserved (block s)
  /\ blk_reserved (block s) <= mb_size (blk_memory b).
Proof.
  intros Hreached Hb.
  destruct (reached_in_range _ _ Hreached Hb) as [[H1 [H2 H2'] H3] Em].
  destruct (reachable_well_formed _ (reached_reachable _ _ Hreached)) as [l Hwf].
  rewrite (total_region_list _ _ _ Hwf) in H2.
  destruct (in_use_reserved_bytes (region_list s)) as [Hlo Hhi].
  { destruct (region_list_well_formed _ _ Hwf) as [_ F].
    eapply Forall_impl; [exact F|]. intros [a n] Hn. cbn in *. by apply (H3 a). }
  rewrite <- Em. lia.
Qed.

Lemma X3_witness :
  exists s0 s,
    create 0 (test_block 4) test_allocators = Some s0
    /\ calls [CallReserve (test_request 4 4); CallReserve (test_request 6 4);
              CallRelease 0%nat; CallRetain 1%nat; CallReserve (test_request 1000 4)] s0
       = Some s
    /\ (in_use_total (region_list s), blk_reserved (block s)) = (1006, 1006)
    /\ reached (test_block 4) s /\ fresh_block (test_block 4)
    /\ 0 <= in_use_total (region_list s)
    /\ in_use_total (region_list s) <= blk_reserved (block s)
    /\ blk_reserved (block s) <= mb_size (blk_memory (test_block 4)).
Proof.
  eexists _, _. split; [apply create_eq|].
  split; [vm_compute; reflexivity|]. split; [vm_compute; reflexivity|].
  match goal with |- reached ?b ?s /\ _ => assert (Hr : reached b s) end.
  { eexists 0, test_allocators, _,
      [CallReserve (test_request 4 4); CallReserve (test_request 6 4);
       CallRelease 0%nat; CallRetain 1%nat; CallReserve (test_request 1000 4)].
    split; [apply create_eq|vm_compute; reflexivity]. }
  assert (Hb : fresh_block (test_block 4)) by (split; [reflexivity|cbn; lia]).
  split; [exact Hr|]. split; [exact Hb|].
  exact (X3_reserved_within_block _ _ Hr Hb).
Defined.

(** X4: in a state reached from a fresh block, the region [reserve] returns
    has exactly the requested size, usage count 1 and the status the block's
    dedicated flag gives ([request.dedicated] is not looked at), and
    [block->reserved] grows by exactly the requested size. *)
Theorem X4_reserve_hands_out_requested_size b s request a s' :
  reached b s -> fresh_block b ->
  reserve request s = Some (Some a, s') ->
  exists n',
    nodes s' !! a = Some n'
    /\ mr_size (memory n') = rq_size request
    /\ usage_count n' = 1
    /\ status n' = (if mb_dedicated (blk_memory b) then Dedicated else InUse)
    /\ blk_reserved (block s') = blk_reserved (block s) + rq_size request
    /\ blk_reserved (block s') <= mb_size (blk_memory b).
Proof.
  intros Hreached Hb H.
  pose proof (reached_reachable _ _ Hreached) as Hreach.
  destruct (reached_in_range _ _ Hreached Hb) as [Hr Em].
  destruct (reachable_well_formed _ Hreach) as [l Hwf].
  destruct (reserve_inv _ _ _ _ _ Hwf H) as
    [Hpos [[? _]|(a' & n & l1 & l2 & Ea & Hrem & _ & _ & Hfit & Hn & ->)]]; [done|].
  injection Ea as <-.
  destruct (reserve_in_range s l request a n Hwf Hr Hpos Hrem Hn Hfit) as [Hr' Eres].
  destruct (rg_nodes _ Hr _ _ Hn) as [_ Hc].
  destruct (sd_uniform _ (reachable_sound _ Hreach) _ _ Hn) as (_ & Ed & _).
  destruct (allocated_memory (allocators s) (placed s n request))
    as (_ & _ & E3 & _ & _ & E6 & _).
  destruct (placed_memory s n request) as (_ & _ & F3 & _).
  eexists. split; [apply after_reserve_node|].
  cbn [memory usage_count status set_usage_count].
  rewrite E3, E6, F3, Ed, Em, (placed_size_exact s request n Hfit (proj1 Hc)).
  split; [done|]. split; [done|]. split; [done|]. split; [done|].
  destruct (rg_reserved _ Hr') as [_ Hle]. rewrite <- Em.
  by rewrite after_reserve_block in Hle |- *.
Qed.

Lemma X4_witness :
  exists s',
    reached (test_block 4) (test_allocator test_allocators 4)
    /\ fresh_block (test_block 4)
    /\ reserve (test_request 4 4) (test_allocator test_allocators 4) = Some (Some 0%nat, s')
    /\ exists n',
         nodes s' !! 0%nat = Some n'
         /\ mr_size (memory n') = rq_size (test_request 4 4)
         /\ usage_count n' = 1
         /\ status n' = (if mb_dedicated (blk_memory (test_block 4)) then Dedicated else InUse)
         /\ blk_reserved (block s')
            = blk_reserved (block (test_allocator test_allocators 4))
              + rq_size (test_request 4 4)
         /\ blk_reserved (block s') <= mb_size (blk_memory (test_block 4)).
Proof.
  assert (Hr : reached (test_block 4) (test_allocator test_allocators 4)).
  { exists 0, test_allocators, (test_allocator test_allocators 4), [].
    split; [apply create_eq|reflexivity]. }
  assert (Hb : fresh_block (test_block 4)) by (split; [reflexivity|cbn; lia]).
  eexists. split; [exact Hr|]. split; [exact Hb|].
  split; [vm_compute; reflexivity|].
  eapply (X4_reserve_hands_out_requested_size _ _ _ _ _ Hr Hb).
  vm_compute; reflexivity.
Defined.

(** ** Regions that are held *)

Lemma held_not_available n : 0 < usage_count n -> available n = false.
Proof. intros H. unfold available. by rewrite (proj2 (Z.ltb_lt _ _) H). Qed.

(** X5: a region that is held (its usage count is positive) is not touched
    by a call on anything else: whatever the call is, [reserve], [collect]
    and the release of all regions included, and whichever other region it
    is made on, the region keeps its memory (handle, offset and size), its
    status and its usage count; it is never selected, split, merged or
    freed. *)
Theorem X5_held_regions_are_left_alone s c s' b nb :
  reachable s ->
  call c s = Some (tt, s') ->
  nodes s !! b = Some nb ->
  0 < usage_count nb ->
  target c <> Some b ->
  exists nb',
    nodes s' !! b = Some nb'
    /\ memory nb' = memory nb
    /\ status nb' = status nb
    /\ usage_count nb' = usage_count nb.
Proof.
  intros Hreach Hcall Hb Hheld Htarget.
  destruct (reachable_well_formed _ Hreach) as [l Hwf].
  pose proof (held_not_available _ Hheld) as Hnav.
  destruct (call_effect _ _ _ _ Hwf Hcall)
    as [request Hpos|request a n Hpos Hrem Hn Hfit|a n Hn|a n Hn
       |a n s' Hn Hm|s' Hm|s' Hnodes Hres Hh Ea Eb Em Er]; cbn [target] in Htarget.
  - by exists nb.
  - assert (Hne : b <> a).
    { intros ->. assert (n = nb) as -> by congruence.
      rewrite (fits_available _ _ _ Hfit) in Hnav. done. }
    pose proof (after_reserve_frame s l a n request b Hwf Hn Hne) as H.
    destruct (nodes (after_reserve a n request s) !! b) as [nb'|]; [|congruence].
    destruct H as [(E & _)|(nb0 & Hb0 & [->| ->])]; [congruence|..];
      assert (nb0 = nb) as -> by congruence; by eexists.
  - exists nb. cbn. rewrite lookup_insert_ne by congruence. done.
  - exists nb. cbn. rewrite lookup_insert_ne by congruence. done.
  - assert (Hb1 : nodes (after_reclaim_until_free a n s) !! b = Some nb).
    { cbn. rewrite lookup_insert_ne by congruence. done. }
    destruct (mg_held _ _ Hm b nb Hb1 Hnav) as [nb' Hb'].
    destruct (mg_nodes _ _ Hm b nb' Hb') as (nb0 & Hb0 & (E1 & E2 & _ & _ & _ & _ & E7 & _)).
    assert (nb0 = nb) as -> by congruence.
    exists nb'. by rewrite E7.
  - destruct (mg_held _ _ Hm b nb Hb Hnav) as [nb' Hb'].
    destruct (mg_nodes _ _ Hm b nb' Hb') as (nb0 & Hb0 & (E1 & E2 & _ & _ & _ & _ & E7 & _)).
    assert (nb0 = nb) as -> by congruence.
    exists nb'. by rewrite E7.
  - exists nb. rewrite Hnodes, Hb. cbn. unfold released.
    by rewrite (proj2 (Z.ltb_lt _ _) Hheld).
Qed.

Lemma X5_witness :
  exists s s' nb,
    after test_allocators 4
      [CallReserve (test_request 4 4); CallReserve (test_request 4 4)] = Some s
    /\ reachable s
    /\ call (CallReclaim 1%nat) s = Some (tt, s')
    /\ nodes s !! 0%nat = Some nb
    /\ 0 < usage_count nb
    /\ target (CallReclaim 1%nat) <> Some 0%nat
    /\ exists nb',
         nodes s' !! 0%nat = Some nb'
         /\ memory nb' = memory nb
         /\ status nb' = status nb
         /\ usage_count nb' = usage_count nb.
Proof.
  eexists _, _, _. split; [vm_compute; reflexivity|].
  split.
  { eapply (after_reachable test_allocators 4
              [CallReserve (test_request 4 4); CallReserve (test_request 4 4)]).
    vm_compute; reflexivity. }
  split; [vm_compute; reflexivity|].
  split; [vm_compute; reflexivity|].
  split; [done|]. split; [done|].
  eapply (X5_held_regions_are_left_alone _ (CallReclaim 1%nat)).
  - eapply (after_reachable test_allocators 4
              [CallReserve (test_request 4 4); CallReserve (test_request 4 4)]).
    vm_compute; reflexivity.
  - vm_compute; reflexivity.
  - vm_compute; reflexivity.
  - done.
  - done.
Defined.

(** ** [collect] twice *)

(** X6: [collect] is idempotent and does not touch the block: once it has
    run, a second [collect] finds nothing to merge, returns [false] and
    leaves the allocator as it is; and [collect] changes neither
    [block->reserved] nor [block->regions]. *)
Theorem X6_collect_is_idempotent s res s' :
  reachable s ->
  collect s = Some (res, s') ->
  collect s' = Some (false, s') /\ block s' = block s.
Proof.
  intros Hreach H. destruct (reachable_well_formed _ Hreach) as [l Hwf].
  destruct (collect_spec _ _ Hwf) as (res1 & s1 & l1 & H1 & Hwf1 & Hadj & Hb & _).
  rewrite H in H1. injection H1 as -> ->.
  split; [by eapply collect_quiet|done].
Qed.

Lemma X6_witness :
  exists s s',
    after test_allocators 4
      [CallReserve (test_request 4 4); CallRelease 0%nat] = Some s
    /\ reachable s
    /\ collect s = Some (true, s')
    /\ collect s' = Some (false, s') /\ block s' = block s.
Proof.
  eexists _, _. split; [vm_compute; reflexivity|].
  split.
  { eapply (after_reachable test_allocators 4
              [CallReserve (test_request 4 4); CallRelease 0%nat]).
    vm_compute; reflexivity. }
  split; [vm_compute; reflexivity|].
  eapply X6_collect_is_idempotent.
  - eapply (after_reachable test_allocators 4
              [CallReserve (test_request 4 4); CallRelease 0%nat]).
    vm_compute; reflexivity.
  - vm_compute; reflexivity.
Defined.

(** ** Teardown *)

(** X7: a [destroy] that returns from a reachable state has taken every
    region down in list order: each region that holds a handle got the
    deallocate callback once, whether it was still in use or not, and every
    node went back to the arena; afterwards no node is live,
    [block->regions] is null and [block->reserved] is 0. *)
Theorem X7_destroy_tears_down_every_region s s' :
  reachable s ->
  destroy s = Some (tt, s') ->
  history s'
  = history s ++ concat (map (teardown_events (allocators s)) (region_list s))
  /\ nodes s' = ∅
  /\ blk_regions (block s') = None
  /\ blk_reserved (block s') = 0.
Proof.
  intros Hreach H. destruct (reachable_well_formed _ Hreach) as [l Hwf].
  destruct (destroy_spec _ _ Hwf) as (s1 & H1 & Hn & Hr & Hres & _ & _ & Hh).
  rewrite H in H1. by injection H1 as <-.
Qed.

Lemma X7_witness :
  exists s s',
    after test_allocators 4
      [CallReserve (test_request 4 4); CallReserve (test_request 4 4);
       CallRelease 1%nat] = Some s
    /\ reachable s
    /\ destroy s = Some (tt, s')
    /\ (history s'
        = history s ++ concat (map (teardown_events (allocators s)) (region_list s))
        /\ nodes s' = ∅
        /\ blk_regions (block s') = None
        /\ blk_reserved (block s') = 0).
Proof.
  eexists _, _. split; [vm_compute; reflexivity|].
  split.
  { eapply (after_reachable test_allocators 4
              [CallReserve (test_request 4 4); CallReserve (test_request 4 4);
               CallRelease 1%nat]).
    vm_compute; reflexivity. }
  split; [vm_compute; reflexivity|].
  apply X7_destroy_tears_down_every_region.
  - eapply (after_reachable test_allocators 4
              [CallReserve (test_request 4 4); CallReserve (test_request 4 4);
               CallRelease 1%nat]).
    vm_compute; reflexivity.
  - vm_compute; reflexivity.
Defined.

(** ** The callbacks *)

Lemma teardown_events_proper ma W :
  Forall proper_event (concat (map (teardown_events ma) W)).
Proof.
  induction W as [|[a n] W IH]; [done|]. cbn [map concat].
  apply Forall_app. split; [|done].
  rewrite <- destroy_events_teardown. apply destroy_events_proper.
Qed.

Lemma teardown_events_count ma W :
  count_allocate (concat (map (teardown_events ma) W)) = 0
  /\ count_deallocate (concat (map (teardown_events ma) W)) = list_total holds_handle W.
Proof.
  induction W as [|[a n] W [IH1 IH2]]; [done|]. cbn [map concat].
  rewrite count_allocate_app, count_deallocate_app, list_total_cons, IH1, IH2.
  rewrite <- destroy_events_teardown.
  destruct (destroy_events_count ma a n) as [-> ->]. done.
Qed.

(** X8: the callbacks are used properly.  In every reachable state, and
    after a [destroy] of it, each allocate callback was given a region whose
    handle was null and each deallocate callback a region whose handle was
    not null: a handle is never overwritten and a null handle is never
    freed. *)
Theorem X8_callbacks_get_proper_regions s :
  reachable s ->
  Forall proper_event (history s)
  /\ forall s', destroy s = Some (tt, s') -> Forall proper_event (history s').
Proof.
  intros Hreach. pose proof (sd_proper _ (reachable_sound _ Hreach)) as Hp.
  split; [done|]. intros s' H.
  destruct (reachable_well_formed _ Hreach) as [l Hwf].
  destruct (destroy_spec _ _ Hwf) as (s1 & H1 & _ & _ & _ & _ & _ & Hh).
  rewrite H in H1. injection H1 as <-. rewrite Hh.
  apply Forall_app. split; [done|apply teardown_events_proper].
Qed.

Lemma X8_witness :
  exists s,
    after test_allocators 4
      [CallReserve (test_request 4 4); CallReserve (test_request 4 4);
       CallReclaim 0%nat; CallReserve (test_request 4 4)] = Some s
    /\ reachable s
    /\ Forall proper_event (history s)
    /\ forall s', destroy s = Some (tt, s') -> Forall proper_event (history s').
Proof.
  eexists. split; [vm_compute; reflexivity|].
  split.
  { eapply (after_reachable test_allocators 4
              [CallReserve (test_request 4 4); CallReserve (test_request 4 4);
               CallReclaim 0%nat; CallReserve (test_request 4 4)]).
    vm_compute; reflexivity. }
  apply X8_callbacks_get_proper_regions.
  eapply (after_reachable test_allocators 4
            [CallReserve (test_request 4 4); CallReserve (test_request 4 4);
             CallReclaim 0%nat; CallReserve (test_request 4 4)]).
  vm_compute; reflexivity.
Defined.

(** X9: no handle is lost and none is freed twice.  In every reachable state
    the deallocate callbacks issued so far plus the regions that hold a handle
    are at most the allocate callbacks issued so far, with equality when the
    allocate callback always attaches a handle; after [destroy] the
    deallocate callbacks are at most, and with such a callback exactly, as
    many as the allocate callbacks. *)
Theorem X9_handles_are_accounted_for s :
  reachable s ->
  count_deallocate (history s) + list_total holds_handle (region_list s)
  <= count_allocate (history s)
  /\ (attaches (allocators s) ->
      count_deallocate (history s) + list_total holds_handle (region_list s)
      = count_allocate (history s))
  /\ forall s', destroy s = Some (tt, s') ->
       count_deallocate (history s') <= count_allocate (history s')
       /\ (attaches (allocators s) ->
           count_deallocate (history s') = count_allocate (history s')).
Proof.
  intros Hreach. destruct (reachable_well_formed _ Hreach) as [l Hwf].
  destruct (reachable_sound _ Hreach) as [_ _ _ Hslack Hatt].
  unfold slack in *. rewrite (total_region_list _ _ _ Hwf) in *.
  split; [lia|]. split; [intros Hat; specialize (Hatt Hat); lia|].
  intros s' H.
  destruct (destroy_spec _ _ Hwf) as (s1 & H1 & _ & _ & _ & _ & _ & Hh).
  rewrite H in H1. injection H1 as <-.
  rewrite Hh, count_allocate_app, count_deallocate_app.
  destruct (teardown_events_count (allocators s) (region_list s)) as [-> ->].
  split; [lia|]. intros Hat. specialize (Hatt Hat). lia.
Qed.

Lemma test_allocators_attach : attaches test_allocators.
Proof. intros m. done. Qed.

Lemma X9_witness :
  exists s,
    after test_allocators 4
      [CallReserve (test_request 4 4); CallReserve (test_request 4 4);
       CallReclaim 0%nat; CallReserve (test_request 4 4)] = Some s
    /\ reachable s
    /\ attaches test_allocators
    /\ count_deallocate (history s) + list_total holds_handle (region_list s)
       <= count_allocate (history s)
    /\ (attaches (allocators s) ->
        count_deallocate (history s) + list_total holds_handle (region_list s)
        = count_allocate (history s))
    /\ forall s', destroy s = Some (tt, s') ->
         count_deallocate (history s') <= count_allocate (history s')
         /\ (attaches (allocators s) ->
             count_deallocate (history s') = count_allocate (history s')).
Proof.
  eexists. split; [vm_compute; reflexivity|].
  split.
  { eapply (after_reachable test_allocators 4
              [CallReserve (test_request 4 4); CallReserve (test_request 4 4);
               CallReclaim 0%nat; CallReserve (test_request 4 4)]).
    vm_compute; reflexivity. }
  split; [apply test_allocators_attach|].
  apply X9_handles_are_accounted_for.
  eapply (after_reachable test_allocators 4
            [CallReserve (test_request 4 4); CallReserve (test_request 4 4);
             CallReclaim 0%nat; CallReserve (test_request 4 4)]).
  vm_compute; reflexivity.
Defined.

(** ** Retain and release *)

Lemma set_usage_count_id n : set_usage_count (usage_count n) n = n.
Proof. by destruct n. Qed.

(** X10: [retain] followed by [release] of a region that is held leaves the
    allocator exactly as it was, as long as the usage count does not wrap:
    the count goes up and down again, and nothing else is written. *)
Theorem X10_retain_then_release_is_identity s a n :
  reachable s ->
  nodes s !! a = Some n ->
  0 < usage_count n < 2 ^ 32 - 1 ->
  exists s1, retain a s = Some (tt, s1) /\ release a s1 = Some (tt, s).
Proof.
  intros Hreach Hn Hc. destruct (reachable_well_formed _ Hreach) as [l Hwf].
  pose proof (wf_owner _ _ Hwf _ _ Hn) as Hown.
  eexists. split; [by apply retain_eq|].
  erewrite release_eq; [|apply lookup_insert_eq|done].
  cbn [nodes block with_nodes with_block].
  assert (E : decremented (set_usage_count (wrap32 (usage_count n + 1)) n) = n).
  { unfold decremented. cbn [usage_count set_usage_count].
    rewrite (wrap32_small (usage_count n + 1)) by lia.
    rewrite (proj2 (Z.ltb_lt 0 (usage_count n + 1))) by lia.
    replace (usage_count n + 1 - 1) with (usage_count n) by lia.
    rewrite wrap32_small by lia. by destruct n. }
  rewrite E. unfold released, release_reserved.
  rewrite (proj2 (Z.ltb_lt 0 (usage_count n))) by lia.
  rewrite insert_insert_eq, insert_id by done.
  rewrite set_reserved_id. by destruct s.
Qed.

Lemma X10_witness :
  exists s n,
    after test_allocators 4 [CallReserve (test_request 4 4)] = Some s
    /\ reachable s
    /\ nodes s !! 0%nat = Some n
    /\ 0 < usage_count n < 2 ^ 32 - 1
    /\ exists s1, retain 0%nat s = Some (tt, s1) /\ release 0%nat s1 = Some (tt, s).
Proof.
  eexists _, _. split; [vm_compute; reflexivity|].
  split.
  { eapply (after_reachable test_allocators 4 [CallReserve (test_request 4 4)]).
    vm_compute; reflexivity. }
  split; [vm_compute; reflexivity|].
  split; [cbn; lia|].
  eapply X10_retain_then_release_is_identity.
  - eapply (after_reachable test_allocators 4 [CallReserve (test_request 4 4)]).
    vm_compute; reflexivity.
  - vm_compute; reflexivity.
  - cbn; lia.
Defined.

(** X11: a second [release] does nothing.  Once [release] has been called on
    a region whose usage count is at most 1, the region is [Available] with
    usage count 0 and keeps its handle, and every further [release] of it
    returns and leaves the allocator exactly as it is: [block->reserved] is
    not decremented twice. *)
Theorem X11_release_again_is_a_no_op s a n s1 :
  reachable s ->
  nodes s !! a = Some n ->
  0 <= usage_count n <= 1 ->
  release a s = Some (tt, s1) ->
  (exists n1, nodes s1 !! a = Some n1
              /\ status n1 = Available /\ usage_count n1 = 0
              /\ memory n1 = memory n)
  /\ release a s1 = Some (tt, s1).
Proof.
  intros Hreach Hn Hc H. destruct (reachable_well_formed _ Hreach) as [l Hwf].
  pose proof (wf_owner _ _ Hwf _ _ Hn) as Hown.
  rewrite (release_eq _ _ _ Hn Hown) in H. injection H as <-.
  assert (Ec : usage_count (decremented n) = 0).
  { unfold decremented. destruct (0 <? usage_count n) eqn:E.
    - apply Z.ltb_lt in E. cbn. replace (usage_count n) with 1 by lia. done.
    - apply Z.ltb_ge in E. lia. }
  assert (Er : released (decremented n) = set_status Available (decremented n)).
  { unfold released. by rewrite Ec. }
  split.
  { eexists. split; [apply lookup_insert_eq|]. rewrite Er. cbn.
    split; [done|]. split; [done|].
    unfold decremented. by destruct (0 <? usage_count n). }
  erewrite release_eq; [|apply lookup_insert_eq|by rewrite released_owner, (proj2 (proj2 (decremented_links n)))].
  cbn [nodes block with_nodes with_block].
  assert (Ed : decremented (released (decremented n)) = released (decremented n)).
  { rewrite Er. unfold decremented at 1. cbn [usage_count set_status]. by rewrite Ec. }
  rewrite Ed.
  assert (Err : released (released (decremented n)) = released (decremented n)).
  { rewrite Er. unfold released. cbn [usage_count set_status]. by rewrite Ec. }
  rewrite Err, insert_insert_eq.
  assert (Ers : forall r, release_reserved r (released (decremented n)) = r).
  { intros r. rewrite Er. unfold release_reserved. cbn [usage_count set_status status].
    rewrite Ec. cbn. by rewrite bool_decide_eq_true_2. }
  rewrite Ers. cbn [blk_reserved set_reserved]. reflexivity.
Qed.

Lemma X11_witness :
  exists s n s1,
    after test_allocators 4 [CallReserve (test_request 4 4)] = Some s
    /\ reachable s
    /\ nodes s !! 0%nat = Some n
    /\ 0 <= usage_count n <= 1
    /\ release 0%nat s = Some (tt, s1)
    /\ (exists n1, nodes s1 !! 0%nat = Some n1
                   /\ status n1 = Available /\ usage_count n1 = 0
                   /\ memory n1 = memory n)
    /\ release 0%nat s1 = Some (tt, s1).
Proof.
  eexists _, _, _. split; [vm_compute; reflexivity|].
  split.
  { eapply (after_reachable test_allocators 4 [CallReserve (test_request 4 4)]).
    vm_compute; reflexivity. }
  split; [vm_compute; reflexivity|].
  split; [cbn; lia|].
  split; [vm_compute; reflexivity|].
  eapply X11_release_again_is_a_no_op.
  - eapply (after_reachable test_allocators 4 [CallReserve (test_request 4 4)]).
    vm_compute; reflexivity.
  - vm_compute; reflexivity.
  - cbn; lia.
  - vm_compute; reflexivity.
Defined.

(** ** A released region is taken again *)

Lemma fits_links s request p nb : fits s request (set_prev_ptr p nb) = fits s request nb.
Proof. done. Qed.

Lemma fits_block s s' request n :
  block s' = block s -> fits s' request n = fits s request n.
Proof. intros E. unfold fits. by rewrite E. Qed.

Lemma state_eq (s s' : RegionAllocator) :
  block_addr s = block_addr s' -> block s = block s' -> nodes s = nodes s' ->
  arena_next s = arena_next s' -> allocators s = allocators s' ->
  history s = history s' -> s = s'.
Proof. destruct s, s'. cbn. by intros -> -> -> -> -> ->. Qed.

Lemma after_reserve_static a n request s :
  block_addr (after_reserve a n request s) = block_addr s
  /\ arena_next (after_reserve a n request s)
     = (if splits n request then S (arena_next s) else arena_next s).
Proof. unfold after_reserve. by destruct (splits n request). Qed.

(** The region list of a well-formed state around one of its nodes. *)
Lemma region_list_at s l1 a l2 :
  well_formed s (l1 ++ a :: l2) ->
  exists W1 n W2,
    region_list s = W1 ++ (a, n) :: W2
    /\ W1.*1 = l1
    /\ nodes s !! a = Some n
    /\ Forall (fun bn => bn.1 <> a /\ nodes s !! bn.1 = Some bn.2) W1.
Proof.
  intros Hwf.
  destruct (region_list_well_formed _ _ Hwf) as [E F].
  pose proof E as E0.
  apply fmap_app_inv in E as (W1 & R & E1 & ER & El).
  symmetry in ER. apply fmap_cons_inv in ER as ([a' n] & W2 & Ea & E2 & ->).
  cbn in Ea. subst a'.
  exists W1, n, W2. split; [done|]. split; [done|].
  rewrite El in F. apply Forall_app in F as [F1 F2]. apply Forall_cons in F2 as [Hn _].
  split; [done|].
  pose proof (wf_nodup _ _ Hwf) as Hnd.
  apply NoDup_app in Hnd as (_ & Hnd & _).
  apply Forall_forall. intros [b nb] Hin. cbn. split.
  - intros ->. apply (Hnd a).
    + rewrite E1. apply list_elem_of_fmap. by exists (a, nb).
    + by left.
  - eapply Forall_forall in F1; [|exact Hin]. done.
Qed.

Lemma is_compatible_block_region_properties n n' p :
  mr_properties (memory n') = mr_properties (memory n) ->
  is_compatible_block_region n' p = is_compatible_block_region n p.
Proof. intros E. unfold is_compatible_block_region. by rewrite E. Qed.

Lemma fits_parts s request n :
  fits s request n = true ->
  available n = true
  /\ is_compatible_block_region n (rq_properties request) = true
  /\ (rq_size request <=? mr_size (memory n)) = true
  /\ (wrap64 (aligned_size (mr_offset (memory n)) (rq_size request)
                (conform_alignment (rq_alignment request)
                   (alignment (mb_properties (blk_memory (block s)))))
              + blk_reserved (block s))
      <=? mb_size (blk_memory (block s))) = true.
Proof.
  unfold fits. intros H.
  apply andb_true_iff in H as [H H5]. apply andb_true_iff in H as [H H4].
  apply andb_true_iff in H as [H H3]. apply andb_true_iff in H as [H1 H2]. done.
Qed.

(** The node of a region that has just been reserved, released again. *)
Lemma released_reserved_node nf :
  usage_count nf = 1 ->
  released (decremented nf) = set_status Available (set_usage_count 0 nf).
Proof.
  intros E. unfold decremented. rewrite E. cbn. unfold released. cbn. done.
Qed.

Lemma reserved_again_node ma nf :
  usage_count nf = 1 ->
  mr_handle (memory nf) <> 0 ->
  status nf = (if mr_dedicated (memory nf) then Dedicated else InUse) ->
  set_usage_count 1 (allocated ma (set_status Available (set_usage_count 0 nf))) = nf.
Proof.
  intros Ec Hh Est. unfold allocated. cbn [memory set_status set_usage_count].
  rewrite (proj2 (Z.eqb_neq _ _) Hh). cbn [memory set_status set_usage_count].
  rewrite <- Est. destruct nf. cbn in *. by subst.
Qed.

(** X12: a released region is a cache.  In a state reached from a fresh
    block, take a region that [reserve] has just returned with a handle
    attached, and whose end is aligned (the aligned size of the request at
    its offset is the requested size).  After [release] the region is
    [Available] with usage count 0 and still has its handle, no callback has
    been issued, and the same request gets the very same region back: the
    second [reserve] restores the state after the first one, with no call of
    the allocate callback. *)
Theorem X12_released_region_is_taken_again b s request a s1 n1 :
  reached b s -> fresh_block b ->
  reserve request s = Some (Some a, s1) ->
  nodes s1 !! a = Some n1 ->
  mr_handle (memory n1) <> 0 ->
  aligned_size (mr_offset (memory n1)) (rq_size request)
    (conform_alignment (rq_alignment request) (alignment (mb_properties (blk_memory b))))
  <= rq_size request ->
  exists s2 n2,
    release a s1 = Some (tt, s2)
    /\ nodes s2 !! a = Some n2
    /\ status n2 = Available /\ usage_count n2 = 0 /\ memory n2 = memory n1
    /\ history s2 = history s1
    /\ reserve request s2 = Some (Some a, s1).
Proof.
  intros Hreached Hb H Hn1 Hh Hal.
  pose proof (reached_reachable _ _ Hreached) as Hreach.
  destruct (reached_in_range _ _ Hreached Hb) as [Hr Em].
  destruct (reachable_well_formed _ Hreach) as [l Hwf].
  destruct (reserve_inv _ _ _ _ _ Hwf H) as
    [Hpos [[? _]|(a' & n & W1 & W2 & Ea & Hrem & El & Fnot & Hfit & Hn & Es1)]]; [done|].
  injection Ea as <-.
  destruct (reserve_in_range s l request a n Hwf Hr Hpos Hrem Hn Hfit) as [Hr1 Eres].
  rewrite <- Es1 in Hr1, Eres.
  destruct (rg_nodes _ Hr _ _ Hn) as [_ Hc].
  pose proof (placed_size_exact s request n Hfit (proj1 Hc)) as Esz.
  (* the node that was handed out *)
  assert (Hnf : n1 = set_usage_count 1 (allocated (allocators s) (placed s n request))).
  { rewrite Es1, after_reserve_node in Hn1. by injection Hn1 as <-. }
  destruct (allocated_memory (allocators s) (placed s n request))
    as (A1 & A2 & A3 & A4 & _ & A6 & _).
  destruct (placed_memory s n request) as (P1 & P2 & P3 & _).
  assert (Ec1 : usage_count n1 = 1) by (by rewrite Hnf).
  assert (Est1 : status n1 = (if mr_dedicated (memory n1) then Dedicated else InUse)).
  { rewrite Hnf. cbn [status memory set_usage_count]. by rewrite A6, A4. }
  assert (Esz1 : mr_size (memory n1) = rq_size request).
  { rewrite Hnf. cbn [memory set_usage_count]. by rewrite A3. }
  assert (Eoff1 : mr_offset (memory n1) = mr_offset (memory n)).
  { rewrite Hnf. cbn [memory set_usage_count]. by rewrite A1. }
  assert (Eprop1 : mr_properties (memory n1) = mr_properties (memory n)).
  { rewrite Hnf. cbn [memory set_usage_count]. by rewrite A2. }
  clear A1 A2 A3 A4 A6 P1 P2 P3 Hnf.
  (* the list after the first reserve *)
  destruct (region_list_well_formed _ _ Hwf) as [El0 _].
  rewrite El, fmap_app, fmap_cons in El0. cbn in El0. subst l.
  assert (Hwf1 : exists rest, well_formed s1 (W1.*1 ++ a :: rest)).
  { rewrite Es1. exists (if splits n request then arena_next s :: W2.*1 else W2.*1).
    pose proof (well_formed_after_reserve s _ a _ n request Hwf Hn) as Hwf'.
    by destruct (splits n request). }
  destruct Hwf1 as [rest Hwf1].
  pose proof (wf_owner _ _ Hwf1 _ _ Hn1) as Hown1.
  (* the release *)
  pose proof (release_eq _ _ _ Hn1 Hown1) as Hrel.
  rewrite (released_reserved_node _ Ec1) in Hrel.
  set (n2 := set_status Available (set_usage_count 0 n1)) in *.
  assert (Ed1 : decremented n1 = set_usage_count 0 n1).
  { unfold decremented. by rewrite Ec1. }
  assert (Erb : blk_reserved (block s1) = blk_reserved (block s) + rq_size request) by done.
  assert (Erange : 0 <= blk_reserved (block s) /\ blk_reserved (block s1) < 2 ^ 64).
  { pose proof Hr as [? [? ?] ?]. pose proof Hr1 as [? [? ?] ?].
    assert (0 <= total reserved_bytes (nodes s)); [|lia].
    apply total_nonneg. intros b0 nb Hb0. by eapply (reserved_bytes_nonneg s). }
  assert (Err : release_reserved (blk_reserved (block s1)) (decremented n1)
                = blk_reserved (block s)).
  { rewrite Ed1. unfold release_reserved. cbn [usage_count status memory set_usage_count].
    rewrite bool_decide_eq_false_2.
    - cbn. rewrite Esz1, Erb. rewrite wrap64_small by lia. lia.
    - rewrite Est1. by destruct (mr_dedicated (memory n1)). }
  rewrite Err in Hrel.
  match type of Hrel with _ = Some (_, ?st) => set (s2 := st) in * end.
  assert (Eb1 : block s1 = set_reserved (blk_reserved (block s1)) (block s)).
  { rewrite Es1, after_reserve_block. done. }
  assert (Eb2 : block s2 = block s).
  { unfold s2. cbn [block with_nodes with_block]. rewrite Eb1. cbn.
    by destruct (block s). }
  assert (Hwf2 : well_formed s2 (W1.*1 ++ a :: rest)).
  { eapply well_formed_update; [exact Hwf1|exact Hn1|reflexivity|done..]. }
  assert (Hn2 : nodes s2 !! a = Some n2) by apply lookup_insert_eq.
  exists s2, n2. split; [done|]. split; [done|].
  split; [done|]. split; [done|]. split; [done|]. split; [done|].
  (* the second reserve finds the same node *)
  destruct (region_list_at _ _ _ _ Hwf2) as (W1' & n2' & W2' & El2 & E1 & Hn2' & F2).
  assert (n2' = n2) as -> by congruence.
  assert (Hfit2 : fits s2 request n2 = true).
  { destruct (fits_parts _ _ _ Hfit) as (_ & F2' & _ & F5).
    unfold fits. rewrite Eb2.
    assert (available n2 = true) as -> by done.
    rewrite (is_compatible_block_region_properties n n2) by done. rewrite F2'.
    cbn [memory n2 set_status set_usage_count andb].
    rewrite Esz1, Eoff1, F5, Z.leb_refl. cbn [andb].
    rewrite andb_true_r. apply Z.leb_le. rewrite Em, <- Eoff1. exact Hal. }
  assert (Fnot2 : Forall (fun bn => fits s2 request bn.2 = false) W1').
  { apply Forall_forall. intros [b0 nb'] Hin.
    pose proof Hin as Hin0.
    eapply Forall_forall in Hin0; [|exact F2]. cbn in Hin0. destruct Hin0 as [Hne Hb2].
    cbn. rewrite (fits_block s s2) by done.
    unfold s2 in Hb2. cbn in Hb2. rewrite lookup_insert_ne in Hb2 by done.
    assert (Hb0 : b0 ∈ W1.*1).
    { rewrite <- E1. apply list_elem_of_fmap. by exists (b0, nb'). }
    apply list_elem_of_fmap in Hb0 as ([b1 nb] & Eb & Hin1). cbn in Eb. subst b1.
    pose proof Hin1 as Hnot.
    eapply Forall_forall in Hnot; [|exact Fnot]. cbn in Hnot.
    assert (Hbs : nodes s !! b0 = Some nb).
    { apply (walk_lookup (size (nodes s)) _ (blk_regions (block s))).
      fold (region_list s). rewrite El, elem_of_app. by left. }
    pose proof (after_reserve_frame s _ a n request b0 Hwf Hn Hne) as Hfr.
    rewrite <- Es1, Hb2 in Hfr.
    destruct Hfr as [(E & _)|(nb0 & Hb0 & [->| ->])]; [congruence|..];
      assert (nb0 = nb) as -> by congruence; done. }
  pose proof (find_block_region_first _ _ request _ _ _ _ Hwf2 El2 Fnot2 Hfit2) as Hfind.
  erewrite reserve_selected;
    [|exact Hwf2|done|by rewrite Eb2|exact Hfind|exact Hn2|done].
  f_equal. f_equal.
  (* and restores the state *)
  assert (Esplit : splits n2 request = false).
  { unfold splits. cbn [memory n2 set_status set_usage_count]. rewrite Esz1.
    by rewrite Z.ltb_irrefl. }
  assert (Ehandle : (mr_handle (memory n2) =? 0) = false) by (by apply Z.eqb_neq).
  unfold after_reserve, placed. rewrite Esplit.
  apply state_eq; cbn [block_addr block nodes arena_next allocators history
                         with_nodes with_block with_history s2].
  - done.
  - rewrite Eb1. cbn [blk_reserved set_reserved memory n2 set_status set_usage_count].
    rewrite Esz1. unfold set_reserved. cbn. f_equal.
    rewrite <- Erb. apply wrap64_small. lia.
  - rewrite insert_insert_eq.
    assert (allocators s1 = allocators s) as ->
      by (rewrite Es1; apply after_reserve_allocators).
    unfold n2. rewrite (reserved_again_node _ n1) by done.
    by apply insert_id.
  - done.
  - done.
  - unfold alloc_events. rewrite Ehandle. by rewrite app_nil_r.
Qed.

Lemma X12_witness :
  exists s1 n1,
    reached (test_block 4) (test_allocator test_allocators 4)
    /\ fresh_block (test_block 4)
    /\ reserve (test_request 4 4) (test_allocator test_allocators 4) = Some (Some 0%nat, s1)
    /\ nodes s1 !! 0%nat = Some n1
    /\ mr_handle (memory n1) <> 0
    /\ aligned_size (mr_offset (memory n1)) (rq_size (test_request 4 4))
         (conform_alignment (rq_alignment (test_request 4 4))
            (alignment (mb_properties (blk_memory (test_block 4)))))
       <= rq_size (test_request 4 4)
    /\ exists s2 n2,
         release 0%nat s1 = Some (tt, s2)
         /\ nodes s2 !! 0%nat = Some n2
         /\ status n2 = Available /\ usage_count n2 = 0 /\ memory n2 = memory n1
         /\ history s2 = history s1
         /\ reserve (test_request 4 4) s2 = Some (Some 0%nat, s1).
Proof.
  assert (Hr : reached (test_block 4) (test_allocator test_allocators 4)).
  { exists 0, test_allocators, (test_allocator test_allocators 4), [].
    split; [apply create_eq|reflexivity]. }
  assert (Hb : fresh_block (test_block 4)) by (split; [reflexivity|cbn; lia]).
  eexists _, _. split; [exact Hr|]. split; [exact Hb|].
  split; [vm_compute; reflexivity|].
  split; [vm_compute; reflexivity|].
  split; [done|]. split; [vm_compute; congruence|].
  eapply (X12_released_region_is_taken_again _ _ _ _ _ _ Hr Hb).
  - vm_compute; reflexivity.
  - vm_compute; reflexivity.
  - done.
  - vm_compute; congruence.
Defined.

(** ** The properties of the regions *)

(** X13: every region of the list carries the memory properties and the
    dedicated flag of the block, whatever was requested; so a request whose
    properties are not compatible with those of the block is never served:
    [reserve] returns null for it and leaves the allocator as it is. *)
Theorem X13_regions_have_the_block_properties s :
  reachable s ->
  (forall a n, (a, n) ∈ region_list s ->
     mr_properties (memory n) = mb_properties (blk_memory (block s))
     /\ mr_dedicated (memory n) = mb_dedicated (blk_memory (block s)))
  /\ forall request r s',
       reserve request s = Some (r, s') ->
       ~ compatible (mb_properties (blk_memory (block s))) (rq_properties request) ->
       r = None /\ s' = s.
Proof.
  intros Hreach. destruct (reachable_well_formed _ Hreach) as [l Hwf].
  pose proof (sd_uniform _ (reachable_sound _ Hreach)) as Hu.
  split.
  { intros a n Hin. apply walk_lookup in Hin. destruct (Hu _ _ Hin) as (? & ? & _). done. }
  intros request r s' H Hnc.
  destruct (reserve_inv _ _ _ _ _ Hwf H) as
    [_ [[-> ->]|(a & n & _ & _ & _ & _ & _ & _ & Hfit & Hn & _)]]; [done|].
  exfalso. apply Hnc. destruct (Hu _ _ Hn) as (<- & _).
  apply is_compatible_block_region_spec. by destruct (fits_size _ _ _ Hfit).
Qed.

Lemma X13_witness :
  exists s,
    after test_allocators 4
      [CallReserve (test_request 4 4); CallReserve (test_request 6 4);
       CallRelease 0%nat] = Some s
    /\ reachable s
    /\ ~ compatible (mb_properties (blk_memory (block s)))
          (rq_properties (cached_request 4 4))
    /\ reserve (cached_request 4 4) s = Some (None, s)
    /\ (fun an => status an.2) <$> region_list s = [Available; InUse; Available]
    /\ (forall a n, (a, n) ∈ region_list s ->
          mr_properties (memory n) = mb_properties (blk_memory (block s))
          /\ mr_dedicated (memory n) = mb_dedicated (blk_memory (block s)))
    /\ forall request r s',
         reserve request s = Some (r, s') ->
         ~ compatible (mb_properties (blk_memory (block s))) (rq_properties request) ->
         r = None /\ s' = s.
Proof.
  eexists. split; [vm_compute; reflexivity|].
  split.
  { eapply (after_reachable test_allocators 4
              [CallReserve (test_request 4 4); CallReserve (test_request 6 4);
               CallRelease 0%nat]).
    vm_compute; reflexivity. }
  split. { intros ([H|H] & _); vm_compute in H; discriminate. }
  split; [vm_compute; reflexivity|]. split; [vm_compute; reflexivity|].
  apply X13_regions_have_the_block_properties.
  eapply (after_reachable test_allocators 4
            [CallReserve (test_request 4 4); CallReserve (test_request 6 4);
             CallRelease 0%nat]).
  vm_compute; reflexivity.
Defined.

(** ** The split *)

(** X14: [reserve] changes the list by at most one node.  When the selected
    region passes the test of [can_split], the list gets one new node directly
    behind it: an [Available] region with usage count 0 and no handle, at the
    aligned offset behind the request, with the rest of the size, whose
    [prev_ptr] stays null; otherwise the list is the same.  In both cases the
    order of the regions is kept and the returned region keeps its place. *)
Theorem X14_reserve_splits_behind_the_region s request a s' :
  reachable s ->
  reserve request s = Some (Some a, s') ->
  exists l1 n l2,
    (region_list s).*1 = l1 ++ a :: l2
    /\ nodes s !! a = Some n
    /\ if (rq_size request <? mr_size (memory n)) && (usage_count n =? 0)
       then
         (region_list s').*1 = l1 ++ a :: arena_next s :: l2
         /\ nodes s !! arena_next s = None
         /\ exists ne,
              nodes s' !! arena_next s = Some ne
              /\ status ne = Available /\ usage_count ne = 0
              /\ mr_handle (memory ne) = 0
              /\ prev_ptr ne = None
              /\ mr_offset (memory ne)
                 = aligned_offset (wrap64 (mr_offset (memory n) + rq_size request))
                     (conform_alignment (rq_alignment request)
                        (alignment (mb_properties (blk_memory (block s)))))
              /\ mr_size (memory ne)
                 = wrap64 (mr_size (memory n)
                           - aligned_size (mr_offset (memory n)) (rq_size request)
                               (conform_alignment (rq_alignment request)
                                  (alignment (mb_properties (blk_memory (block s))))))
       else (region_list s').*1 = l1 ++ a :: l2.
Proof.
  intros Hreach H. destruct (reachable_well_formed _ Hreach) as [l Hwf].
  destruct (reserve_inv _ _ _ _ _ Hwf H) as
    [Hpos [[? _]|(a' & n & W1 & W2 & Ea & Hrem & El & Fnot & Hfit & Hn & ->)]]; [done|].
  injection Ea as <-.
  destruct (region_list_well_formed _ _ Hwf) as [El0 _].
  rewrite El, fmap_app, fmap_cons in El0. cbn in El0. subst l.
  exists (W1.*1), n, (W2.*1). split; [by rewrite El, fmap_app|]. split; [done|].
  pose proof (well_formed_after_reserve s _ a _ n request Hwf Hn) as Hwf'.
  fold (splits n request). destruct (splits n request) eqn:Es.
  - split; [by destruct (region_list_well_formed _ _ Hwf')|].
    pose proof (well_formed_fresh _ _ Hwf) as Hfresh. split; [done|].
    assert (Hne : arena_next s <> a) by congruence.
    pose proof (after_reserve_frame s _ a n request _ Hwf Hn Hne) as Hfr.
    destruct (nodes (after_reserve a n request s) !! arena_next s) as [ne|] eqn:He.
    + destruct Hfr as [(_ & _ & _ & ->)|(nb & Hnb & _)]; [|congruence].
      eexists. split; [done|]. done.
    + exfalso. destruct (wf_dom _ _ Hwf' (arena_next s)) as [Hdom _].
      destruct Hdom as [? ?]; [|congruence].
      rewrite elem_of_app, !elem_of_cons. tauto.
  - by destruct (region_list_well_formed _ _ Hwf').
Qed.

Lemma X14_witness :
  exists s',
    reachable (test_allocator test_allocators 4)
    /\ reserve (test_request 4 4) (test_allocator test_allocators 4) = Some (Some 0%nat, s')
    /\ exists l1 n l2,
         (region_list (test_allocator test_allocators 4)).*1 = l1 ++ 0%nat :: l2
         /\ nodes (test_allocator test_allocators 4) !! 0%nat = Some n
         /\ if (rq_size (test_request 4 4) <? mr_size (memory n)) && (usage_count n =? 0)
            then
              (region_list s').*1
              = l1 ++ 0%nat :: arena_next (test_allocator test_allocators 4) :: l2
              /\ nodes (test_allocator test_allocators 4)
                   !! arena_next (test_allocator test_allocators 4) = None
              /\ exists ne,
                   nodes s' !! arena_next (test_allocator test_allocators 4) = Some ne
                   /\ status ne = Available /\ usage_count ne = 0
                   /\ mr_handle (memory ne) = 0
                   /\ prev_ptr ne = None
                   /\ mr_offset (memory ne)
                      = aligned_offset
                          (wrap64 (mr_offset (memory n) + rq_size (test_request 4 4)))
                          (conform_alignment (rq_alignment (test_request 4 4))
                             (alignment (mb_properties
                                (blk_memory (block (test_allocator test_allocators 4))))))
                   /\ mr_size (memory ne)
                      = wrap64 (mr_size (memory n)
                                - aligned_size (mr_offset (memory n))
                                    (rq_size (test_request 4 4))
                                    (conform_alignment (rq_alignment (test_request 4 4))
                                       (alignment (mb_properties
                                          (blk_memory
                                             (block (test_allocator test_allocators 4)))))))
            else (region_list s').*1 = l1 ++ 0%nat :: l2.
Proof.
  eexists. split; [apply test_allocator_reachable|].
  split; [vm_compute; reflexivity|].
  eapply X14_reserve_splits_behind_the_region.
  - apply test_allocator_reachable.
  - vm_compute; reflexivity.
Defined.

(** ** Regions in ascending order *)

Lemma ordered_seg_walk h o T (W : list (addr * BlockRegion)) : forall o',
  o' = o ->
  Forall (fun an => h !! an.1 = Some an.2) W ->
  ordered o W T <-> ordered_seg h o' (W.*1) T.
Proof.
  revert o. induction W as [|[a n] W IH]; intros o o' -> F; [done|].
  apply Forall_cons in F as [Hn F]. cbn in Hn. cbn [ordered ordered_seg fmap list_fmap fst].
  split.
  - intros (H1 & H2 & H3). exists n. split; [done|]. split; [done|]. split; [done|].
    by apply (IH _ _ eq_refl F).
  - intros (n' & Hn' & H1 & H2 & H3). assert (n' = n) as -> by congruence.
    split; [done|]. split; [done|]. by apply (IH _ _ eq_refl F).
Qed.

Lemma ordered_region_list s l o T :
  well_formed s l -> ordered o (region_list s) T <-> ordered_seg (nodes s) o l T.
Proof.
  intros Hwf. destruct (region_list_well_formed _ _ Hwf) as [<- F].
  by apply ordered_seg_walk.
Qed.

Lemma ordered_seg_mono h o o' l T :
  o' <= o -> ordered_seg h o l T -> ordered_seg h o' l T.
Proof.
  destruct l as [|a l]; cbn; [lia|].
  intros Ho (n & Hn & H1 & H2 & H3). exists n. split; [done|]. split; [lia|done].
Qed.

Lemma ordered_seg_end h l : forall o T, ordered_seg h o l T -> o <= T.
Proof.
  induction l as [|a l IH]; intros o T; cbn; [done|].
  intros (n & Hn & H1 & H2 & H3). apply IH in H3. lia.
Qed.

Lemma ordered_seg_frame h h' l : forall o T,
  (forall b nb, b ∈ l -> h !! b = Some nb ->
     exists nb', h' !! b = Some nb'
                 /\ mr_offset (memory nb') = mr_offset (memory nb)
                 /\ mr_size (memory nb') = mr_size (memory nb)) ->
  ordered_seg h o l T -> ordered_seg h' o l T.
Proof.
  induction l as [|a l IH]; intros o T Hf; cbn; [done|].
  intros (n & Hn & H1 & H2 & H3).
  destruct (Hf a n) as (n' & Hn' & Eo & Es); [by left|done|].
  exists n'. rewrite Eo, Es. split; [done|]. split; [done|]. split; [done|].
  apply IH; [|done]. intros b nb Hb. apply Hf. by right.
Qed.

Lemma ordered_seg_app h l1 l2 : forall o T,
  ordered_seg h o (l1 ++ l2) T <->
  exists m, ordered_seg h o l1 m /\ ordered_seg h m l2 T.
Proof.
  induction l1 as [|a l1 IH]; intros o T; cbn.
  - split.
    + intros H. exists o. split; [lia|done].
    + intros (m & Hm & H). by eapply ordered_seg_mono.
  - split.
    + intros (n & Hn & H1 & H2 & H3). apply IH in H3 as (m & H3 & H4).
      exists m. split; [|done]. exists n. done.
    + intros (m & (n & Hn & H1 & H2 & H3) & H4). exists n.
      split; [done|]. split; [done|]. split; [done|]. apply IH. by exists m.
Qed.

Lemma wrap64_sum a b T : 0 <= a -> 0 <= b -> a + b <= T -> T < 2 ^ 64 -> wrap64 (a + b) = a + b.
Proof. intros. apply wrap64_small. lia. Qed.

(** A node that takes over its successor covers both. *)
Lemma ordered_seg_absorb h o l1 p x l2 np nx T :
  NoDup (l1 ++ p :: x :: l2) ->
  h !! p = Some np -> h !! x = Some nx ->
  0 <= o -> T < 2 ^ 64 ->
  ordered_seg h o (l1 ++ p :: x :: l2) T ->
  ordered_seg (absorb h p x np nx) o (l1 ++ p :: l2) T.
Proof.
  intros Hnd Hp Hx Ho HT H.
  apply ordered_seg_app in H as (m & H1 & H2). cbn in H2.
  destruct H2 as (np' & Hp' & P1 & P2 & nx' & Hx' & X1 & X2 & H3).
  assert (np' = np) as -> by congruence. assert (nx' = nx) as -> by congruence.
  pose proof (ordered_seg_end _ _ _ _ H1) as Hom.
  pose proof (ordered_seg_end _ _ _ _ H3) as HxT.
  apply NoDup_app in Hnd as (_ & Hd1 & Hnd).
  apply NoDup_cons in Hnd as (Hp2 & Hnd). apply NoDup_cons in Hnd as (Hx2 & Hnd).
  assert (Hpx : p <> x) by (intros ->; apply Hp2; by left).
  assert (Hother : forall b nb, b <> p -> b <> x -> h !! b = Some nb ->
            exists nb', absorb h p x np nx !! b = Some nb'
                        /\ mr_offset (memory nb') = mr_offset (memory nb)
                        /\ mr_size (memory nb') = mr_size (memory nb)).
  { intros b nb Hbp Hbx Hb. destruct (decide (next_ptr nx = Some b)) as [Ey|Hy].
    - eexists. split; [by eapply lookup_absorb_next|done].
    - exists nb. by rewrite lookup_absorb_other. }
  apply ordered_seg_app. exists m. split.
  { eapply ordered_seg_frame; [|exact H1]. intros b nb Hb. apply Hother.
    - intros E. apply (Hd1 b Hb). rewrite E. by left.
    - intros E. apply (Hd1 b Hb). rewrite E. right. by left. }
  cbn. exists (grown np nx). split; [by apply lookup_absorb_p|].
  unfold grown. cbn [memory set_memory set_size set_next_ptr mr_offset mr_size].
  rewrite (wrap64_sum _ _ T) by lia.
  split; [done|]. split; [lia|].
  eapply ordered_seg_mono; [|eapply ordered_seg_frame; [|exact H3]]; [lia|].
  intros b nb Hb. apply Hother.
  - intros E. apply Hp2. rewrite <- E. by right.
  - intros E. apply Hx2. by rewrite <- E.
Qed.

(** The placement over the states of an allocator. *)
Lemma merge_next_ordered s l1 a1 l2 n1 r s' l' T :
  well_formed s (l1 ++ a1 :: l2) ->
  nodes s !! a1 = Some n1 ->
  merge_next a1 s = Some (r, s') ->
  T < 2 ^ 64 ->
  ordered 0 (region_list s) T ->
  well_formed s' l' ->
  ordered 0 (region_list s') T.
Proof.
  intros Hwf Hn1 Hrun HT Hord Hwf'.
  rewrite (ordered_region_list _ _ _ _ Hwf) in Hord.
  destruct (well_formed_at _ _ _ _ Hwf) as (n & Hn & Hprev & Hnext & Hlp & Hln).
  assert (n = n1) as -> by congruence.
  destruct (node_available (nodes s) (next_ptr n1)) eqn:Eav.
  - rewrite Hnext in Eav. destruct l2 as [|x l2]; [done|]. cbn in Eav.
    destruct (nodes s !! x) as [nx|] eqn:Hx; [|done].
    assert (Hwfx : well_formed s ((l1 ++ [a1]) ++ x :: l2)) by (by rewrite <- app_assoc).
    destruct (well_formed_at _ _ _ _ Hwfx) as (nx' & Hnx' & _ & Hnextx & _ & Hlnx).
    assert (nx' = nx) as -> by congruence.
    pose proof (wf_nodup _ _ Hwf) as Hnd0.
    pose proof Hnd0 as Hnd.
    apply NoDup_app in Hnd as (_ & _ & Hnd).
    apply NoDup_cons in Hnd as (Ha1 & Hnd).
    apply NoDup_cons in Hnd as (Hx2 & Hnd).
    assert (x <> a1) by (intros ->; apply Ha1; by left).
    assert (Hy1 : next_ptr nx <> Some a1).
    { rewrite Hnextx. destruct l2 as [|y l2]; [done|]. intros [= ->].
      apply Ha1. right. by left. }
    assert (Hy2 : next_ptr nx <> Some x).
    { rewrite Hnextx. destruct l2 as [|y l2]; [done|]. intros [= ->].
      apply Hx2. by left. }
    rewrite (merge_next_eq s a1 n1 x nx) in Hrun by done.
    injection Hrun as <- <-.
    match type of Hwf' with well_formed ?st _ =>
      assert (Hwf1 : well_formed st (l1 ++ a1 :: l2)) end.
    { eapply well_formed_absorb; [exact Hwf|exact Hn1|exact Hx|done..]. }
    rewrite (ordered_region_list _ _ _ _ Hwf1). cbn [nodes with_nodes with_history].
    by apply ordered_seg_absorb.
  - rewrite (merge_next_skip s a1 n1) in Hrun by done.
    injection Hrun as <- <-. by rewrite (ordered_region_list _ _ _ _ Hwf).
Qed.

Lemma merge_prev_ordered s l1 a l2 n r s' l' T :
  well_formed s (l1 ++ a :: l2) ->
  nodes s !! a = Some n ->
  merge_prev a s = Some (r, s') ->
  T < 2 ^ 64 ->
  ordered 0 (region_list s) T ->
  well_formed s' l' ->
  ordered 0 (region_list s') T.
Proof.
  intros Hwf Hn Hrun HT Hord Hwf'.
  rewrite (ordered_region_list _ _ _ _ Hwf) in Hord.
  destruct (well_formed_at _ _ _ _ Hwf) as (n' & Hn' & Hprev & Hnext & Hlp & Hln).
  assert (n' = n) as -> by congruence.
  destruct (node_available (nodes s) (prev_ptr n)) eqn:Eav.
  - destruct (prev_ptr n) as [p|] eqn:Ep; [|done]. cbn in Eav.
    destruct (nodes s !! p) as [np|] eqn:Hp; [|done].
    destruct Hprev as [|Hprev]; [done|]. symmetry in Hprev.
    unfold last_or in Hprev. destruct (last l1) as [d|] eqn:El; [|done].
    injection Hprev as ->. apply last_Some in El as [l1' ->].
    rewrite <- app_assoc in Hwf, Hord. cbn in Hwf, Hord.
    pose proof (wf_nodup _ _ Hwf) as Hnd0.
    pose proof Hnd0 as Hnd.
    apply NoDup_app in Hnd as (_ & _ & Hnd).
    apply NoDup_cons in Hnd as (Hp2 & Hnd).
    apply NoDup_cons in Hnd as (Ha2 & Hnd).
    assert (p <> a) by (intros ->; apply Hp2; by left).
    assert (Hx1 : next_ptr n <> Some p).
    { rewrite Hnext. destruct l2 as [|y l2]; [done|]. intros [= ->].
      apply Hp2. right. by left. }
    assert (Hx2 : next_ptr n <> Some a).
    { rewrite Hnext. destruct l2 as [|y l2]; [done|]. intros [= ->].
      apply Ha2. by left. }
    rewrite (merge_prev_eq s a n p np) in Hrun by done.
    injection Hrun as <- <-.
    match type of Hwf' with well_formed ?st _ =>
      assert (Hwf1 : well_formed st (l1' ++ p :: l2)) end.
    { eapply well_formed_absorb; [exact Hwf|exact Hp|exact Hn|done..]. }
    rewrite (ordered_region_list _ _ _ _ Hwf1). cbn [nodes with_nodes with_history].
    by apply ordered_seg_absorb.
  - rewrite (merge_prev_skip s a n) in Hrun by done.
    injection Hrun as <- <-. by rewrite (ordered_region_list _ _ _ _ Hwf).
Qed.

Lemma ordered_update s s' l a n n' o T :
  well_formed s l ->
  nodes s !! a = Some n ->
  nodes s' = <[a := n']> (nodes s) ->
  mr_offset (memory n') = mr_offset (memory n) ->
  mr_size (memory n') = mr_size (memory n) ->
  ordered_seg (nodes s) o l T -> ordered_seg (nodes s') o l T.
Proof.
  intros Hwf Hn En Eo Es. apply ordered_seg_frame. intros b nb Hb Hnb.
  rewrite En. destruct (decide (b = a)) as [->|Hne].
  - rewrite lookup_insert_eq. exists n'. assert (nb = n) as -> by congruence. done.
  - rewrite lookup_insert_ne by done. by exists nb.
Qed.

Lemma coalesce_block_regions_ordered s l1 a l2 n a1 s' T :
  well_formed s (l1 ++ a :: l2) ->
  nodes s !! a = Some n ->
  coalesce_block_regions a s = Some (a1, s') ->
  T < 2 ^ 64 ->
  ordered 0 (region_list s) T ->
  ordered 0 (region_list s') T.
Proof.
  intros Hwf Hn Hrun HT Hord.
  destruct (unhandled_links n) as (Ep & Ex & Eav).
  set (s0 := with_history (history s ++ dealloc_events (allocators s) a n)
               (with_nodes (<[a := unhandled n]> (nodes s)) s)).
  assert (H0 : give_back_handle a s = Some (tt, s0)) by (by apply give_back_handle_eq).
  assert (Hwf0 : well_formed s0 (l1 ++ a :: l2)).
  { eapply well_formed_update; [exact Hwf|exact Hn|reflexivity|try done..].
    unfold unhandled. by destruct (needs_free n). }
  assert (Hn0 : nodes s0 !! a = Some (unhandled n)) by apply lookup_insert_eq.
  assert (Hord0 : ordered 0 (region_list s0) T).
  { rewrite (ordered_region_list _ _ _ _ Hwf0).
    rewrite (ordered_region_list _ _ _ _ Hwf) in Hord.
    eapply (ordered_update s s0); [exact Hwf|exact Hn|reflexivity| | |exact Hord];
      unfold unhandled; by destruct (needs_free n). }
  destruct (merge_prev_wf _ _ _ _ _ Hwf0 Hn0)
    as (a1' & s1 & l1' & n1 & H1 & Hwf1 & _ & _ & _ & Hn1 & _).
  destruct (merge_next_wf _ _ _ _ _ Hwf1 Hn1)
    as (s2 & l2' & n2 & H2 & Hwf2 & _).
  rewrite coalesce_block_regions_parts in Hrun.
  rewrite (bind_eq _ _ _ _ _ H0), (bind_eq _ _ _ _ _ H1), H2 in Hrun.
  injection Hrun as <- <-.
  eapply merge_next_ordered; [exact Hwf1|exact Hn1|exact H2|done| |exact Hwf2].
  eapply merge_prev_ordered; [exact Hwf0|exact Hn0|exact H1|done|done|exact Hwf1].
Qed.

Lemma collect_loop_ordered fuel : forall s l1 rest result res s' T,
  well_formed s (l1 ++ rest) ->
  collect_loop fuel (head rest) result s = Some (res, s') ->
  T < 2 ^ 64 ->
  ordered 0 (region_list s) T ->
  ordered 0 (region_list s') T.
Proof.
  induction fuel as [|fuel IH]; intros s l1 rest result res s' T Hwf Hrun HT Hord.
  { destruct rest; [|done]. by injection Hrun as <- <-. }
  destruct rest as [|a l2].
  { by injection Hrun as <- <-. }
  cbn [head collect_loop] in Hrun.
  destruct (well_formed_at _ _ _ _ Hwf) as (n & Hn & Hprev & Hnext & Hlp & Hln).
  rewrite (bind_eq _ _ _ _ _ (can_coalesce_eq _ _ _ Hn Hlp Hln)) in Hrun.
  destruct (available n
            && (node_available (nodes s) (prev_ptr n)
                || node_available (nodes s) (next_ptr n))).
  - destruct (coalesce_block_regions_wf _ _ _ _ _ Hwf Hn)
      as (a1 & s1 & l1' & l2' & n1 & Hco & Hwf1 & _ & _ & _ & Hn1 & _).
    rewrite (bind_eq _ _ _ _ _ Hco) in Hrun.
    destruct (well_formed_at _ _ _ _ Hwf1) as (n1' & Hn1' & _ & Hnext1 & _).
    assert (n1' = n1) as -> by congruence.
    rewrite (bind_eq _ _ _ _ _ (rd_eq _ _ _ next_ptr Hn1)), Hnext1 in Hrun.
    eapply (IH s1 (l1' ++ [a1]) l2'); [by rewrite <- app_assoc|exact Hrun|done|].
    eapply coalesce_block_regions_ordered; [exact Hwf|exact Hn|exact Hco|done|done].
  - rewrite (bind_eq _ _ _ _ _ (rd_eq _ _ _ next_ptr Hn)), Hnext in Hrun.
    eapply (IH s (l1 ++ [a]) l2); [by rewrite <- app_assoc|exact Hrun|done|done].
Qed.

Lemma collect_ordered s l res s' T :
  well_formed s l -> collect s = Some (res, s') ->
  T < 2 ^ 64 ->
  ordered 0 (region_list s) T -> ordered 0 (region_list s') T.
Proof.
  intros Hwf Hrun. rewrite collect_unfold, (well_formed_head _ _ Hwf) in Hrun.
  by eapply (collect_loop_ordered _ s [] l).
Qed.

(** *** The arithmetic of a split *)

Lemma conform_alignment_range r q : 0 <= conform_alignment r q <= 2 ^ 63.
Proof.
  unfold conform_alignment, wrap64.
  pose proof (Z.log2_up_nonneg (Z.max r q)) as Hk.
  destruct (Z_lt_le_dec (Z.log2_up (Z.max r q)) 64) as [Hlt|Hge].
  - assert (2 ^ Z.log2_up (Z.max r q) <= 2 ^ 63) by (apply Z.pow_le_mono_r; lia).
    assert (0 < 2 ^ Z.log2_up (Z.max r q)) by (apply Z.pow_pos_nonneg; lia).
    rewrite Z.mod_small; lia.
  - replace (Z.log2_up (Z.max r q)) with (64 + (Z.log2_up (Z.max r q) - 64)) by lia.
    rewrite Z.pow_add_r by lia. rewrite Z.mul_comm, Z.mod_mul by lia. lia.
Qed.

Lemma round_up_bounds x al :
  0 <= al -> x <= round_up x al /\ round_up x al <= x + al.
Proof.
  intros Hal. unfold round_up. destruct (al =? 0) eqn:E; [lia|].
  apply Z.eqb_neq in E.
  pose proof (Z.div_mod (x + al - 1) al E) as Hdm.
  pose proof (Z.mod_pos_bound (x + al - 1) al) as Hm. lia.
Qed.

(** The empty region of a split lies between the request and the end of the
    region that is split. *)
Lemma split_arithmetic o rq S al T :
  0 <= o -> 0 < rq -> rq <= S -> o + S <= T -> T < 2 ^ 63 ->
  0 <= al <= 2 ^ 63 ->
  aligned_size o rq al <= S ->
  o + rq <= aligned_offset (wrap64 (o + rq)) al
  /\ 0 <= wrap64 (S - aligned_size o rq al)
  /\ aligned_offset (wrap64 (o + rq)) al + wrap64 (S - aligned_size o rq al) <= o + S.
Proof.
  intros Ho Hrq HS HT HT63 Hal Hfit.
  assert (H63 : 2 ^ 63 + 2 ^ 63 = 2 ^ 64) by done.
  unfold aligned_offset, aligned_size in *.
  rewrite (wrap64_small (o + rq)) by lia.
  destruct (round_up_bounds (o + rq) al) as [Hlo Hhi]; [lia|].
  rewrite (wrap64_small (round_up (o + rq) al - o)) in * by lia.
  rewrite (wrap64_small (round_up (o + rq) al)) by lia.
  rewrite wrap64_small by lia. lia.
Qed.

Lemma ordered_seg_start h l : forall o T a n l1 l2,
  l = l1 ++ a :: l2 -> h !! a = Some n -> ordered_seg h o l T ->
  o <= mr_offset (memory n) /\ 0 <= mr_size (memory n)
  /\ mr_offset (memory n) + mr_size (memory n) <= T.
Proof.
  intros o T a n l1 l2 -> Hn H. apply ordered_seg_app in H as (m & H1 & H2).
  cbn in H2. destruct H2 as (n' & Hn' & P1 & P2 & H3).
  assert (n' = n) as -> by congruence.
  apply ordered_seg_end in H1, H3. lia.
Qed.

(** [reserve] keeps the regions in order. *)
Lemma reserve_ordered s l request a n T :
  well_formed s l ->
  nodes s !! a = Some n ->
  0 < rq_size request ->
  fits s request n = true ->
  T < 2 ^ 63 ->
  ordered 0 (region_list s) T ->
  ordered 0 (region_list (after_reserve a n request s)) T.
Proof.
  intros Hwf Hn Hpos Hfit HT Hord.
  rewrite (ordered_region_list _ _ _ _ Hwf) in Hord.
  assert (Ha : a ∈ l) by (apply (wf_dom _ _ Hwf); by eexists).
  apply list_elem_of_split in Ha as (l1 & l2 & ->).
  pose proof (well_formed_after_reserve s _ a _ n request Hwf Hn) as Hwf'.
  pose proof (wf_nodup _ _ Hwf) as Hnd.
  apply NoDup_app in Hnd as (_ & Hd1 & Hnd). apply NoDup_cons in Hnd as (Ha2 & _).
  assert (Hframe : forall b nb, b <> a -> nodes s !! b = Some nb ->
            exists nb', nodes (after_reserve a n request s) !! b = Some nb'
                        /\ mr_offset (memory nb') = mr_offset (memory nb)
                        /\ mr_size (memory nb') = mr_size (memory nb)).
  { intros b nb Hne Hb.
    pose proof (after_reserve_frame s _ a n request b Hwf Hn Hne) as H.
    destruct (nodes (after_reserve a n request s) !! b) as [nb'|]; [|congruence].
    destruct H as [(E & _)|(nb0 & Hb0 & [->| ->])]; [congruence|..];
      assert (nb0 = nb) as -> by congruence; by eexists. }
  destruct (placed_memory s n request) as (P1 & _ & _ & _ & P5).
  destruct (allocated_memory (allocators s) (placed s n request)) as (A1 & _ & A3 & _).
  destruct (ordered_seg_start _ _ _ _ _ _ _ _ eq_refl Hn Hord) as (Ho & HS & HoS).
  pose proof Hord as Hord0.
  apply ordered_seg_app in Hord as (m & H1 & H2). cbn in H2.
  destruct H2 as (n' & Hn' & Q1 & Q2 & H3). assert (n' = n) as -> by congruence.
  assert (Hpre : ordered_seg (nodes (after_reserve a n request s)) 0 l1 m).
  { eapply ordered_seg_frame; [|exact H1]. intros b nb Hb. apply Hframe.
    intros E. apply (Hd1 b Hb). rewrite E. by left. }
  assert (Hpost : ordered_seg (nodes (after_reserve a n request s))
                    (mr_offset (memory n) + mr_size (memory n)) l2 T).
  { eapply ordered_seg_frame; [|exact H3]. intros b nb Hb. apply Hframe.
    intros E. apply Ha2. by rewrite <- E. }
  destruct (splits n request) eqn:Es.
  - rewrite (ordered_region_list _ _ _ _ Hwf').
    apply ordered_seg_app. exists m. split; [done|].
    cbn [ordered_seg]. eexists. split; [apply after_reserve_node|].
    cbn [memory set_usage_count]. rewrite A1, A3, P1, P5.
    split; [done|]. split; [lia|].
    pose proof (well_formed_fresh _ _ Hwf) as Hfresh.
    assert (Hne : arena_next s <> a) by congruence.
    pose proof (after_reserve_frame s _ a n request _ Hwf Hn Hne) as Hfr.
    destruct (nodes (after_reserve a n request s) !! arena_next s) as [ne|] eqn:He.
    + destruct Hfr as [(_ & _ & _ & ->)|(nb & Hnb & _)]; [|congruence].
      eexists. split; [done|]. cbn [memory empty_region mr_offset mr_size].
      destruct (fits_parts _ _ _ Hfit) as (_ & _ & F3 & _).
      apply Z.leb_le in F3.
      assert (F4 : aligned_size (mr_offset (memory n)) (rq_size request)
                     (conform_alignment (rq_alignment request)
                        (alignment (mb_properties (blk_memory (block s)))))
                   <= mr_size (memory n)).
      { unfold fits in Hfit. apply andb_true_iff in Hfit as [Hfit _].
        apply andb_true_iff in Hfit as [_ Hfit]. by apply Z.leb_le in Hfit. }
      destruct (split_arithmetic (mr_offset (memory n)) (rq_size request)
                  (mr_size (memory n)) _ T Ho Hpos F3 HoS HT
                  (conform_alignment_range _ _) F4) as (B1 & B2 & B3).
      split; [done|]. split; [done|].
      eapply ordered_seg_mono; [exact B3|exact Hpost].
    + exfalso. destruct (wf_dom _ _ Hwf' (arena_next s)) as [Hdom _].
      destruct Hdom as [? ?]; [|congruence].
      rewrite elem_of_app, !elem_of_cons. tauto.
  - rewrite (ordered_region_list _ _ _ _ Hwf').
    apply ordered_seg_app. exists m. split; [done|].
    cbn [ordered_seg]. eexists. split; [apply after_reserve_node|].
    cbn [memory set_usage_count]. rewrite A1, A3, P1, P5. done.
Qed.

Lemma call_ordered s l c s' T :
  well_formed s l ->
  call c s = Some (tt, s') ->
  is_reclaim c = false ->
  T < 2 ^ 63 ->
  ordered 0 (region_list s) T ->
  ordered 0 (region_list s') T.
Proof.
  intros Hwf Hcall Hc HT Hord.
  destruct (call_well_formed _ _ _ _ Hwf Hcall) as [l' Hwf'].
  destruct c as [request|a|a|a| |]; try done.
  - pose proof (call_effect _ _ _ _ Hwf Hcall) as Heff.
    inversion Heff as [r0 Hpos|r0 a n Hpos Hrem Hn Hfit| | | | |]; subst; [done|].
    by eapply reserve_ordered.
  - pose proof (call_effect _ _ _ _ Hwf Hcall) as Heff.
    inversion Heff as [| |a0 n Hn| | | |]; subst.
    assert (Hwf1 : well_formed (after_release a n s) l).
    { destruct (released_links (decremented n)) as [E1 E2].
      destruct (decremented_links n) as (E3 & E4 & E5).
      pose proof (released_owner (decremented n)) as E6.
      eapply well_formed_update;
        [exact Hwf|exact Hn|reflexivity| | |reflexivity|reflexivity| |reflexivity];
        congruence. }
    rewrite (ordered_region_list _ _ _ _ Hwf1).
    rewrite (ordered_region_list _ _ _ _ Hwf) in Hord.
    eapply (ordered_update s _ l a n); [exact Hwf|exact Hn|reflexivity| | |exact Hord];
      by rewrite released_decremented_memory.
  - pose proof (call_effect _ _ _ _ Hwf Hcall) as Heff.
    inversion Heff as [| | |a0 n Hn| | |]; subst.
    assert (Hwf1 : well_formed (after_retain a n s) l).
    { eapply well_formed_update; [exact Hwf|exact Hn|reflexivity|done..]. }
    rewrite (ordered_region_list _ _ _ _ Hwf1).
    rewrite (ordered_region_list _ _ _ _ Hwf) in Hord.
    by eapply (ordered_update s _ l a n); [exact Hwf|exact Hn|reflexivity| | |exact Hord].
  - cbn [call] in Hcall. apply bind_inv in Hcall as (res & s1 & H & Hret).
    injection Hret as <-. eapply collect_ordered; [exact Hwf|exact H|lia|done].
  - pose proof (call_effect _ _ _ _ Hwf Hcall) as Heff.
    inversion Heff as [| | | | | |s0 Hnodes Hres Hh Ea Eb Em Er]; subst.
    assert (Hwf1 : well_formed s' l).
    { destruct (release_all_spec _ _ Hwf) as (s2 & Hrun & _ & _ & _ & Ear & _).
      cbn [call] in Hcall. rewrite Hrun in Hcall. injection Hcall as <-.
      eapply well_formed_fmap;
        [exact Hwf|apply released_links|apply released_owner|exact Hnodes|done..]. }
    rewrite (ordered_region_list _ _ _ _ Hwf1).
    rewrite (ordered_region_list _ _ _ _ Hwf) in Hord.
    eapply ordered_seg_frame; [|exact Hord]. intros b nb _ Hb.
    exists (released nb). rewrite Hnodes, Hb. split; [done|].
    unfold released. by destruct (0 <? usage_count nb).
Qed.

Lemma calls_ordered cs : forall s l s' T,
  well_formed s l ->
  calls cs s = Some s' ->
  Forall (fun c => is_reclaim c = false) cs ->
  T < 2 ^ 63 ->
  ordered 0 (region_list s) T ->
  ordered 0 (region_list s') T.
Proof.
  induction cs as [|c cs IH]; intros s l s' T Hwf H Hno HT Hord; cbn in H.
  - by injection H as <-.
  - destruct (call c s) as [[[] s1]|] eqn:E; [|done].
    apply Forall_cons in Hno as [Hc Hno].
    destruct (call_well_formed _ _ _ _ Hwf E) as [l1 Hwf1].
    eapply (IH s1 l1 s' T Hwf1 H Hno HT).
    eapply call_ordered; [exact Hwf|exact E|done|done|done].
Qed.

(** ** Regions in ascending order *)

(** X15: as long as [reclaim] is not called, the regions never overlap.  For
    an allocator created on a block of less than 2^63 bytes, after any calls
    of [reserve], [release], [retain], [collect] and the release of all
    regions, the regions of the list lie in the block in list order: each has
    a size that is not negative and starts at or behind the end of the one
    before it, and the last one ends within the block.  (The alignment
    helpers are those the specification gives; [free_block_region], which
    [reclaim] calls, is what breaks the order.) *)
Theorem X15_regions_stay_in_order_without_reclaim baddr b ma s0 cs s :
  create baddr b ma = Some s0 ->
  0 <= mb_size (blk_memory b) < 2 ^ 63 ->
  calls cs s0 = Some s ->
  Forall (fun c => is_reclaim c = false) cs ->
  ordered 0 (region_list s) (mb_size (blk_memory b)).
Proof.
  intros Hc Hsz Hcs Hno.
  pose proof (create_well_formed _ _ _ _ Hc) as Hwf0.
  eapply (calls_ordered cs s0); [exact Hwf0|exact Hcs|exact Hno|lia|].
  rewrite (ordered_region_list _ _ _ _ Hwf0).
  rewrite create_eq in Hc. injection Hc as <-. cbn.
  eexists. split; [apply lookup_insert_eq|]. cbn. lia.
Qed.

Lemma X15_witness :
  exists s0 s,
    create 0 (test_block 4) test_allocators = Some s0
    /\ 0 <= mb_size (blk_memory (test_block 4)) < 2 ^ 63
    /\ calls [CallReserve (test_request 4 4); CallReserve (test_request 6 4);
              CallRelease 0%nat; CallRetain 1%nat; CallCollect; CallReleaseAll] s0
       = Some s
    /\ Forall (fun c => is_reclaim c = false)
         [CallReserve (test_request 4 4); CallReserve (test_request 6 4);
          CallRelease 0%nat; CallRetain 1%nat; CallCollect; CallReleaseAll]
    /\ ordered 0 (region_list s) (mb_size (blk_memory (test_block 4))).
Proof.
  eexists _, _. split; [apply create_eq|].
  split; [cbn; lia|].
  split; [vm_compute; reflexivity|].
  split; [repeat constructor|].
  eapply (X15_regions_stay_in_order_without_reclaim 0 (test_block 4) test_allocators _
            [CallReserve (test_request 4 4); CallReserve (test_request 6 4);
             CallRelease 0%nat; CallRetain 1%nat; CallCollect; CallReleaseAll]).
  - apply create_eq.
  - cbn; lia.
  - vm_compute; reflexivity.
  - repeat constructor.
Defined.
